(** * UsdTransform3dMayaXformStack: the Maya transform stack over USD xformOps

    A shallow embedding of lib/mayaUsd/ufe/UsdTransform3dMayaXformStack.cpp.
    C++ exceptions, and the fatal end of a call through a null converter,
    are carried by [Result]; the USD prim the stack is bound to is an
    explicit record that every function reads or returns. *)

From Stdlib Require Import String List Bool Arith Lia Sorted.
From stdpp Require Import base option list strings gmap.

Local Open Scope string_scope.

(** ** Exceptions *)

Inductive Exception :=
| RuntimeError (what : string)   (* std::runtime_error *)
| OutOfRange                     (* std::out_of_range, thrown by [at] *)
| UnsupportedEncoding.           (* the call of a null converter: fatal, see [callFromAttr] *)

Inductive Result (A : Type) :=
| Ok (a : A)
| Throw (e : Exception).
Arguments Ok {A} a.
Arguments Throw {A} e.

Definition returns {A} (r : Result A) : bool :=
  match r with Ok _ => true | Throw _ => false end.

(** ** Canonical stack positions *)

(** Modelled from the spec: the header UsdTransform3dMayaXformStack.h that
    declares the enumeration OpNdx is not part of the sources.  Spec sections
    1 and 3 give its thirteen slots and their order, which is the required
    authoring order. *)
Inductive OpNdx :=
| NdxTranslate
| NdxPivot
| NdxRotatePivotTranslate
| NdxRotatePivot
| NdxRotate
| NdxRotateAxis
| NdxRotatePivotInverse
| NdxScalePivotTranslate
| NdxScalePivot
| NdxShear
| NdxScale
| NdxScalePivotInverse
| NdxPivotInverse.

Definition ndxValue (n : OpNdx) : nat :=
  match n with
  | NdxTranslate => 0
  | NdxPivot => 1
  | NdxRotatePivotTranslate => 2
  | NdxRotatePivot => 3
  | NdxRotate => 4
  | NdxRotateAxis => 5
  | NdxRotatePivotInverse => 6
  | NdxScalePivotTranslate => 7
  | NdxScalePivot => 8
  | NdxShear => 9
  | NdxScale => 10
  | NdxScalePivotInverse => 11
  | NdxPivotInverse => 12
  end.

Definition allOpNdx : list OpNdx :=
  [ NdxTranslate; NdxPivot; NdxRotatePivotTranslate; NdxRotatePivot; NdxRotate;
    NdxRotateAxis; NdxRotatePivotInverse; NdxScalePivotTranslate; NdxScalePivot;
    NdxShear; NdxScale; NdxScalePivotInverse; NdxPivotInverse ].

Definition ndx_eqb (a b : OpNdx) : bool := Nat.eqb (ndxValue a) (ndxValue b).
Definition ndx_ltb (a b : OpNdx) : bool := Nat.ltb (ndxValue a) (ndxValue b).

(** ** Associative tables built from an initialiser list *)

Fixpoint table_find {K V : Type} (eqb : K -> K -> bool) (k : K)
    (entries : list (K * V)) : option V :=
  match entries with
  | [] => None
  | (k', v) :: rest => if eqb k' k then Some v else table_find eqb k rest
  end.

(** [unordered_map::at]: the mapped value, or std::out_of_range. *)
Definition table_at {K V : Type} (eqb : K -> K -> bool) (k : K)
    (entries : list (K * V)) : Result V :=
  match table_find eqb k entries with
  | Some v => Ok v
  | None => Throw OutOfRange
  end.

(** ** gOpNameToNdx *)

Definition gOpNameToNdx : list (string * OpNdx) :=
  [ ("xformOp:translate", NdxTranslate);
    ("xformOp:translate:pivot", NdxPivot);
    ("xformOp:translate:rotatePivotTranslate", NdxRotatePivotTranslate);
    ("xformOp:translate:rotatePivot", NdxRotatePivot);
    ("xformOp:rotateX", NdxRotate);
    ("xformOp:rotateY", NdxRotate);
    ("xformOp:rotateZ", NdxRotate);
    ("xformOp:rotateXYZ", NdxRotate);
    ("xformOp:rotateXZY", NdxRotate);
    ("xformOp:rotateYXZ", NdxRotate);
    ("xformOp:rotateYZX", NdxRotate);
    ("xformOp:rotateZXY", NdxRotate);
    ("xformOp:rotateZYX", NdxRotate);
    ("xformOp:orient", NdxRotate);
    ("xformOp:rotateXYZ:rotateAxis", NdxRotateAxis);
    ("!invert!xformOp:translate:rotatePivot", NdxRotatePivotInverse);
    ("xformOp:translate:scalePivotTranslate", NdxScalePivotTranslate);
    ("xformOp:translate:scalePivot", NdxScalePivot);
    ("xformOp:transform:shear", NdxShear);
    ("xformOp:scale", NdxScale);
    ("!invert!xformOp:translate:scalePivot", NdxScalePivotInverse);
    ("!invert!xformOp:translate:pivot", NdxPivotInverse) ].

Definition gOpNameToNdx_find (name : string) : option OpNdx :=
  table_find String.eqb name gOpNameToNdx.

Definition gOpNameToNdx_at (name : string) : Result OpNdx :=
  table_at String.eqb name gOpNameToNdx.

(** ** Transform ops

    A UsdGeomXformOp is a handle on an attribute of the prim together with
    the inverse flag.  [GetName] is the name of the attribute; [GetOpName]
    is the name as it stands in xformOpOrder, which carries the prefix
    "!invert!" for an inverse op. *)

Record UsdGeomXformOp := mkXformOp {
  opAttrName : string;
  opIsInverse : bool
}.

Definition GetName (op : UsdGeomXformOp) : string := opAttrName op.

Definition GetOpName (op : UsdGeomXformOp) : string :=
  if opIsInverse op then "!invert!" ++ opAttrName op else opAttrName op.

Definition op_eqb (a b : UsdGeomXformOp) : bool :=
  String.eqb (opAttrName a) (opAttrName b) && Bool.eqb (opIsInverse a) (opIsInverse b).

(** The static UsdGeomXformOp::GetOpName(opType, opSuffix). *)
Inductive XformOpType := TypeTranslate | TypeScale | TypeRotateXYZ.

Definition opTypeToken (t : XformOpType) : string :=
  match t with
  | TypeTranslate => "translate"
  | TypeScale => "scale"
  | TypeRotateXYZ => "rotateXYZ"
  end.

Definition GetOpNameOf (t : XformOpType) (opSuffix : string) : string :=
  if String.eqb opSuffix "" then "xformOp:" ++ opTypeToken t
  else "xformOp:" ++ opTypeToken t ++ ":" ++ opSuffix.

(** ** std::map<OpNdx, UsdGeomXformOp>

    An ordered map: the entries are kept in strictly increasing key order,
    which is the order in which a range-for traverses the map. *)
Module OpMap.

Definition t := list (OpNdx * UsdGeomXformOp).

Definition empty : t := [].

(** [m[k] = v]: inserts the key or overwrites its value. *)
Fixpoint assign (k : OpNdx) (v : UsdGeomXformOp) (m : t) : t :=
  match m with
  | [] => [(k, v)]
  | (k', v') :: rest =>
      if ndx_ltb k k' then (k, v) :: m
      else if ndx_eqb k k' then (k, v) :: rest
      else (k', v') :: assign k v rest
  end.

Definition find (k : OpNdx) (m : t) : option UsdGeomXformOp :=
  table_find ndx_eqb k m.

Definition at_ (k : OpNdx) (m : t) : Result UsdGeomXformOp :=
  table_at ndx_eqb k m.

Definition keys (m : t) : list OpNdx := map fst m.
Definition values (m : t) : list UsdGeomXformOp := map snd m.

End OpMap.

(** The keys of the map as integers, in traversal order. *)
Definition keyValues (m : OpMap.t) : list nat :=
  List.map (fun e => ndxValue (fst e)) m.

(** The entry sits at the position its op name resolves to. *)
Definition entryResolved (e : OpNdx * UsdGeomXformOp) : Prop :=
  gOpNameToNdx_find (GetOpName (snd e)) = Some (fst e).

(** The loop shared by setXformOpOrder and getOrderedOps:
    [for (op : ops) { ndx = gOpNameToNdx.at(op.GetOpName()); orderedOps[ndx] = op; }] *)
Fixpoint fillOrderedOps (ops : list UsdGeomXformOp) (orderedOps : OpMap.t)
    : Result OpMap.t :=
  match ops with
  | [] => Ok orderedOps
  | op :: rest =>
      match gOpNameToNdx_at (GetOpName op) with
      | Throw e => Throw e
      | Ok ndx => fillOrderedOps rest (OpMap.assign ndx op orderedOps)
      end
  end.

(** ** The scene-graph store

    A transformable prim as the USD API shows it to this file: its
    attributes by name, the xformOpOrder entries, and the verdicts of the
    authoring layer.  A prim on which UsdGeomXformable is not valid has no
    xformOpOrder; it appears only as a kind of scene item, at the gate. *)

Inductive Precision := PrecisionDouble | PrecisionFloat | PrecisionHalf.

Definition precision_eqb (a b : Precision) : bool :=
  match a, b with
  | PrecisionDouble, PrecisionDouble => true
  | PrecisionFloat, PrecisionFloat => true
  | PrecisionHalf, PrecisionHalf => true
  | _, _ => false
  end.

(** Modelled from the spec: UsdUfe::isAttributeEditAllowed (usdUfe/ufe/Utils.h)
    is not part of the sources.  Spec section 6 gives it as the predicate
    [isEditable(attribute) -> (bool, reason)]; [attrEditError] is its verdict on
    the attribute: [None] when the edit is allowed, [Some reason] when not. *)
Record UsdAttribute (V : Type) := mkAttr {
  attrPrecision : Precision;
  attrValue : option V;          (* [HasValue] and [Get] *)
  attrEditError : option string
}.
Arguments mkAttr {V} _ _ _.
Arguments attrPrecision {V} _.
Arguments attrValue {V} _.
Arguments attrEditError {V} _.

Record UsdPrim (V : Type) := mkPrim {
  primAttrs : gmap string (UsdAttribute V);
  xformOpOrder : list UsdGeomXformOp;      (* the entries of xformOpOrder *)
  resetsXformStack : bool;
  xformOpOrderEditError : option string;   (* verdict on GetXformOpOrderAttr() *)
  primAuthorable : bool                    (* the edit target accepts new opinions *)
}.
Arguments mkPrim {V} _ _ _ _ _.
Arguments primAttrs {V} _.
Arguments xformOpOrder {V} _.
Arguments resetsXformStack {V} _.
Arguments xformOpOrderEditError {V} _.
Arguments primAuthorable {V} _.

Definition GetAttribute {V} (prim : UsdPrim V) (attrName : string)
    : option (UsdAttribute V) :=
  primAttrs prim !! attrName.

(** getUsdPrimAttribute: no lookup for the empty token. *)
Definition getUsdPrimAttribute {V} (prim : UsdPrim V) (attrName : string)
    : option (UsdAttribute V) :=
  if negb (String.eqb attrName "") then GetAttribute prim attrName else None.

Definition opHasAttr {V} (prim : UsdPrim V) (op : UsdGeomXformOp) : bool :=
  match GetAttribute prim (opAttrName op) with
  | Some _ => true
  | None => false
  end.

(** UsdGeomXformable::GetOrderedXformOps: the entries of xformOpOrder whose
    attribute exists on the prim, in order. *)
Definition GetOrderedXformOps {V} (prim : UsdPrim V) : list UsdGeomXformOp :=
  List.filter (opHasAttr prim) (xformOpOrder prim).

(** UsdGeomXformable::SetXformOpOrder: one write of the order attribute. *)
Definition SetXformOpOrder {V} (newOrder : list UsdGeomXformOp) (resets : bool)
    (prim : UsdPrim V) : bool * UsdPrim V :=
  if primAuthorable prim then
    (true, mkPrim (primAttrs prim) newOrder resets
                  (xformOpOrderEditError prim) (primAuthorable prim))
  else (false, prim).

(** UsdGeomXformable::AddXformOp: refuses an op that xformOpOrder already
    lists, any op when the edit target accepts no opinion, and an existing
    attribute of another precision; otherwise creates the attribute if it is
    missing and appends the op to xformOpOrder.  The result is [None] for the
    invalid op. *)
Definition AddXformOp {V} (t : XformOpType) (precision : Precision)
    (opSuffix : string) (isInverseOp : bool) (prim : UsdPrim V)
    : option UsdGeomXformOp * UsdPrim V :=
  let op := mkXformOp (GetOpNameOf t opSuffix) isInverseOp in
  if existsb (op_eqb op) (xformOpOrder prim) then (None, prim)
  else if negb (primAuthorable prim) then (None, prim)
  else
    match GetAttribute prim (opAttrName op) with
    | Some a =>
        if precision_eqb (attrPrecision a) precision then
          (Some op, mkPrim (primAttrs prim)
                           (xformOpOrder prim ++ [op])%list (resetsXformStack prim)
                           (xformOpOrderEditError prim) (primAuthorable prim))
        else (None, prim)
    | None =>
        (Some op, mkPrim (<[opAttrName op := mkAttr precision None None]> (primAttrs prim))
                         (xformOpOrder prim ++ [op])%list (resetsXformStack prim)
                         (xformOpOrderEditError prim) (primAuthorable prim))
    end.

Definition AddTranslateOp {V} := @AddXformOp V TypeTranslate.
Definition AddScaleOp {V} (precision : Precision) (opSuffix : string) :=
  @AddXformOp V TypeScale precision opSuffix false.
Definition AddRotateXYZOp {V} (precision : Precision) (opSuffix : string) :=
  @AddXformOp V TypeRotateXYZ precision opSuffix false.

(** ** setXformOpOrder *)

Definition setXformOpOrder {V} (xformable : UsdPrim V)
    : Result bool * UsdPrim V :=
  let resets := resetsXformStack xformable in
  let oldOrder := GetOrderedXformOps xformable in
  match fillOrderedOps oldOrder OpMap.empty with
  | Throw e => (Throw e, xformable)
  | Ok orderedOps =>
      let newOrder := OpMap.values orderedOps in
      let '(ok, xformable') := SetXformOpOrder newOrder resets xformable in
      (Ok ok, xformable')
  end.

(** The order [newOrder] that setXformOpOrder hands to SetXformOpOrder. *)
Definition computedOrder {V} (xformable : UsdPrim V) : Result (list UsdGeomXformOp) :=
  match fillOrderedOps (GetOrderedXformOps xformable) OpMap.empty with
  | Throw e => Throw e
  | Ok orderedOps => Ok (OpMap.values orderedOps)
  end.

(** The canonical positions of a list of ops, when every name resolves. *)
Fixpoint canonicalPositions (ops : list UsdGeomXformOp) : option (list nat) :=
  match ops with
  | [] => Some []
  | op :: rest =>
      match gOpNameToNdx_find (GetOpName op), canonicalPositions rest with
      | Some ndx, Some l => Some (ndxValue ndx :: l)
      | _, _ => None
      end
  end.

Fixpoint strictlyIncreasing (l : list nat) : bool :=
  match l with
  | a :: (b :: _) as rest => Nat.ltb a b && strictlyIncreasing rest
  | _ => true
  end.

Definition resolves (op : UsdGeomXformOp) : Prop :=
  gOpNameToNdx_find (GetOpName op) <> None.

(** The op that stands last in [ops] among those resolving to [k]. *)
Fixpoint lastAt (k : OpNdx) (ops : list UsdGeomXformOp) : option UsdGeomXformOp :=
  match ops with
  | [] => None
  | op :: rest =>
      match lastAt k rest with
      | Some later => Some later
      | None =>
          match gOpNameToNdx_find (GetOpName op) with
          | Some k' => if ndx_eqb k' k then Some op else None
          | None => None
          end
      end
  end.

(** ** External collaborators of the stack

    The value types and the functions of the repository and of USD that the
    file calls but that are not part of the sources. *)

Record Vector3d (D : Type) := mkVector3d { vx : D; vy : D; vz : D }.
Arguments mkVector3d {D} _ _ _.
Arguments vx {D} _.
Arguments vy {D} _.
Arguments vz {D} _.

(** UsdMayaXformStackTokens (mayaUsd/fileio/utils/xformStack.h). *)
Record XformStackTokens := mkTokens {
  tkRotatePivotTranslate : string;
  tkRotatePivot : string;
  tkRotateAxis : string;
  tkScalePivotTranslate : string;
  tkScalePivot : string;
  tkShear : string
}.

(** UsdMayaXformOpClassification, the element type of an OpClassList. *)
Record OpClass := mkOpClass { opClassName : string; opClassIsInvertedTwin : bool }.

Record Env := mkEnv {
  double : Type;
  d0 : double;                       (* the literal 0 *)
  d1 : double;                       (* the literal 1 *)
  VtValue : Type;
  vtEmpty : VtValue;                 (* VtValue() *)
  vtVec3f : double -> double -> double -> VtValue;   (* VtValue(GfVec3f(x, y, z)) *)
  vtVec3d : double -> double -> double -> VtValue;   (* VtValue(GfVec3d(x, y, z)) *)
  readVec3f : VtValue -> Vector3d double;   (* typed Get into a GfVec3f, then toUfe *)
  readVec3d : VtValue -> Vector3d double;   (* typed Get into a GfVec3d, then toUfe *)
  (* mayaUsd/ufe/RotationUtils.h *)
  fromX : VtValue -> Vector3d double;
  fromY : VtValue -> Vector3d double;
  fromZ : VtValue -> Vector3d double;
  fromXYZ : VtValue -> Vector3d double;
  fromXZY : VtValue -> Vector3d double;
  fromYXZ : VtValue -> Vector3d double;
  fromYZX : VtValue -> Vector3d double;
  fromZXY : VtValue -> Vector3d double;
  fromZYX : VtValue -> Vector3d double;
  toX : double -> double -> double -> VtValue;
  toY : double -> double -> double -> VtValue;
  toZ : double -> double -> double -> VtValue;
  toXYZ : double -> double -> double -> VtValue;
  toXZY : double -> double -> double -> VtValue;
  toYXZ : double -> double -> double -> VtValue;
  toYZX : double -> double -> double -> VtValue;
  toZXY : double -> double -> double -> VtValue;
  toZYX : double -> double -> double -> VtValue;
  (* UsdMayaXformStack::MayaStack().MatchingSubstack *)
  MatchingSubstack : list UsdGeomXformOp -> list OpClass;
  UsdMayaXformStackTokens : XformStackTokens
}.

(** A converter as the two tables hold it: a function of RotationUtils.h, or
    nullptr. *)
Definition CvtRotXYZFromAttrFn (env : Env) : Type :=
  option (VtValue env -> Vector3d (double env)).
Definition CvtRotXYZToAttrFn (env : Env) : Type :=
  option (double env -> double env -> double env -> VtValue env).

(** Modelled from the spec: the header UsdTransform3dMayaXformStack.h, which
    declares the types CvtRotXYZFromAttrFn and CvtRotXYZToAttrFn, is not part
    of the sources, so the code does not say what the call [cvt(...)] of a
    null converter does: an empty std::function would throw
    std::bad_function_call, a null function pointer is a call through a null
    pointer.  The spec (Rotation Codec, UnsupportedEncoding) makes the
    request of the orientation encoding a fatal failure with no recoverable
    path; the model ends the run at the call with [UnsupportedEncoding] and
    says nothing of what follows.  The call of a converter that is a
    function is that of the code. *)
Definition callFromAttr {env : Env} (cvt : CvtRotXYZFromAttrFn env) (v : VtValue env)
    : Result (Vector3d (double env)) :=
  match cvt with
  | Some f => Ok (f v)
  | None => Throw UnsupportedEncoding
  end.

(** Modelled from the spec: as [callFromAttr], for CvtRotXYZToAttrFn. *)
Definition callToAttr {env : Env} (cvt : CvtRotXYZToAttrFn env) (x y z : double env)
    : Result (VtValue env) :=
  match cvt with
  | Some f => Ok (f x y z)
  | None => Throw UnsupportedEncoding
  end.

(** ** Stack reader *)

Definition getOrderedOps {V} (prim : UsdPrim V) : Result OpMap.t :=
  fillOrderedOps (GetOrderedXformOps prim) OpMap.empty.

Definition hasOp {V} (prim : UsdPrim V) (ndx : OpNdx) : Result bool :=
  match getOrderedOps prim with
  | Throw e => Throw e
  | Ok orderedOps =>
      Ok (match OpMap.find ndx orderedOps with Some _ => true | None => false end)
  end.

Definition getOp {V} (prim : UsdPrim V) (ndx : OpNdx) : Result UsdGeomXformOp :=
  match getOrderedOps prim with
  | Throw e => Throw e
  | Ok orderedOps => OpMap.at_ ndx orderedOps
  end.

Definition getOpSuffix (env : Env) (ndx : OpNdx) : Result string :=
  let tk := UsdMayaXformStackTokens env in
  table_at ndx_eqb ndx
    [ (NdxRotatePivotTranslate, tkRotatePivotTranslate tk);
      (NdxRotatePivot, tkRotatePivot tk);
      (NdxRotateAxis, tkRotateAxis tk);
      (NdxScalePivotTranslate, tkScalePivotTranslate tk);
      (NdxScalePivot, tkScalePivot tk);
      (NdxShear, tkShear tk) ].

Definition getTRSOpSuffix : string := "".

Definition getCvtRotXYZFromAttrFn (env : Env) (opName : string)
    : Result (CvtRotXYZFromAttrFn env) :=
  table_at String.eqb opName
    [ ("xformOp:rotateX", Some (fromX env)); ("xformOp:rotateY", Some (fromY env));
      ("xformOp:rotateZ", Some (fromZ env)); ("xformOp:rotateXYZ", Some (fromXYZ env));
      ("xformOp:rotateXZY", Some (fromXZY env)); ("xformOp:rotateYXZ", Some (fromYXZ env));
      ("xformOp:rotateYZX", Some (fromYZX env)); ("xformOp:rotateZXY", Some (fromZXY env));
      ("xformOp:rotateZYX", Some (fromZYX env)); ("xformOp:orient", None) ].

Definition getCvtRotXYZToAttrFn (env : Env) (opName : string)
    : Result (CvtRotXYZToAttrFn env) :=
  table_at String.eqb opName
    [ ("xformOp:rotateX", Some (toX env)); ("xformOp:rotateY", Some (toY env));
      ("xformOp:rotateZ", Some (toZ env)); ("xformOp:rotateXYZ", Some (toXYZ env));
      ("xformOp:rotateXZY", Some (toXZY env)); ("xformOp:rotateYXZ", Some (toYXZ env));
      ("xformOp:rotateYZX", Some (toYZX env)); ("xformOp:rotateZXY", Some (toZXY env));
      ("xformOp:rotateZYX", Some (toZYX env)); ("xformOp:orient", None) ].

Definition zeroVector (env : Env) : Vector3d (double env) :=
  mkVector3d (d0 env) (d0 env) (d0 env).
Definition unitVector (env : Env) : Vector3d (double env) :=
  mkVector3d (d1 env) (d1 env) (d1 env).

(** [r.GetAttr().HasValue()] and [getValue(r.GetAttr(), time)] for an op of the prim. *)
Definition opHasValue {V} (prim : UsdPrim V) (op : UsdGeomXformOp) : bool :=
  match GetAttribute prim (opAttrName op) with
  | Some a => match attrValue a with Some _ => true | None => false end
  | None => false
  end.

Definition getValue {env : Env} (attr : option (UsdAttribute (VtValue env)))
    : VtValue env :=
  match attr with
  | Some a => match attrValue a with Some v => v | None => vtEmpty env end
  | None => vtEmpty env
  end.

(** The typed read of getVector3d<V> and of scale(), by the precision of V. *)
Definition readVec3 (env : Env) (precisionOfV : Precision)
    : VtValue env -> Vector3d (double env) :=
  match precisionOfV with
  | PrecisionDouble => readVec3d env
  | _ => readVec3f env
  end.

Definition getVector3d (env : Env) (precisionOfV : Precision)
    (prim : UsdPrim (VtValue env)) (attrName : string) : Vector3d (double env) :=
  match GetAttribute prim attrName with
  | None => zeroVector env
  | Some attr =>
      match attrValue attr with
      | None => zeroVector env
      | Some v => readVec3 env precisionOfV v
      end
  end.

Definition translation (env : Env) (prim : UsdPrim (VtValue env))
    : Result (Vector3d (double env)) :=
  Ok (getVector3d env PrecisionDouble prim (GetOpNameOf TypeTranslate getTRSOpSuffix)).

Definition rotation (env : Env) (prim : UsdPrim (VtValue env))
    : Result (Vector3d (double env)) :=
  match hasOp prim NdxRotate with
  | Throw e => Throw e
  | Ok false => Ok (zeroVector env)
  | Ok true =>
      match getOp prim NdxRotate with
      | Throw e => Throw e
      | Ok r =>
          if negb (opHasValue prim r) then Ok (zeroVector env)
          else
            match getCvtRotXYZFromAttrFn env (GetOpName r) with
            | Throw e => Throw e
            | Ok cvt => callFromAttr cvt (getValue (GetAttribute prim (opAttrName r)))
            end
      end
  end.

Definition scale (env : Env) (prim : UsdPrim (VtValue env))
    : Result (Vector3d (double env)) :=
  match hasOp prim NdxScale with
  | Throw e => Throw e
  | Ok false => Ok (unitVector env)
  | Ok true =>
      match getOp prim NdxScale with
      | Throw e => Throw e
      | Ok s =>
          if negb (opHasValue prim s) then Ok (unitVector env)
          else Ok (readVec3f env (getValue (GetAttribute prim (opAttrName s))))
      end
  end.

(** The four accessors that read a translate op named by [getOpSuffix]. *)
Definition suffixedVector3d (env : Env) (ndx : OpNdx) (prim : UsdPrim (VtValue env))
    : Result (Vector3d (double env)) :=
  match getOpSuffix env ndx with
  | Throw e => Throw e
  | Ok opSuffix =>
      Ok (getVector3d env PrecisionFloat prim (GetOpNameOf TypeTranslate opSuffix))
  end.

Definition rotatePivot (env : Env) := suffixedVector3d env NdxRotatePivot.
Definition scalePivot (env : Env) := suffixedVector3d env NdxScalePivot.
Definition rotatePivotTranslation (env : Env) :=
  suffixedVector3d env NdxRotatePivotTranslate.
Definition scalePivotTranslation (env : Env) :=
  suffixedVector3d env NdxScalePivotTranslate.

(** ** Stack selection gate *)

(** The prim of a UsdSceneItem: transformable, with its xform data, or not. *)
Inductive ItemPrim (V : Type) :=
| NotXformable
| Xformable (prim : UsdPrim V).
Arguments NotXformable {V}.
Arguments Xformable {V} prim.

Inductive SceneItem (V : Type) :=
| ForeignSceneItem                    (* not a UsdSceneItem: the cast gives null *)
| UsdSceneItem (prim : ItemPrim V).
Arguments ForeignSceneItem {V}.
Arguments UsdSceneItem {V} prim.

(** What createTransform3d hands back: the null pointer, a stack built on
    the item, or whatever the next handler of the chain returned. *)
Inductive Transform3dPtr (V T : Type) :=
| NullTransform3d
| MayaXformStackFor (prim : UsdPrim V)
| FromNextHandler (t : T).
Arguments NullTransform3d {V T}.
Arguments MayaXformStackFor {V T} prim.
Arguments FromNextHandler {V T} t.

(** UsdTransform3dMayaXformStack::create, whose constructor throws on a prim
    that is not transformable. *)
Definition create {V T} (prim : ItemPrim V) : Result (Transform3dPtr V T) :=
  match prim with
  | Xformable xformable => Ok (MayaXformStackFor xformable)
  | NotXformable => Throw (RuntimeError "Invalid scene item for transform stack")
  end.

Fixpoint hasValidSuffix (xformOps : list UsdGeomXformOp) : bool :=
  match xformOps with
  | [] => true
  | xformOp :: rest =>
      match gOpNameToNdx_find (GetName xformOp) with
      | None => false
      | Some _ => hasValidSuffix rest
      end
  end.

Definition isEmpty {A} (l : list A) : bool :=
  match l with [] => true | _ => false end.

Definition createTransform3d (env : Env) {T} (item : SceneItem (VtValue env))
    (nextTransform3dFn : unit -> T) : Result (Transform3dPtr (VtValue env) T) :=
  match item with
  | ForeignSceneItem => Ok NullTransform3d
  | UsdSceneItem NotXformable => Ok NullTransform3d
  | UsdSceneItem (Xformable xformSchema) =>
      let xformOps := GetOrderedXformOps xformSchema in
      if isEmpty xformOps then create (Xformable xformSchema)
      else if negb (hasValidSuffix xformOps) then
        Ok (FromNextHandler (nextTransform3dFn tt))
      else
        let stackOps := MatchingSubstack env xformOps in
        if isEmpty stackOps then Ok (FromNextHandler (nextTransform3dFn tt))
        else create (Xformable xformSchema)
  end.

(** ** Commands *)

(** What one command sees and changes while it lives: the prim of its scene
    item, the UsdUndoableItem it owns, the change notifications sent to
    observers (the state of the prim each one shows) and the messages of
    MGlobal::displayError. *)
Record Session (V : Type) := mkSession {
  sItemIsUsd : bool;               (* cmd.sceneItem() casts to a UsdSceneItem *)
  sPrim : UsdPrim V;
  sUndoable : list (UsdPrim V);    (* captures held by the UsdUndoableItem *)
  sNotified : list (UsdPrim V);
  sDisplayed : list string
}.
Arguments mkSession {V} _ _ _ _ _.
Arguments sItemIsUsd {V} _.
Arguments sPrim {V} _.
Arguments sUndoable {V} _.
Arguments sNotified {V} _.
Arguments sDisplayed {V} _.

Definition OpFunc (V : Type) : Type := Session V -> Result UsdGeomXformOp * Session V.

(** SceneItemHolder: the constructor throws unless the item is a UsdSceneItem. *)
Definition SceneItemHolder {V} (s : Session V) : Result (UsdPrim V) :=
  if sItemIsUsd s then Ok (sPrim s)
  else Throw (RuntimeError "Cannot transform invalid scene item").

(** Modelled from the spec: UsdUndoBlock (usdUfe/undo/UsdUndoBlock.h) and
    UsdUfe::InTransform3dChange (private/UfeNotifGuard.h) are not part of the
    sources.  Spec section 5: a mutation executes inside a single scoped
    transaction that batches the change notifications into one event per
    logical edit and integrates with the undo log so that a thrown failure
    mid-transaction leaves no partially-applied structural change; section 6:
    the transaction records the creation for undo.  [body] is the code between
    the construction of the two guards and the end of their scope. *)
Definition inUndoBlockWithGuard {V A} (body : UsdPrim V -> Result A * UsdPrim V)
    (s : Session V) : Result A * Session V :=
  match body (sPrim s) with
  | (Ok a, prim') =>
      (Ok a, mkSession (sItemIsUsd s) prim' (sPrim s :: sUndoable s)
                       (prim' :: sNotified s) (sDisplayed s))
  | (Throw e, _) => (Throw e, s)
  end.

Definition SetXformOpOrderFn (V : Type) : Type := UsdPrim V -> Result bool * UsdPrim V.

Definition getXformOpOrderFn {V} : SetXformOpOrderFn V := setXformOpOrder.

(** The tail shared by the op functions: the op just added, then the reorder. *)
Definition thenSetOrder {V} (setXformOpOrderFn : SetXformOpOrderFn V)
    (op : UsdGeomXformOp) (cannotSet : string) (xformable : UsdPrim V)
    : Result UsdGeomXformOp * UsdPrim V :=
  match setXformOpOrderFn xformable with
  | (Throw e, xformable') => (Throw e, xformable')
  | (Ok false, xformable') => (Throw (RuntimeError cannotSet), xformable')
  | (Ok true, xformable') => (Ok op, xformable')
  end.

(** The op function of rotateCmd. *)
Definition rotateOpFunc {V} (attrName opSuffix : string)
    (setXformOpOrderFn : SetXformOpOrderFn V) : OpFunc V := fun s =>
  match SceneItemHolder s with
  | Throw e => (Throw e, s)
  | Ok prim =>
      match getUsdPrimAttribute prim attrName with
      | Some _ => (Ok (mkXformOp attrName false), s)
      | None =>
          inUndoBlockWithGuard (fun xformable =>
            match AddRotateXYZOp PrecisionFloat opSuffix xformable with
            | (None, xformable') =>
                (Throw (RuntimeError "Cannot add rotation transform operation"), xformable')
            | (Some r, xformable') =>
                thenSetOrder setXformOpOrderFn r
                  "Cannot set rotation transform operation" xformable'
            end) s
      end
  end.

(** The op function of scaleCmd. *)
Definition scaleOpFunc {V} (attrName opSuffix : string)
    (setXformOpOrderFn : SetXformOpOrderFn V) : OpFunc V := fun s =>
  match SceneItemHolder s with
  | Throw e => (Throw e, s)
  | Ok prim =>
      match getUsdPrimAttribute prim attrName with
      | Some _ => (Ok (mkXformOp attrName false), s)
      | None =>
          inUndoBlockWithGuard (fun xformable =>
            match AddScaleOp PrecisionFloat opSuffix xformable with
            | (None, xformable') =>
                (Throw (RuntimeError "Cannot add scaling transform operation"), xformable')
            | (Some sc, xformable') =>
                thenSetOrder setXformOpOrderFn sc
                  "Cannot set scaling transform operation" xformable'
            end) s
      end
  end.

(** The op function of setVector3dCmd<V>; [precisionOfV] is OpPrecision<V>::precision. *)
Definition vector3dOpFunc {V} (precisionOfV : Precision) (attrName opSuffix : string)
    (setXformOpOrderFn : SetXformOpOrderFn V) : OpFunc V := fun s =>
  match SceneItemHolder s with
  | Throw e => (Throw e, s)
  | Ok prim =>
      match getUsdPrimAttribute prim attrName with
      | Some _ => (Ok (mkXformOp attrName false), s)
      | None =>
          inUndoBlockWithGuard (fun xformable =>
            match AddTranslateOp precisionOfV opSuffix false xformable with
            | (None, xformable') =>
                (Throw (RuntimeError "Cannot add translation transform operation"), xformable')
            | (Some op, xformable') =>
                thenSetOrder setXformOpOrderFn op
                  "Cannot set translation transform operation" xformable'
            end) s
      end
  end.

(** The else branch of the op function of pivotCmd, between the guards and
    the end of their scope: both ops are added, then checked, then the order
    is rewritten. *)
Definition pivotCreate {V} (pvtOpSuffix : string)
    (setXformOpOrderFn : SetXformOpOrderFn V) (xformable : UsdPrim V)
    : Result UsdGeomXformOp * UsdPrim V :=
  let '(p, xformable1) :=
    AddTranslateOp PrecisionFloat pvtOpSuffix false xformable in
  let '(pInv, xformable2) :=
    AddTranslateOp PrecisionFloat pvtOpSuffix true xformable1 in
  match p, pInv with
  | Some p, Some _ =>
      thenSetOrder setXformOpOrderFn p
        "Cannot set translation transform operation" xformable2
  | _, _ =>
      (Throw (RuntimeError "Cannot add translation transform operation"), xformable2)
  end.

(** The op function of pivotCmd. *)
Definition pivotOpFunc {V} (pvtAttrName pvtOpSuffix : string)
    (setXformOpOrderFn : SetXformOpOrderFn V) : OpFunc V := fun s =>
  match SceneItemHolder s with
  | Throw e => (Throw e, s)
  | Ok prim =>
      match GetAttribute prim pvtAttrName with
      | Some _ => (Ok (mkXformOp pvtAttrName false), s)
      | None => inUndoBlockWithGuard (pivotCreate pvtOpSuffix setXformOpOrderFn) s
      end
  end.

(** UsdTRSUndoableCmdBase: the value to write, the cached op (the default
    constructed op is [None]) and the function that finds or creates it. *)
Record UsdTRSUndoableCmdBase (env : Env) := mkCmdBase {
  cmdNewOpValue : VtValue env;
  cmdOp : option UsdGeomXformOp;
  cmdOpFunc : OpFunc (VtValue env)
}.
Arguments mkCmdBase {env} _ _ _.
Arguments cmdNewOpValue {env} _.
Arguments cmdOp {env} _.
Arguments cmdOpFunc {env} _.

Inductive UndoableCommand (env : Env) :=
| UsdVecOpUndoableCmd (precisionOfV : Precision) (base : UsdTRSUndoableCmdBase env)
| UsdRotateOpUndoableCmd (base : UsdTRSUndoableCmdBase env)
    (cvtRotXYZToAttr : CvtRotXYZToAttrFn env).
Arguments UsdVecOpUndoableCmd {env} _ _.
Arguments UsdRotateOpUndoableCmd {env} _ _.

(** [if (_op)]: the op holds an attribute that the prim now has. *)
Definition opIsDefined {V} (prim : UsdPrim V) (op : option UsdGeomXformOp) : bool :=
  match op with
  | Some o => opHasAttr prim o
  | None => false
  end.

Definition createOpIfNeeded {env : Env}
    (st : UsdTRSUndoableCmdBase env * Session (VtValue env))
    : Result unit * (UsdTRSUndoableCmdBase env * Session (VtValue env)) :=
  let '(cmd, s) := st in
  if opIsDefined (sPrim s) (cmdOp cmd) then (Ok tt, (cmd, s))
  else
    match cmdOpFunc cmd s with
    | (Ok op, s') =>
        (Ok tt, (mkCmdBase (cmdNewOpValue cmd) (Some op) (cmdOpFunc cmd), s'))
    | (Throw e, s') => (Throw e, (cmd, s'))
    end.

(** ** Command factories *)

Definition isAttributeEditAllowed {V} (prim : UsdPrim V) (attrName : string)
    (errMsg : string) : bool * string :=
  let attr := if negb (String.eqb attrName "") then GetAttribute prim attrName else None in
  match attr with
  | Some a =>
      match attrEditError a with
      | Some reason => (false, reason)
      | None => (true, errMsg)
      end
  | None =>
      match xformOpOrderEditError prim with
      | Some reason => (false, reason)
      | None => (true, errMsg)
      end
  end.

Definition displayError {V} (errMsg : string) (s : Session V) : Session V :=
  mkSession (sItemIsUsd s) (sPrim s) (sUndoable s) (sNotified s)
            (sDisplayed s ++ [errMsg])%list.

Definition CommandPtr (env : Env) : Type := option (UndoableCommand env).

(** The op at [ndx] and its name when the stack has one, as rotateCmd and
    scaleCmd start: [if (hasOp(ndx)) { op = getOp(ndx); attrName = op.GetOpName(); }] *)
Definition opAndAttrName {V} (prim : UsdPrim V) (ndx : OpNdx)
    : Result (option UsdGeomXformOp * string) :=
  match hasOp prim ndx with
  | Throw e => Throw e
  | Ok false => Ok (None, "")
  | Ok true =>
      match getOp prim ndx with
      | Throw e => Throw e
      | Ok op => Ok (Some op, GetOpName op)
      end
  end.

Definition rotateCmd (env : Env) (x y z : double env) (s : Session (VtValue env))
    : Result (CommandPtr env) * Session (VtValue env) :=
  match opAndAttrName (sPrim s) NdxRotate with
  | Throw e => (Throw e, s)
  | Ok (op, attrName) =>
      let '(allowed, errMsg) := isAttributeEditAllowed (sPrim s) attrName "" in
      if negb allowed then (Ok None, displayError errMsg s)
      else
        let v := vtVec3f env x y z in
        let cvt :=
          match op with
          | Some o => getCvtRotXYZToAttrFn env (GetOpName o)
          | None => Ok (Some (toXYZ env))
          end in
        match cvt with
        | Throw e => (Throw e, s)
        | Ok cvt =>
            let f := rotateOpFunc attrName getTRSOpSuffix getXformOpOrderFn in
            (Ok (Some (UsdRotateOpUndoableCmd (mkCmdBase v None f) cvt)), s)
        end
  end.

Definition scaleCmd (env : Env) (x y z : double env) (s : Session (VtValue env))
    : Result (CommandPtr env) * Session (VtValue env) :=
  match opAndAttrName (sPrim s) NdxScale with
  | Throw e => (Throw e, s)
  | Ok (op, attrName) =>
      let '(allowed, errMsg) := isAttributeEditAllowed (sPrim s) attrName "" in
      if negb allowed then (Ok None, displayError errMsg s)
      else
        let v := vtVec3f env x y z in
        let f := scaleOpFunc attrName getTRSOpSuffix getXformOpOrderFn in
        (Ok (Some (UsdVecOpUndoableCmd PrecisionFloat (mkCmdBase v None f))), s)
  end.

Definition setVector3dCmd (env : Env) (precisionOfV : Precision) (v : VtValue env)
    (attrName opSuffix : string) (s : Session (VtValue env))
    : Result (CommandPtr env) * Session (VtValue env) :=
  let '(allowed, errMsg) := isAttributeEditAllowed (sPrim s) attrName "" in
  if negb allowed then (Ok None, displayError errMsg s)
  else
    let f := vector3dOpFunc precisionOfV attrName opSuffix getXformOpOrderFn in
    (Ok (Some (UsdVecOpUndoableCmd precisionOfV (mkCmdBase v None f))), s).

Definition pivotCmd (env : Env) (pvtOpSuffix : string) (x y z : double env)
    (s : Session (VtValue env))
    : Result (CommandPtr env) * Session (VtValue env) :=
  let pvtAttrName := GetOpNameOf TypeTranslate pvtOpSuffix in
  let '(allowed, errMsg) := isAttributeEditAllowed (sPrim s) pvtAttrName "" in
  if negb allowed then (Ok None, displayError errMsg s)
  else
    let v := vtVec3f env x y z in
    let f := pivotOpFunc pvtAttrName pvtOpSuffix getXformOpOrderFn in
    (Ok (Some (UsdVecOpUndoableCmd PrecisionFloat (mkCmdBase v None f))), s).

Definition translateCmd (env : Env) (x y z : double env) :=
  setVector3dCmd env PrecisionDouble (vtVec3d env x y z)
    (GetOpNameOf TypeTranslate getTRSOpSuffix) getTRSOpSuffix.

Definition translateRotatePivotCmd (env : Env) (x y z : double env)
    (s : Session (VtValue env))
    : Result (CommandPtr env) * Session (VtValue env) :=
  match getOpSuffix env NdxRotatePivotTranslate with
  | Throw e => (Throw e, s)
  | Ok opSuffix =>
      setVector3dCmd env PrecisionFloat (vtVec3f env x y z)
        (GetOpNameOf TypeTranslate opSuffix) opSuffix s
  end.

Definition translateScalePivotCmd (env : Env) (x y z : double env)
    (s : Session (VtValue env))
    : Result (CommandPtr env) * Session (VtValue env) :=
  match getOpSuffix env NdxScalePivotTranslate with
  | Throw e => (Throw e, s)
  | Ok opSuffix =>
      setVector3dCmd env PrecisionFloat (vtVec3f env x y z)
        (GetOpNameOf TypeTranslate opSuffix) opSuffix s
  end.

Definition rotatePivotCmd (env : Env) (x y z : double env) (s : Session (VtValue env))
    : Result (CommandPtr env) * Session (VtValue env) :=
  match getOpSuffix env NdxRotatePivot with
  | Throw e => (Throw e, s)
  | Ok opSuffix => pivotCmd env opSuffix x y z s
  end.

Definition scalePivotCmd (env : Env) (x y z : double env) (s : Session (VtValue env))
    : Result (CommandPtr env) * Session (VtValue env) :=
  match getOpSuffix env NdxScalePivot with
  | Throw e => (Throw e, s)
  | Ok opSuffix => pivotCmd env opSuffix x y z s
  end.

(** ** Decidable forms of the conditions on an authored list *)

Definition resolvesb (op : UsdGeomXformOp) : bool :=
  match gOpNameToNdx_find (GetOpName op) with Some _ => true | None => false end.

(** The op name resolves to position [k]. *)
Definition opAt (k : OpNdx) (op : UsdGeomXformOp) : bool :=
  match gOpNameToNdx_find (GetOpName op) with
  | Some k' => ndx_eqb k' k
  | None => false
  end.

(** The positions for which getOpSuffix holds a suffix. *)
Definition suffixedPositions : list OpNdx :=
  [ NdxRotatePivotTranslate; NdxRotatePivot; NdxRotateAxis;
    NdxScalePivotTranslate; NdxScalePivot; NdxShear ].

(** The op names that gOpNameToNdx sends to the rotate position. *)
Definition rotateOpNames : list string :=
  [ "xformOp:rotateX"; "xformOp:rotateY"; "xformOp:rotateZ"; "xformOp:rotateXYZ";
    "xformOp:rotateXZY"; "xformOp:rotateYXZ"; "xformOp:rotateYZX"; "xformOp:rotateZXY";
    "xformOp:rotateZYX"; "xformOp:orient" ].

(** The attribute of that name exists and has been written. *)
Definition attrHasValue {V} (prim : UsdPrim V) (attrName : string) : bool :=
  match GetAttribute prim attrName with
  | Some a => match attrValue a with Some _ => true | None => false end
  | None => false
  end.

(** The authored list has an op at position [k] whose attribute has been written. *)
Definition slotHasValue {V} (prim : UsdPrim V) (k : OpNdx) : bool :=
  match lastAt k (GetOrderedXformOps prim) with
  | Some op => opHasValue prim op
  | None => false
  end.


(** The target attribute of rotateCmd and scaleCmd: the name of the op the
    authored list has at the position, or the empty token. *)
Definition slotAttrName {V} (prim : UsdPrim V) (k : OpNdx) : string :=
  match lastAt k (GetOrderedXformOps prim) with
  | Some op => GetOpName op
  | None => ""
  end.

(** An op function that, when it returns, returns an op defined on the prim. *)
Definition returnsDefinedOp {V} (f : OpFunc V) : Prop :=
  forall s op s', f s = (Ok op, s') -> opIsDefined (sPrim s') (Some op) = true.

(** The forward pivot op of a suffix and its inverse. *)
Definition pivotOp (pvtOpSuffix : string) : UsdGeomXformOp :=
  mkXformOp (GetOpNameOf TypeTranslate pvtOpSuffix) false.
Definition pivotInverseOp (pvtOpSuffix : string) : UsdGeomXformOp :=
  mkXformOp (GetOpNameOf TypeTranslate pvtOpSuffix) true.

(** What a reader of the prim must find: the forward pivot never without its inverse. *)
Definition pivotPairOk {V} (pvtOpSuffix : string) (prim : UsdPrim V) : Prop :=
  In (pivotOp pvtOpSuffix) (GetOrderedXformOps prim) ->
  In (pivotInverseOp pvtOpSuffix) (GetOrderedXformOps prim).

(** The inverse keys of gOpNameToNdx: the attribute name and the position. *)
Definition inverseKeys : list (string * OpNdx) :=
  [ ("xformOp:translate:rotatePivot", NdxRotatePivotInverse);
    ("xformOp:translate:scalePivot", NdxScalePivotInverse);
    ("xformOp:translate:pivot", NdxPivotInverse) ].

(** What a factory may do to the session: nothing, unless it returns the
    null command, and then it displays one message and does nothing else. *)
Definition factoryOnlyDisplays {env : Env} (s : Session (VtValue env))
    (out : Result (CommandPtr env) * Session (VtValue env)) : Prop :=
  match fst out with
  | Ok None => exists errMsg, snd out = displayError errMsg s
  | _ => snd out = s
  end.

(** ** Values of a command *)

(** UsdAttribute::Set(v, time) on the attribute of that name, as a
    UsdAttribute::Get at the same time code sees it: the value is stored
    when the attribute exists and the edit target accepts opinions.  The
    store keeps one value for an attribute, so a write at one time code and
    a read at another are outside this definition; so is a value that is
    not of the type of the attribute, which USD refuses. *)
Definition attributeSet {V} (attrName : string) (v : V) (prim : UsdPrim V)
    : bool * UsdPrim V :=
  match GetAttribute prim attrName with
  | Some a =>
      if primAuthorable prim then
        (true, mkPrim (<[attrName := mkAttr (attrPrecision a) (Some v) (attrEditError a)]>
                         (primAttrs prim))
                      (xformOpOrder prim) (resetsXformStack prim)
                      (xformOpOrderEditError prim) (primAuthorable prim))
      else (false, prim)
  | None => (false, prim)
  end.

(** UsdTRSUndoableCmdBase::setValue(v, writeTime), as it changes the prim;
    [vtIsEmpty] is VtValue::IsEmpty. *)
Definition cmdSetValue {env : Env} (vtIsEmpty : VtValue env -> bool)
    (cmd : UsdTRSUndoableCmdBase env) (v : VtValue env) (prim : UsdPrim (VtValue env))
    : UsdPrim (VtValue env) :=
  if negb (opIsDefined prim (cmdOp cmd)) then prim
  else if vtIsEmpty v then prim
  else
    match cmdOp cmd with
    | None => prim
    | Some op =>
        match GetAttribute prim (opAttrName op) with
        | None => prim
        | Some _ => snd (attributeSet (opAttrName op) v prim)
        end
    end.

(** UsdTRSUndoableCmdBase::getValue(readTime), for the time code that
    setValue writes at. *)
Definition cmdGetValue {env : Env} (cmd : UsdTRSUndoableCmdBase env)
    (prim : UsdPrim (VtValue env)) : VtValue env :=
  if negb (opIsDefined prim (cmdOp cmd)) then vtEmpty env
  else
    match cmdOp cmd with
    | None => vtEmpty env
    | Some op =>
        match GetAttribute prim (opAttrName op) with
        | None => vtEmpty env
        | Some a => getValue (Some a)
        end
    end.

(** The vector of type V built from three doubles, by the precision of V. *)
Definition vtVec3 (env : Env) (precisionOfV : Precision)
    : double env -> double env -> double env -> VtValue env :=
  match precisionOfV with
  | PrecisionDouble => vtVec3d env
  | _ => vtVec3f env
  end.

(** UsdVecOpUndoableCmd<V>::set and UsdRotateOpUndoableCmd::set.
    [updateNewValue] is the method of the base class
    UsdSetXformOpUndoableCommandBase, which is not part of the sources. *)
Definition UndoableCommand_set {env : Env}
    (updateNewValue : UsdTRSUndoableCmdBase env -> VtValue env -> UsdTRSUndoableCmdBase env)
    (cmd : UndoableCommand env) (x y z : double env)
    : Result (bool * UndoableCommand env) :=
  match cmd with
  | UsdVecOpUndoableCmd precisionOfV base =>
      let v := vtVec3 env precisionOfV x y z in
      Ok (true, UsdVecOpUndoableCmd precisionOfV (updateNewValue base v))
  | UsdRotateOpUndoableCmd base cvtRotXYZToAttr =>
      match callToAttr cvtRotXYZToAttr x y z with
      | Throw e => Throw e
      | Ok v => Ok (true, UsdRotateOpUndoableCmd (updateNewValue base v) cvtRotXYZToAttr)
      end
  end.

(** ** Sample data *)

Definition exampleTokens : XformStackTokens :=
  mkTokens "rotatePivotTranslate" "rotatePivot" "rotateAxis"
           "scalePivotTranslate" "scalePivot" "shear".

Definition exampleRead (v : option (nat * nat * nat)) : Vector3d nat :=
  match v with
  | Some (x, y, z) => mkVector3d x y z
  | None => mkVector3d 0 0 0
  end.

Definition exampleWrite (x y z : nat) : option (nat * nat * nat) := Some (x, y, z).

(** An environment over naturals: a stored value is a triple or nothing,
    reads and conversions carry the triple over unchanged, and every op is
    taken to match the Maya stack. *)
Definition exampleEnv : Env :=
  mkEnv nat 0 1 (option (nat * nat * nat)) None exampleWrite exampleWrite
        exampleRead exampleRead
        exampleRead exampleRead exampleRead exampleRead exampleRead
        exampleRead exampleRead exampleRead exampleRead
        exampleWrite exampleWrite exampleWrite exampleWrite exampleWrite
        exampleWrite exampleWrite exampleWrite exampleWrite
        (List.map (fun op => mkOpClass (opAttrName op) (opIsInverse op)))
        exampleTokens.

(** A transformable prim with the given attributes and xformOpOrder. *)
Definition primWith {V} (attrs : list (string * UsdAttribute V))
    (order : list UsdGeomXformOp) (orderEditError : option string) : UsdPrim V :=
  mkPrim (list_to_map attrs) order false orderEditError true.

Definition plainAttr {V} (precision : Precision) (v : option V) : UsdAttribute V :=
  mkAttr precision v None.

Definition sessionOn {V} (prim : UsdPrim V) : Session V :=
  mkSession true prim [] [] [].

Definition opRotateX : UsdGeomXformOp := mkXformOp "xformOp:rotateX" false.
Definition opRotateXYZ : UsdGeomXformOp := mkXformOp "xformOp:rotateXYZ" false.
Definition opTranslate : UsdGeomXformOp := mkXformOp "xformOp:translate" false.
Definition opTransform : UsdGeomXformOp := mkXformOp "xformOp:transform" false.

(** A prim authored out of canonical order: rotate, then translate. *)
Definition primRotateTranslate : UsdPrim (VtValue exampleEnv) :=
  primWith [ ("xformOp:rotateXYZ", plainAttr PrecisionFloat None);
             ("xformOp:translate", plainAttr PrecisionDouble None) ]
           [ opRotateXYZ; opTranslate ] None.

(** A prim with two ops in the rotate slot. *)
Definition primTwoRotates : UsdPrim (VtValue exampleEnv) :=
  primWith [ ("xformOp:rotateX", plainAttr PrecisionFloat None);
             ("xformOp:rotateXYZ", plainAttr PrecisionFloat None) ]
           [ opRotateX; opRotateXYZ ] None.

(** The same with a matrix op, whose name the table does not hold. *)
Definition primTwoRotatesAndMatrix : UsdPrim (VtValue exampleEnv) :=
  primWith [ ("xformOp:rotateX", plainAttr PrecisionFloat None);
             ("xformOp:rotateXYZ", plainAttr PrecisionFloat None);
             ("xformOp:transform", plainAttr PrecisionDouble None) ]
           [ opRotateX; opRotateXYZ; opTransform ] None.

Definition opOrient : UsdGeomXformOp := mkXformOp "xformOp:orient" false.

(** A transformable prim with nothing authored. *)
Definition primEmpty : UsdPrim (VtValue exampleEnv) := primWith [] [] None.

(** A prim whose only op is a matrix op. *)
Definition primMatrix : UsdPrim (VtValue exampleEnv) :=
  primWith [ ("xformOp:transform", plainAttr PrecisionDouble None) ] [ opTransform ] None.

(** A prim whose rotation is stored as an orientation, with a value. *)
Definition primOrient : UsdPrim (VtValue exampleEnv) :=
  primWith [ ("xformOp:orient", plainAttr PrecisionFloat (Some (Some (1, 2, 3)))) ]
           [ opOrient ] None.

(** A prim rotated by a rotateXYZ op that has a value. *)
Definition primRotated : UsdPrim (VtValue exampleEnv) :=
  primWith [ ("xformOp:rotateXYZ", plainAttr PrecisionFloat (Some (Some (10, 20, 30)))) ]
           [ opRotateXYZ ] None.

(** A prim that carries a written translate attribute which xformOpOrder
    does not list: its authored list of ops is empty. *)
Definition primStrayTranslate : UsdPrim (VtValue exampleEnv) :=
  primWith [ ("xformOp:translate", plainAttr PrecisionDouble (Some (Some (1, 2, 3)))) ]
           [] None.



(** A prim that carries a rotatePivot attribute which xformOpOrder does not list. *)
Definition primStrayPivot : UsdPrim (VtValue exampleEnv) :=
  primWith [ ("xformOp:translate:rotatePivot", plainAttr PrecisionFloat None) ] [] None.

(** A prim whose xformOpOrder names the inverse rotate pivot although the
    attribute is gone: the inverse cannot be added a second time. *)
Definition primDanglingInverse : UsdPrim (VtValue exampleEnv) :=
  primWith [] [ mkXformOp "xformOp:translate:rotatePivot" true ] None.

(** The command that rotatePivotCmd builds, before its first execution. *)
Definition rotatePivotCmdBase : UsdTRSUndoableCmdBase exampleEnv :=
  mkCmdBase (vtVec3f exampleEnv 1 2 3) None
            (pivotOpFunc "xformOp:translate:rotatePivot" "rotatePivot" getXformOpOrderFn).

(** A command holding the rotate op of [primRotated]. *)
Definition rotatedCmdBase : UsdTRSUndoableCmdBase exampleEnv :=
  mkCmdBase (vtVec3f exampleEnv 1 2 3) (Some opRotateXYZ)
            (rotateOpFunc "xformOp:rotateXYZ" "" getXformOpOrderFn).

Definition exampleIsEmpty (v : VtValue exampleEnv) : bool :=
  match v with Some _ => false | None => true end.

(** A prim with a rotate pivot pair, the pivot holding a value. *)
Definition primPivoted : UsdPrim (VtValue exampleEnv) :=
  primWith [ ("xformOp:translate:rotatePivot",
              plainAttr PrecisionFloat (Some (Some (4, 5, 6)))) ]
           [ pivotOp "rotatePivot"; pivotInverseOp "rotatePivot" ] None.

(** A prim authored in canonical order: translate, rotate, scale. *)
Definition primTranslateRotateScale : UsdPrim (VtValue exampleEnv) :=
  primWith [ ("xformOp:translate", plainAttr PrecisionDouble None);
             ("xformOp:rotateXYZ", plainAttr PrecisionFloat None);
             ("xformOp:scale", plainAttr PrecisionFloat None) ]
           [ opTranslate; opRotateXYZ; mkXformOp "xformOp:scale" false ] None.

(** * Properties *)

(** ** The index type *)

Lemma ndx_eqb_eq (a b : OpNdx) : ndx_eqb a b = true <-> a = b.
Proof.
  split.
  - destruct a, b; simpl; intros H; try reflexivity; discriminate H.
  - intros ->. unfold ndx_eqb. apply Nat.eqb_refl.
Qed.

Lemma ndx_eqb_neq (a b : OpNdx) : ndx_eqb a b = false <-> a <> b.
Proof.
  rewrite <- ndx_eqb_eq. destruct (ndx_eqb a b); split; congruence.
Qed.

Lemma ndxValue_inj (a b : OpNdx) : ndxValue a = ndxValue b -> a = b.
Proof.
  intros H. apply ndx_eqb_eq. unfold ndx_eqb. now apply Nat.eqb_eq.
Qed.

(** ** The ordered map *)

Lemma assign_HdRel (a : nat) (k : OpNdx) (v : UsdGeomXformOp) (m : OpMap.t) :
  a < ndxValue k -> HdRel lt a (keyValues m) ->
  HdRel lt a (keyValues (OpMap.assign k v m)).
Proof.
  intros Hak Hhd. destruct m as [|[k' v'] rest]; simpl.
  - constructor. exact Hak.
  - destruct (ndx_ltb k k'); [constructor; exact Hak|].
    destruct (ndx_eqb k k'); [constructor; exact Hak|].
    simpl. constructor. inversion Hhd; subst. assumption.
Qed.

Lemma assign_sorted (k : OpNdx) (v : UsdGeomXformOp) (m : OpMap.t) :
  Sorted lt (keyValues m) -> Sorted lt (keyValues (OpMap.assign k v m)).
Proof.
  induction m as [|[k' v'] rest IH]; intros Hs; simpl.
  - repeat constructor.
  - inversion Hs as [|? ? Hrest Hhd]; subst.
    unfold ndx_ltb, ndx_eqb.
    destruct (Nat.ltb_spec (ndxValue k) (ndxValue k')) as [Hlt|Hge].
    + constructor; [exact Hs|]. constructor. exact Hlt.
    + destruct (Nat.eqb_spec (ndxValue k) (ndxValue k')) as [Heq|Hne].
      * simpl. constructor; [exact Hrest|]. rewrite Heq. exact Hhd.
      * simpl. constructor; [apply IH; exact Hrest|].
        apply assign_HdRel; [lia | exact Hhd].
Qed.

Lemma assign_Forall (P : OpNdx * UsdGeomXformOp -> Prop) k v (m : OpMap.t) :
  P (k, v) -> Forall P m -> Forall P (OpMap.assign k v m).
Proof.
  intros Hkv. induction m as [|[k' v'] rest IH]; intros Hall; simpl.
  - constructor; [exact Hkv | constructor].
  - inversion Hall; subst.
    destruct (ndx_ltb k k'); [constructor; assumption|].
    destruct (ndx_eqb k k'); constructor; auto.
Qed.

Lemma find_assign (k k0 : OpNdx) (v : UsdGeomXformOp) (m : OpMap.t) :
  OpMap.find k0 (OpMap.assign k v m) = if ndx_eqb k k0 then Some v else OpMap.find k0 m.
Proof.
  unfold OpMap.find. induction m as [|[k' v'] rest IH]; simpl.
  - reflexivity.
  - destruct (ndx_ltb k k') eqn:Hlt; simpl; [reflexivity|].
    destruct (ndx_eqb k k') eqn:Heq; simpl.
    + apply ndx_eqb_eq in Heq. subst k'. destruct (ndx_eqb k k0); reflexivity.
    + rewrite IH. destruct (ndx_eqb k' k0) eqn:Hk'; [|reflexivity].
      apply ndx_eqb_eq in Hk'. subst k0. rewrite Heq. reflexivity.
Qed.

Lemma sorted_In_find (k : OpNdx) (v : UsdGeomXformOp) (m : OpMap.t) :
  Sorted lt (keyValues m) -> In (k, v) m -> OpMap.find k m = Some v.
Proof.
  unfold OpMap.find. induction m as [|[k' v'] rest IH]; intros Hs Hin; simpl.
  - destruct Hin.
  - apply Sorted_StronglySorted in Hs; [|intros ? ? ?; lia].
    inversion Hs as [|? ? Hrest Hall]; subst.
    destruct Hin as [Heq|Hin].
    + inversion Heq; subst. rewrite (proj2 (ndx_eqb_eq k k) eq_refl). reflexivity.
    + destruct (ndx_eqb k' k) eqn:Hk.
      * apply ndx_eqb_eq in Hk. subst k'. exfalso.
        rewrite List.Forall_forall in Hall.
        specialize (Hall (ndxValue k)).
        assert (ndxValue k < ndxValue k); [|lia].
        apply Hall. unfold keyValues. apply in_map_iff. exists (k, v). split; auto.
      * apply IH; [|exact Hin]. apply StronglySorted_Sorted. exact Hrest.
Qed.

Lemma find_In (k : OpNdx) (v : UsdGeomXformOp) (m : OpMap.t) :
  OpMap.find k m = Some v -> In (k, v) m.
Proof.
  unfold OpMap.find. induction m as [|[k' v'] rest IH]; simpl; intros H.
  - discriminate.
  - destruct (ndx_eqb k' k) eqn:Hk.
    + apply ndx_eqb_eq in Hk. inversion H; subst. now left.
    + right. auto.
Qed.

(** ** The fill loop *)

Lemma at_find (name : string) :
  gOpNameToNdx_at name =
  match gOpNameToNdx_find name with Some k => Ok k | None => Throw OutOfRange end.
Proof. reflexivity. Qed.

Lemma fill_ok (ops : list UsdGeomXformOp) :
  Forall resolves ops -> forall m, exists m', fillOrderedOps ops m = Ok m'.
Proof.
  induction 1 as [|op rest Hop _ IH]; intros m; simpl.
  - now exists m.
  - rewrite at_find. unfold resolves in Hop.
    destruct (gOpNameToNdx_find (GetOpName op)) as [k|]; [apply IH | congruence].
Qed.

Lemma fill_throws (ops : list UsdGeomXformOp) (m : OpMap.t) :
  ~ Forall resolves ops -> fillOrderedOps ops m = Throw OutOfRange.
Proof.
  revert m. induction ops as [|op rest IH]; intros m Hnot; simpl.
  - exfalso. apply Hnot. constructor.
  - rewrite at_find.
    destruct (gOpNameToNdx_find (GetOpName op)) as [k|] eqn:Hk; [|reflexivity].
    apply IH. intros Hrest. apply Hnot. constructor; [|exact Hrest].
    unfold resolves. congruence.
Qed.

Lemma fill_sorted (ops : list UsdGeomXformOp) :
  forall m m', fillOrderedOps ops m = Ok m' ->
  Sorted lt (keyValues m) -> Sorted lt (keyValues m').
Proof.
  induction ops as [|op rest IH]; intros m m' Hfill Hs; simpl in Hfill.
  - inversion Hfill; subst. exact Hs.
  - rewrite at_find in Hfill.
    destruct (gOpNameToNdx_find (GetOpName op)) as [k|]; [|discriminate].
    eapply IH; [exact Hfill|]. apply assign_sorted. exact Hs.
Qed.

Lemma fill_resolved (ops : list UsdGeomXformOp) :
  forall m m', fillOrderedOps ops m = Ok m' ->
  Forall entryResolved m -> Forall entryResolved m'.
Proof.
  induction ops as [|op rest IH]; intros m m' Hfill Hall; simpl in Hfill.
  - inversion Hfill; subst. exact Hall.
  - rewrite at_find in Hfill.
    destruct (gOpNameToNdx_find (GetOpName op)) as [k|] eqn:Hk; [|discriminate].
    eapply IH; [exact Hfill|]. apply assign_Forall; [exact Hk | exact Hall].
Qed.

Lemma fill_find (k : OpNdx) (ops : list UsdGeomXformOp) :
  forall m m', fillOrderedOps ops m = Ok m' ->
  OpMap.find k m' =
  match lastAt k ops with Some later => Some later | None => OpMap.find k m end.
Proof.
  induction ops as [|op rest IH]; intros m m' Hfill; simpl in Hfill |- *.
  - inversion Hfill; subst. reflexivity.
  - rewrite at_find in Hfill.
    destruct (gOpNameToNdx_find (GetOpName op)) as [k'|] eqn:Hk; [|discriminate].
    rewrite (IH _ _ Hfill). destruct (lastAt k rest); [reflexivity|].
    rewrite find_assign. destruct (ndx_eqb k' k); reflexivity.
Qed.

Lemma assign_values_from k v (m : OpMap.t) (op : UsdGeomXformOp) :
  In op (OpMap.values (OpMap.assign k v m)) -> op = v \/ In op (OpMap.values m).
Proof.
  unfold OpMap.values. induction m as [|[k' v'] rest IH]; simpl.
  - intros [H|[]]; now left.
  - destruct (ndx_ltb k k'); simpl; [intros [H|H]; auto|].
    destruct (ndx_eqb k k'); simpl.
    + intros [H|H]; auto.
    + intros [H|H]; auto. destruct (IH H); auto.
Qed.

Lemma fill_values_from (ops : list UsdGeomXformOp) :
  forall m m', fillOrderedOps ops m = Ok m' ->
  forall op, In op (OpMap.values m') -> In op ops \/ In op (OpMap.values m).
Proof.
  induction ops as [|op0 rest IH]; intros m m' Hfill op Hin; simpl in Hfill.
  - inversion Hfill; subst. now right.
  - rewrite at_find in Hfill.
    destruct (gOpNameToNdx_find (GetOpName op0)) as [k|]; [|discriminate].
    destruct (IH _ _ Hfill op Hin) as [H|H].
    + left. now right.
    + destruct (assign_values_from _ _ _ _ H) as [->|H']; [left; now left | now right].
Qed.

Lemma positions_of_values (m : OpMap.t) :
  Forall entryResolved m -> canonicalPositions (OpMap.values m) = Some (keyValues m).
Proof.
  unfold OpMap.values.
  induction 1 as [|[k v] rest Hkv _ IH]; simpl; [reflexivity|].
  unfold entryResolved in Hkv. simpl in Hkv. rewrite Hkv, IH. reflexivity.
Qed.

Lemma sorted_strictlyIncreasing (l : list nat) :
  Sorted lt l -> strictlyIncreasing l = true.
Proof.
  induction 1 as [|a l Hs IH Hhd]; [reflexivity|].
  destruct l as [|b l]; [reflexivity|].
  change (Nat.ltb a b && strictlyIncreasing (b :: l) = true).
  inversion Hhd; subst. rewrite IH.
  destruct (Nat.ltb_spec a b); [reflexivity | lia].
Qed.

Lemma lt_transitive : Relations_1.Transitive lt.
Proof. intros a b c; lia. Qed.

(** ** The store *)

Lemma ordered_ops_have_attr {V} (prim : UsdPrim V) (op : UsdGeomXformOp) :
  In op (GetOrderedXformOps prim) -> opHasAttr prim op = true.
Proof.
  unfold GetOrderedXformOps. intros H. apply List.filter_In in H. tauto.
Qed.

Lemma filter_all {A} (f : A -> bool) (l : list A) :
  (forall a, In a l -> f a = true) -> List.filter f l = l.
Proof.
  induction l as [|a l IH]; intros H; simpl; [reflexivity|].
  rewrite (H a (or_introl eq_refl)). f_equal. apply IH. intros; apply H; now right.
Qed.

Lemma setXformOpOrder_computed {V} (xformable : UsdPrim V) :
  setXformOpOrder xformable =
  match computedOrder xformable with
  | Throw e => (Throw e, xformable)
  | Ok newOrder =>
      (Ok (fst (SetXformOpOrder newOrder (resetsXformStack xformable) xformable)),
       snd (SetXformOpOrder newOrder (resetsXformStack xformable) xformable))
  end.
Proof.
  unfold setXformOpOrder, computedOrder.
  destruct (fillOrderedOps (GetOrderedXformOps xformable) OpMap.empty); [|reflexivity].
  destruct (SetXformOpOrder _ _ _); reflexivity.
Qed.

Lemma committed_order_read_back {V} (xformable : UsdPrim V) (newOrder : list UsdGeomXformOp) :
  computedOrder xformable = Ok newOrder ->
  primAuthorable xformable = true ->
  setXformOpOrder xformable =
    (Ok true, snd (SetXformOpOrder newOrder (resetsXformStack xformable) xformable))
  /\ GetOrderedXformOps (snd (setXformOpOrder xformable)) = newOrder.
Proof.
  intros Hc Hauth. rewrite setXformOpOrder_computed, Hc.
  unfold SetXformOpOrder. rewrite Hauth. simpl. split; [reflexivity|].
  unfold GetOrderedXformOps at 1. simpl.
  apply filter_all. intros op Hin.
  unfold computedOrder in Hc.
  destruct (fillOrderedOps (GetOrderedXformOps xformable) OpMap.empty) as [m|] eqn:Hfill;
    [|discriminate].
  inversion Hc; subst newOrder.
  destruct (fill_values_from _ _ _ Hfill op Hin) as [H|[]].
  apply ordered_ops_have_attr in H. exact H.
Qed.

(** C1. When every op name of the authored list resolves in gOpNameToNdx,
    setXformOpOrder computes an order whose canonical positions are strictly
    increasing and hands exactly that order to SetXformOpOrder; when the
    store takes the write, it is the order read back from the prim. *)
Theorem setXformOpOrder_canonical_order {V} (xformable : UsdPrim V) :
  Forall resolves (GetOrderedXformOps xformable) ->
  exists newOrder positions,
    computedOrder xformable = Ok newOrder
    /\ setXformOpOrder xformable =
       (Ok (fst (SetXformOpOrder newOrder (resetsXformStack xformable) xformable)),
        snd (SetXformOpOrder newOrder (resetsXformStack xformable) xformable))
    /\ canonicalPositions newOrder = Some positions
    /\ StronglySorted lt positions
    /\ strictlyIncreasing positions = true
    /\ (primAuthorable xformable = true ->
        fst (setXformOpOrder xformable) = Ok true
        /\ GetOrderedXformOps (snd (setXformOpOrder xformable)) = newOrder).
Proof.
  intros Hres.
  destruct (fill_ok _ Hres OpMap.empty) as [m Hfill].
  assert (Hs : Sorted lt (keyValues m)).
  { eapply fill_sorted; [exact Hfill | constructor]. }
  assert (Hr : Forall entryResolved m).
  { eapply fill_resolved; [exact Hfill | constructor]. }
  assert (Hc : computedOrder xformable = Ok (OpMap.values m)).
  { unfold computedOrder. rewrite Hfill. reflexivity. }
  exists (OpMap.values m), (keyValues m).
  split; [exact Hc|].
  split; [rewrite setXformOpOrder_computed, Hc; reflexivity|].
  split; [apply positions_of_values; exact Hr|].
  split; [apply Sorted_StronglySorted; [exact lt_transitive | exact Hs]|].
  split; [apply sorted_strictlyIncreasing; exact Hs|].
  intros Hauth.
  destruct (committed_order_read_back _ _ Hc Hauth) as [H1 H2].
  rewrite H1 at 1. split; [reflexivity | exact H2].
Qed.

Lemma resolvesb_Forall (ops : list UsdGeomXformOp) :
  forallb resolvesb ops = true -> Forall resolves ops.
Proof.
  induction ops as [|op rest IH]; simpl; intros H; constructor.
  - apply andb_prop in H. destruct H as [H _]. unfold resolvesb in H. unfold resolves.
    destruct (gOpNameToNdx_find (GetOpName op)); [discriminate | discriminate H].
  - apply IH. apply andb_prop in H. tauto.
Qed.

Lemma setXformOpOrder_canonical_order_witness :
  Forall resolves (GetOrderedXformOps primRotateTranslate)
  /\ exists newOrder positions,
    computedOrder primRotateTranslate = Ok newOrder
    /\ setXformOpOrder primRotateTranslate =
       (Ok (fst (SetXformOpOrder newOrder (resetsXformStack primRotateTranslate)
                                 primRotateTranslate)),
        snd (SetXformOpOrder newOrder (resetsXformStack primRotateTranslate)
                             primRotateTranslate))
    /\ canonicalPositions newOrder = Some positions
    /\ StronglySorted lt positions
    /\ strictlyIncreasing positions = true
    /\ (primAuthorable primRotateTranslate = true ->
        fst (setXformOpOrder primRotateTranslate) = Ok true
        /\ GetOrderedXformOps (snd (setXformOpOrder primRotateTranslate)) = newOrder).
Proof.
  assert (H : Forall resolves (GetOrderedXformOps primRotateTranslate)).
  { apply resolvesb_Forall. vm_compute. reflexivity. }
  split; [exact H|].
  apply (setXformOpOrder_canonical_order primRotateTranslate H).
Defined.

Example reorder_rotate_translate :
  computedOrder primRotateTranslate = Ok [opTranslate; opRotateXYZ].
Proof. vm_compute. reflexivity. Qed.

(** ** Ops that share a position *)

Lemma lastAt_app (k : OpNdx) (l1 l2 : list UsdGeomXformOp) :
  lastAt k (l1 ++ l2)%list =
  match lastAt k l2 with Some later => Some later | None => lastAt k l1 end.
Proof.
  induction l1 as [|op rest IH]; simpl.
  - destruct (lastAt k l2); reflexivity.
  - rewrite IH. destruct (lastAt k l2); reflexivity.
Qed.

Lemma lastAt_some_of_member (k : OpNdx) (op : UsdGeomXformOp) (ops : list UsdGeomXformOp) :
  In op ops -> gOpNameToNdx_find (GetOpName op) = Some k ->
  exists last, lastAt k ops = Some last.
Proof.
  induction ops as [|op0 rest IH]; intros Hin Hk; [destruct Hin|].
  simpl. destruct Hin as [->|Hin].
  - destruct (lastAt k rest); [eauto|].
    rewrite Hk, (proj2 (ndx_eqb_eq k k) eq_refl). eauto.
  - destruct (IH Hin Hk) as [last ->]. eauto.
Qed.

(** [lastAt] is the op of the list resolving to [k] after which no op does. *)
Lemma lastAt_spec (k : OpNdx) (ops : list UsdGeomXformOp) (last : UsdGeomXformOp) :
  lastAt k ops = Some last ->
  exists pre post, ops = (pre ++ last :: post)%list
    /\ gOpNameToNdx_find (GetOpName last) = Some k
    /\ Forall (fun op => opAt k op = false) post.
Proof.
  induction ops as [|op rest IH]; simpl; intros H; [discriminate|].
  destruct (lastAt k rest) as [later|] eqn:Hrest.
  - inversion H; subst later. destruct (IH eq_refl) as (pre & post & -> & Hk & Hpost).
    exists (op :: pre), post. auto.
  - destruct (gOpNameToNdx_find (GetOpName op)) as [k'|] eqn:Hop; [|discriminate].
    destruct (ndx_eqb k' k) eqn:Hk; [|discriminate].
    inversion H; subst op. apply ndx_eqb_eq in Hk. subst k'.
    exists [], rest. split; [reflexivity|]. split; [exact Hop|].
    clear -Hrest. induction rest as [|o r IH]; [constructor|].
    simpl in Hrest. destruct (lastAt k r); [discriminate|].
    constructor; [|apply IH; reflexivity].
    unfold opAt. destruct (gOpNameToNdx_find (GetOpName o)); [|reflexivity].
    destruct (ndx_eqb o0 k); [discriminate | reflexivity].
Qed.

Lemma assign_length_le k v (m : OpMap.t) :
  length (OpMap.assign k v m) <= S (length m).
Proof.
  induction m as [|[k' v'] rest IH]; simpl; [lia|].
  destruct (ndx_ltb k k'); simpl; [lia|].
  destruct (ndx_eqb k k'); simpl; lia.
Qed.

Lemma sorted_head_least (k k' : OpNdx) (v v' : UsdGeomXformOp) (rest : OpMap.t) :
  Sorted lt (keyValues ((k', v') :: rest)) -> In (k, v) rest -> ndxValue k' < ndxValue k.
Proof.
  intros Hs Hin. apply Sorted_StronglySorted in Hs; [|exact lt_transitive].
  inversion Hs as [|? ? _ Hall]; subst. rewrite List.Forall_forall in Hall.
  apply Hall. unfold keyValues. apply in_map_iff. exists (k, v). auto.
Qed.

Lemma assign_length_present k v (m : OpMap.t) :
  Sorted lt (keyValues m) -> OpMap.find k m <> None ->
  length (OpMap.assign k v m) = length m.
Proof.
  induction m as [|[k' v'] rest IH]; simpl; intros Hs H.
  - exfalso. apply H. reflexivity.
  - unfold ndx_ltb, ndx_eqb.
    destruct (Nat.ltb_spec (ndxValue k) (ndxValue k')) as [Hlt|Hge].
    + exfalso. destruct (OpMap.find k ((k', v') :: rest)) as [x|] eqn:Hf; [|congruence].
      apply find_In in Hf. destruct Hf as [Heq|Hin].
      * inversion Heq; subst. lia.
      * pose proof (sorted_head_least k k' x v' rest Hs Hin). lia.
    + destruct (Nat.eqb_spec (ndxValue k) (ndxValue k')) as [Heq|Hne]; simpl; [reflexivity|].
      f_equal. apply IH.
      * inversion Hs; assumption.
      * unfold OpMap.find in *. simpl in H.
        destruct (ndx_eqb k' k) eqn:Hk; [|exact H].
        apply ndx_eqb_eq in Hk. subst. congruence.
Qed.

Lemma fill_length_le (ops : list UsdGeomXformOp) :
  forall m m', fillOrderedOps ops m = Ok m' -> length m' <= length m + length ops.
Proof.
  induction ops as [|op rest IH]; intros m m' Hfill; simpl in Hfill.
  - inversion Hfill; subst. lia.
  - rewrite at_find in Hfill.
    destruct (gOpNameToNdx_find (GetOpName op)) as [k|]; [|discriminate].
    apply IH in Hfill. pose proof (assign_length_le k op m). simpl. lia.
Qed.

Lemma fill_length_lt_present (ops : list UsdGeomXformOp) :
  forall m m', Sorted lt (keyValues m) -> fillOrderedOps ops m = Ok m' ->
  (exists op k, In op ops /\ gOpNameToNdx_find (GetOpName op) = Some k
                /\ OpMap.find k m <> None) ->
  length m' < length m + length ops.
Proof.
  induction ops as [|op0 rest IH]; intros m m' Hs Hfill (op & k & Hin & Hk & Hpres).
  - destruct Hin.
  - simpl in Hfill. rewrite at_find in Hfill.
    destruct (gOpNameToNdx_find (GetOpName op0)) as [k0|] eqn:Hk0; [|discriminate].
    destruct Hin as [->|Hin].
    + assert (k0 = k) by congruence. subst k0.
      apply fill_length_le in Hfill.
      rewrite (assign_length_present k op m Hs Hpres) in Hfill. simpl. lia.
    + pose proof (assign_length_le k0 op0 m).
      assert (length m' < length (OpMap.assign k0 op0 m) + length rest); [|simpl; lia].
      apply IH; [apply assign_sorted; exact Hs | exact Hfill |].
      exists op, k. split; [exact Hin|]. split; [exact Hk|].
      rewrite find_assign. destruct (ndx_eqb k0 k); [discriminate | exact Hpres].
Qed.

Lemma fill_length_lt_duplicate (k : OpNdx) (a b : UsdGeomXformOp)
    (pre mid post : list UsdGeomXformOp) :
  gOpNameToNdx_find (GetOpName a) = Some k ->
  gOpNameToNdx_find (GetOpName b) = Some k ->
  forall m m', Sorted lt (keyValues m) ->
  fillOrderedOps (pre ++ a :: mid ++ b :: post)%list m = Ok m' ->
  length m' < length m + length (pre ++ a :: mid ++ b :: post)%list.
Proof.
  intros Ha Hb. induction pre as [|p pre IH]; intros m m' Hs Hfill.
  - simpl in Hfill |- *. rewrite at_find, Ha in Hfill.
    pose proof (assign_length_le k a m).
    assert (length m' < length (OpMap.assign k a m) + length (mid ++ b :: post)%list);
      [|lia].
    apply fill_length_lt_present; [apply assign_sorted; exact Hs | exact Hfill |].
    exists b, k. split; [apply in_or_app; right; now left|]. split; [exact Hb|].
    rewrite find_assign, (proj2 (ndx_eqb_eq k k) eq_refl). discriminate.
  - simpl in Hfill |- *. rewrite at_find in Hfill.
    destruct (gOpNameToNdx_find (GetOpName p)) as [kp|]; [|discriminate].
    pose proof (assign_length_le kp p m).
    apply IH in Hfill; [lia | apply assign_sorted; exact Hs].
Qed.

Lemma filter_opAt_other_keys (k : OpNdx) (m : OpMap.t) :
  Forall entryResolved m -> (forall e, In e m -> fst e <> k) ->
  List.filter (opAt k) (OpMap.values m) = [].
Proof.
  unfold OpMap.values.
  induction 1 as [|[k2 v2] rest Hkv _ IH]; intros Hne; simpl; [reflexivity|].
  unfold entryResolved in Hkv. simpl in Hkv. unfold opAt at 1. rewrite Hkv.
  destruct (ndx_eqb k2 k) eqn:Hk2.
  - apply ndx_eqb_eq in Hk2. exfalso. apply (Hne (k2, v2)); [now left | exact Hk2].
  - apply IH. intros e He. apply Hne. now right.
Qed.

Lemma sorted_filter_opAt (k : OpNdx) (v : UsdGeomXformOp) (m : OpMap.t) :
  Sorted lt (keyValues m) -> Forall entryResolved m -> OpMap.find k m = Some v ->
  List.filter (opAt k) (OpMap.values m) = [v].
Proof.
  induction m as [|[k' v'] rest IH]; intros Hs Hr Hf; [discriminate|].
  inversion Hr as [|? ? Hkv Hrest]; subst. unfold entryResolved in Hkv. simpl in Hkv.
  unfold OpMap.find in Hf. simpl in Hf.
  change (OpMap.values ((k', v') :: rest)) with (v' :: OpMap.values rest).
  simpl. unfold opAt at 1. rewrite Hkv.
  destruct (ndx_eqb k' k) eqn:Hk.
  - inversion Hf; subst v'. f_equal. apply ndx_eqb_eq in Hk. subst k'.
    apply filter_opAt_other_keys; [exact Hrest|].
    intros [k2 v2] Hin Heq. simpl in Heq. subst k2.
    pose proof (sorted_head_least k k v2 v rest Hs Hin). lia.
  - apply IH; [inversion Hs; assumption | exact Hrest | exact Hf].
Qed.

Lemma getOrderedOps_lastAt {V} (prim : UsdPrim V) (orderedOps : OpMap.t) :
  getOrderedOps prim = Ok orderedOps ->
  forall k, OpMap.find k orderedOps = lastAt k (GetOrderedXformOps prim).
Proof.
  intros Hfill k. unfold getOrderedOps in Hfill.
  rewrite (fill_find k _ _ _ Hfill). destruct (lastAt k _); reflexivity.
Qed.

(** C10, amended.  When every op name of the authored list resolves and two
    ops [a] (earlier) and [b] (later) resolve to the same position [k], then
    getOrderedOps, hasOp and getOp observe at [k] the op standing last among
    those resolving to [k], and the order that setXformOpOrder computes and
    hands to the store keeps that op alone at [k], holds only ops that are
    last at their position, and is shorter than the authored list. *)
Theorem duplicate_position_keeps_last {V} (prim : UsdPrim V) (k : OpNdx)
    (a b : UsdGeomXformOp) (pre mid post : list UsdGeomXformOp) :
  Forall resolves (GetOrderedXformOps prim) ->
  GetOrderedXformOps prim = (pre ++ a :: mid ++ b :: post)%list ->
  gOpNameToNdx_find (GetOpName a) = Some k ->
  gOpNameToNdx_find (GetOpName b) = Some k ->
  exists orderedOps last newOrder,
    lastAt k (b :: post) = Some last
    /\ getOrderedOps prim = Ok orderedOps
    /\ (forall k', OpMap.find k' orderedOps = lastAt k' (GetOrderedXformOps prim))
    /\ hasOp prim k = Ok true
    /\ getOp prim k = Ok last
    /\ computedOrder prim = Ok newOrder
    /\ List.filter (opAt k) newOrder = [last]
    /\ (forall op, In op newOrder ->
          exists k', lastAt k' (GetOrderedXformOps prim) = Some op)
    /\ length newOrder < length (GetOrderedXformOps prim)
    /\ (primAuthorable prim = true ->
        fst (setXformOpOrder prim) = Ok true
        /\ GetOrderedXformOps (snd (setXformOpOrder prim)) = newOrder).
Proof.
  intros Hres Hops Ha Hb.
  destruct (fill_ok _ Hres OpMap.empty) as [m Hfill].
  assert (Hs : Sorted lt (keyValues m)).
  { eapply fill_sorted; [exact Hfill | constructor]. }
  assert (Hr : Forall entryResolved m).
  { eapply fill_resolved; [exact Hfill | constructor]. }
  assert (Hget : getOrderedOps prim = Ok m) by exact Hfill.
  pose proof (getOrderedOps_lastAt prim m Hget) as Hfind.
  destruct (lastAt_some_of_member k b (b :: post) (or_introl eq_refl) Hb) as [last Hlast].
  assert (Hlast' : lastAt k (GetOrderedXformOps prim) = Some last).
  { rewrite Hops.
    change (pre ++ a :: mid ++ b :: post)%list with (pre ++ (a :: mid) ++ b :: post)%list.
    rewrite !lastAt_app, Hlast. reflexivity. }
  assert (Hc : computedOrder prim = Ok (OpMap.values m)).
  { unfold computedOrder. rewrite Hfill. reflexivity. }
  exists m, last, (OpMap.values m).
  split; [exact Hlast|]. split; [exact Hget|]. split; [exact Hfind|].
  split; [unfold hasOp; rewrite Hget, Hfind, Hlast'; reflexivity|].
  split.
  { unfold getOp. rewrite Hget. unfold OpMap.at_, table_at.
    change (table_find ndx_eqb k m) with (OpMap.find k m).
    rewrite Hfind, Hlast'. reflexivity. }
  split; [exact Hc|].
  split; [apply sorted_filter_opAt; [exact Hs | exact Hr | rewrite Hfind; exact Hlast']|].
  split.
  { intros op Hin. unfold OpMap.values in Hin. apply in_map_iff in Hin.
    destruct Hin as ([k' v] & Hv & Hin). simpl in Hv. subst v.
    exists k'. rewrite <- Hfind. apply sorted_In_find; assumption. }
  split.
  { unfold OpMap.values. rewrite length_map.
    rewrite Hops in Hfill |- *.
    apply (fill_length_lt_duplicate k a b pre mid post Ha Hb OpMap.empty m);
      [constructor | exact Hfill]. }
  intros Hauth.
  destruct (committed_order_read_back _ _ Hc Hauth) as [H1 H2].
  rewrite H1 at 1. split; [reflexivity | exact H2].
Qed.

Lemma duplicate_position_keeps_last_witness :
  Forall resolves (GetOrderedXformOps primTwoRotates)
  /\ GetOrderedXformOps primTwoRotates = ([] ++ opRotateX :: [] ++ opRotateXYZ :: [])%list
  /\ gOpNameToNdx_find (GetOpName opRotateX) = Some NdxRotate
  /\ gOpNameToNdx_find (GetOpName opRotateXYZ) = Some NdxRotate
  /\ exists orderedOps last newOrder,
    lastAt NdxRotate [opRotateXYZ] = Some last
    /\ getOrderedOps primTwoRotates = Ok orderedOps
    /\ (forall k', OpMap.find k' orderedOps = lastAt k' (GetOrderedXformOps primTwoRotates))
    /\ hasOp primTwoRotates NdxRotate = Ok true
    /\ getOp primTwoRotates NdxRotate = Ok last
    /\ computedOrder primTwoRotates = Ok newOrder
    /\ List.filter (opAt NdxRotate) newOrder = [last]
    /\ (forall op, In op newOrder ->
          exists k', lastAt k' (GetOrderedXformOps primTwoRotates) = Some op)
    /\ length newOrder < length (GetOrderedXformOps primTwoRotates)
    /\ (primAuthorable primTwoRotates = true ->
        fst (setXformOpOrder primTwoRotates) = Ok true
        /\ GetOrderedXformOps (snd (setXformOpOrder primTwoRotates)) = newOrder).
Proof.
  assert (H1 : Forall resolves (GetOrderedXformOps primTwoRotates)).
  { apply resolvesb_Forall. vm_compute. reflexivity. }
  assert (H2 : GetOrderedXformOps primTwoRotates
               = ([] ++ opRotateX :: [] ++ opRotateXYZ :: [])%list).
  { vm_compute. reflexivity. }
  assert (H3 : gOpNameToNdx_find (GetOpName opRotateX) = Some NdxRotate).
  { vm_compute. reflexivity. }
  assert (H4 : gOpNameToNdx_find (GetOpName opRotateXYZ) = Some NdxRotate).
  { vm_compute. reflexivity. }
  split; [exact H1|]. split; [exact H2|]. split; [exact H3|]. split; [exact H4|].
  exact (duplicate_position_keeps_last primTwoRotates NdxRotate opRotateX opRotateXYZ
           [] [] [] H1 H2 H3 H4).
Defined.

(** C10 as stated fails on a list that also holds an op the table does not
    know: with rotateX, rotateXYZ and a matrix op, the four functions throw
    std::out_of_range; nothing is observed and no order is written. *)
Lemma duplicates_beside_unresolved_op_throw :
  GetOrderedXformOps primTwoRotatesAndMatrix = [opRotateX; opRotateXYZ; opTransform]
  /\ gOpNameToNdx_find (GetOpName opRotateX) = Some NdxRotate
  /\ gOpNameToNdx_find (GetOpName opRotateXYZ) = Some NdxRotate
  /\ getOrderedOps primTwoRotatesAndMatrix = Throw OutOfRange
  /\ hasOp primTwoRotatesAndMatrix NdxRotate = Throw OutOfRange
  /\ getOp primTwoRotatesAndMatrix NdxRotate = Throw OutOfRange
  /\ setXformOpOrder primTwoRotatesAndMatrix = (Throw OutOfRange, primTwoRotatesAndMatrix).
Proof. vm_compute. repeat split; reflexivity. Qed.

Example two_rotates_reordered :
  computedOrder primTwoRotates = Ok [opRotateXYZ].
Proof. vm_compute. reflexivity. Qed.

(** ** The selection gate *)

(** C3. A transformable entity with no authored op is a match: the gate
    returns a Maya transform stack on it and does not call the next handler. *)
Theorem empty_stack_matches (env : Env) {T} (prim : UsdPrim (VtValue env))
    (nextTransform3dFn : unit -> T) :
  GetOrderedXformOps prim = [] ->
  createTransform3d env (UsdSceneItem (Xformable prim)) nextTransform3dFn
  = Ok (MayaXformStackFor prim).
Proof.
  intros Hempty. unfold createTransform3d. rewrite Hempty. reflexivity.
Qed.

Lemma empty_stack_matches_witness :
  GetOrderedXformOps primEmpty = []
  /\ createTransform3d exampleEnv (UsdSceneItem (Xformable primEmpty)) (fun _ => 7)
     = Ok (MayaXformStackFor primEmpty).
Proof.
  split; [reflexivity|].
  apply (empty_stack_matches exampleEnv primEmpty (fun _ => 7)). reflexivity.
Defined.

Lemma hasValidSuffix_false (xformOps : list UsdGeomXformOp) (op : UsdGeomXformOp) :
  In op xformOps -> gOpNameToNdx_find (GetName op) = None ->
  hasValidSuffix xformOps = false.
Proof.
  induction xformOps as [|o rest IH]; intros Hin Hnone; [destruct Hin|].
  simpl. destruct Hin as [->|Hin].
  - rewrite Hnone. reflexivity.
  - destruct (gOpNameToNdx_find (GetName o)); [apply IH; assumption | reflexivity].
Qed.

(** C4. When the authored list of a transformable entity holds an op whose
    name, as hasValidSuffix reads it with GetName, is not a key of
    gOpNameToNdx, the gate returns what the next handler returns, whatever
    the other ops and whatever MatchingSubstack would say. *)
Theorem unresolved_name_delegates (env : Env) {T} (prim : UsdPrim (VtValue env))
    (nextTransform3dFn : unit -> T) (op : UsdGeomXformOp) :
  In op (GetOrderedXformOps prim) ->
  gOpNameToNdx_find (GetName op) = None ->
  createTransform3d env (UsdSceneItem (Xformable prim)) nextTransform3dFn
  = Ok (FromNextHandler (nextTransform3dFn tt)).
Proof.
  intros Hin Hnone. unfold createTransform3d.
  destruct (GetOrderedXformOps prim) as [|o rest] eqn:Hops; [destruct Hin|].
  simpl isEmpty. cbv iota.
  rewrite (hasValidSuffix_false _ _ Hin Hnone). reflexivity.
Qed.

Lemma unresolved_name_delegates_witness :
  In opTransform (GetOrderedXformOps primMatrix)
  /\ gOpNameToNdx_find (GetName opTransform) = None
  /\ createTransform3d exampleEnv (UsdSceneItem (Xformable primMatrix)) (fun _ => 7)
     = Ok (FromNextHandler 7).
Proof.
  assert (H1 : In opTransform (GetOrderedXformOps primMatrix)).
  { vm_compute. left. reflexivity. }
  assert (H2 : gOpNameToNdx_find (GetName opTransform) = None).
  { vm_compute. reflexivity. }
  split; [exact H1|]. split; [exact H2|].
  exact (unresolved_name_delegates exampleEnv primMatrix (fun _ => 7) opTransform H1 H2).
Defined.

(** hasValidSuffix looks the attribute name up: the inverse of a translate
    op passes it, though its op name is not a key of the table. *)
Example hasValidSuffix_reads_attribute_name :
  hasValidSuffix [mkXformOp "xformOp:translate" true] = true
  /\ gOpNameToNdx_find (GetOpName (mkXformOp "xformOp:translate" true)) = None.
Proof. split; reflexivity. Qed.

(** For an op that is not an inverse, the two names are one. *)
Lemma GetOpName_forward (op : UsdGeomXformOp) :
  opIsInverse op = false -> GetOpName op = GetName op.
Proof. unfold GetOpName, GetName. intros ->. reflexivity. Qed.

(** ** The suffix table *)

(** C9, amended.  getOpSuffix returns a suffix at six positions and throws
    std::out_of_range at the other seven. *)
Theorem getOpSuffix_partial (env : Env) (ndx : OpNdx) :
  getOpSuffix env ndx =
  match ndx with
  | NdxRotatePivotTranslate => Ok (tkRotatePivotTranslate (UsdMayaXformStackTokens env))
  | NdxRotatePivot => Ok (tkRotatePivot (UsdMayaXformStackTokens env))
  | NdxRotateAxis => Ok (tkRotateAxis (UsdMayaXformStackTokens env))
  | NdxScalePivotTranslate => Ok (tkScalePivotTranslate (UsdMayaXformStackTokens env))
  | NdxScalePivot => Ok (tkScalePivot (UsdMayaXformStackTokens env))
  | NdxShear => Ok (tkShear (UsdMayaXformStackTokens env))
  | NdxTranslate | NdxPivot | NdxRotate | NdxRotatePivotInverse
  | NdxScale | NdxScalePivotInverse | NdxPivotInverse => Throw OutOfRange
  end.
Proof. destruct ndx; reflexivity. Qed.

(** C9 as stated fails: there is no suffix for the translate position. *)
Lemma getOpSuffix_not_total :
  getOpSuffix exampleEnv NdxTranslate = Throw OutOfRange
  /\ ~ (forall ndx, exists opSuffix, getOpSuffix exampleEnv ndx = Ok opSuffix).
Proof.
  split; [reflexivity|].
  intros H. destruct (H NdxTranslate) as [sfx Hsfx]. discriminate Hsfx.
Qed.

Example getOpSuffix_domain (env : Env) (ndx : OpNdx) :
  returns (getOpSuffix env ndx) = existsb (ndx_eqb ndx) suffixedPositions.
Proof. destruct ndx; reflexivity. Qed.

(** ** Reading through the ordered ops *)

Lemma getOrderedOps_ok {V} (prim : UsdPrim V) :
  Forall resolves (GetOrderedXformOps prim) ->
  exists orderedOps, getOrderedOps prim = Ok orderedOps
    /\ forall k, OpMap.find k orderedOps = lastAt k (GetOrderedXformOps prim).
Proof.
  intros Hres. destruct (fill_ok _ Hres OpMap.empty) as [m Hfill].
  exists m. split; [exact Hfill|]. apply getOrderedOps_lastAt. exact Hfill.
Qed.

Lemma hasOp_lastAt {V} (prim : UsdPrim V) (k : OpNdx) :
  Forall resolves (GetOrderedXformOps prim) ->
  hasOp prim k =
  Ok (match lastAt k (GetOrderedXformOps prim) with Some _ => true | None => false end).
Proof.
  intros Hres. destruct (getOrderedOps_ok prim Hres) as (m & Hget & Hfind).
  unfold hasOp. rewrite Hget, Hfind. reflexivity.
Qed.

Lemma getOp_lastAt {V} (prim : UsdPrim V) (k : OpNdx) :
  Forall resolves (GetOrderedXformOps prim) ->
  getOp prim k =
  match lastAt k (GetOrderedXformOps prim) with
  | Some op => Ok op
  | None => Throw OutOfRange
  end.
Proof.
  intros Hres. destruct (getOrderedOps_ok prim Hres) as (m & Hget & Hfind).
  unfold getOp. rewrite Hget. unfold OpMap.at_, table_at.
  change (table_find ndx_eqb k m) with (OpMap.find k m). rewrite Hfind. reflexivity.
Qed.

Lemma hasOp_throws {V} (prim : UsdPrim V) (k : OpNdx) :
  ~ Forall resolves (GetOrderedXformOps prim) -> hasOp prim k = Throw OutOfRange.
Proof.
  intros Hnot. unfold hasOp, getOrderedOps. rewrite (fill_throws _ _ Hnot). reflexivity.
Qed.

Ltac table_cases H :=
  repeat match type of H with
  | context [String.eqb ?key ?name] =>
      destruct (String.eqb_spec key name); [subst name|]
  end.

Lemma rotate_position_names (name : string) :
  gOpNameToNdx_find name = Some NdxRotate -> In name rotateOpNames.
Proof.
  intros H. unfold gOpNameToNdx_find, gOpNameToNdx in H. cbn [table_find] in H.
  table_cases H; try discriminate H; unfold rotateOpNames; simpl; tauto.
Qed.

Lemma cvtFrom_defined (env : Env) (name : string) :
  In name rotateOpNames -> exists cvt, getCvtRotXYZFromAttrFn env name = Ok cvt.
Proof.
  unfold rotateOpNames. simpl. intros H.
  repeat (destruct H as [<-|H]; [eexists; reflexivity|]). destruct H.
Qed.

Lemma cvtFrom_by_name (env : Env) (name : string) :
  In name rotateOpNames ->
  (name = "xformOp:orient" /\ getCvtRotXYZFromAttrFn env name = Ok None)
  \/ (name <> "xformOp:orient"
      /\ exists f, getCvtRotXYZFromAttrFn env name = Ok (Some f)).
Proof.
  unfold rotateOpNames. simpl. intros H.
  repeat (destruct H as [<-|H];
          [first [left; split; reflexivity
                 | right; split; [discriminate | eexists; reflexivity]]|]).
  destruct H.
Qed.

Lemma cvtTo_defined (env : Env) (name : string) :
  In name rotateOpNames -> exists cvt, getCvtRotXYZToAttrFn env name = Ok cvt.
Proof.
  unfold rotateOpNames. simpl. intros H.
  repeat (destruct H as [<-|H]; [eexists; reflexivity|]). destruct H.
Qed.

Lemma lastAt_resolves (k : OpNdx) (ops : list UsdGeomXformOp) (op : UsdGeomXformOp) :
  lastAt k ops = Some op -> gOpNameToNdx_find (GetOpName op) = Some k.
Proof.
  intros H. destruct (lastAt_spec _ _ _ H) as (_ & _ & _ & Hk & _). exact Hk.
Qed.

Lemma rotation_unfold (env : Env) (prim : UsdPrim (VtValue env)) :
  Forall resolves (GetOrderedXformOps prim) ->
  rotation env prim =
  match lastAt NdxRotate (GetOrderedXformOps prim) with
  | None => Ok (zeroVector env)
  | Some r =>
      if negb (opHasValue prim r) then Ok (zeroVector env)
      else
        match getCvtRotXYZFromAttrFn env (GetOpName r) with
        | Throw e => Throw e
        | Ok cvt => callFromAttr cvt (getValue (GetAttribute prim (opAttrName r)))
        end
  end.
Proof.
  intros Hres. unfold rotation.
  rewrite (hasOp_lastAt prim NdxRotate Hres), (getOp_lastAt prim NdxRotate Hres).
  destruct (lastAt NdxRotate (GetOrderedXformOps prim)); reflexivity.
Qed.

Lemma scale_unfold (env : Env) (prim : UsdPrim (VtValue env)) :
  Forall resolves (GetOrderedXformOps prim) ->
  scale env prim =
  match lastAt NdxScale (GetOrderedXformOps prim) with
  | None => Ok (unitVector env)
  | Some s =>
      if negb (opHasValue prim s) then Ok (unitVector env)
      else Ok (readVec3f env (getValue (GetAttribute prim (opAttrName s))))
  end.
Proof.
  intros Hres. unfold scale.
  rewrite (hasOp_lastAt prim NdxScale Hres), (getOp_lastAt prim NdxScale Hres).
  destruct (lastAt NdxScale (GetOrderedXformOps prim)); reflexivity.
Qed.

(** ** Rotation conversions *)

(** C8, amended.  The lookup of a conversion for xformOp:orient does not
    fail, in either table: it returns normally, and what it returns is the
    null function, which holds no conversion. *)
Theorem orient_conversion_is_empty (env : Env) :
  getCvtRotXYZFromAttrFn env "xformOp:orient" = Ok None
  /\ getCvtRotXYZToAttrFn env "xformOp:orient" = Ok None.
Proof. split; reflexivity. Qed.

(** C8 as stated fails: both lookups for xformOp:orient return normally. *)
Lemma orient_lookup_does_not_fail :
  returns (getCvtRotXYZFromAttrFn exampleEnv "xformOp:orient") = true
  /\ returns (getCvtRotXYZToAttrFn exampleEnv "xformOp:orient") = true.
Proof. split; reflexivity. Qed.

(** ** Read accessors *)

Lemma getVector3d_default (env : Env) (precisionOfV : Precision)
    (prim : UsdPrim (VtValue env)) (attrName : string) :
  attrHasValue prim attrName = false ->
  getVector3d env precisionOfV prim attrName = zeroVector env.
Proof.
  unfold attrHasValue, getVector3d. intros H.
  destruct (GetAttribute prim attrName) as [a|]; [|reflexivity].
  destruct (attrValue a); [discriminate | reflexivity].
Qed.

Lemma getVector3d_written (env : Env) (precisionOfV : Precision)
    (prim : UsdPrim (VtValue env)) (attrName : string) (a : UsdAttribute (VtValue env))
    (v : VtValue env) :
  GetAttribute prim attrName = Some a -> attrValue a = Some v ->
  getVector3d env precisionOfV prim attrName = readVec3 env precisionOfV v.
Proof. unfold getVector3d. intros -> ->. reflexivity. Qed.

Lemma opHasValue_getValue (env : Env) (prim : UsdPrim (VtValue env)) (op : UsdGeomXformOp) :
  opHasValue prim op = true ->
  exists a v, GetAttribute prim (opAttrName op) = Some a /\ attrValue a = Some v
    /\ getValue (GetAttribute prim (opAttrName op)) = v.
Proof.
  unfold opHasValue, getValue. intros H.
  destruct (GetAttribute prim (opAttrName op)) as [a|]; [|discriminate].
  destruct (attrValue a) as [v|] eqn:Hv; [|discriminate].
  exists a, v. auto.
Qed.

(** C5, amended.  translation() and the four pivot accessors return the
    zero vector when the attribute they name is missing from the prim or has
    no value, and the typed read of its value otherwise, whether or not
    xformOpOrder lists it.  When every op name of the authored list
    resolves, rotation() returns the zero vector and scale() the unit vector
    if the list has no op at the position or the op has no value; when the
    rotate op has a value, getCvtRotXYZFromAttrFn returns for the name of
    that very op a converter, null for xformOp:orient only, and with a
    converter that is not null rotation() returns the stored value
    converted by it. *)
Theorem accessor_defaults (env : Env) (prim : UsdPrim (VtValue env)) :
  let tk := UsdMayaXformStackTokens env in
  (attrHasValue prim "xformOp:translate" = false ->
     translation env prim = Ok (zeroVector env))
  /\ (attrHasValue prim (GetOpNameOf TypeTranslate (tkRotatePivot tk)) = false ->
        rotatePivot env prim = Ok (zeroVector env))
  /\ (attrHasValue prim (GetOpNameOf TypeTranslate (tkScalePivot tk)) = false ->
        scalePivot env prim = Ok (zeroVector env))
  /\ (attrHasValue prim (GetOpNameOf TypeTranslate (tkRotatePivotTranslate tk)) = false ->
        rotatePivotTranslation env prim = Ok (zeroVector env))
  /\ (attrHasValue prim (GetOpNameOf TypeTranslate (tkScalePivotTranslate tk)) = false ->
        scalePivotTranslation env prim = Ok (zeroVector env))
  /\ (forall a v, GetAttribute prim "xformOp:translate" = Some a -> attrValue a = Some v ->
        translation env prim = Ok (readVec3d env v))
  /\ (forall a v,
        GetAttribute prim (GetOpNameOf TypeTranslate (tkRotatePivot tk)) = Some a ->
        attrValue a = Some v ->
        rotatePivot env prim = Ok (readVec3f env v))
  /\ (forall a v,
        GetAttribute prim (GetOpNameOf TypeTranslate (tkScalePivot tk)) = Some a ->
        attrValue a = Some v ->
        scalePivot env prim = Ok (readVec3f env v))
  /\ (forall a v,
        GetAttribute prim (GetOpNameOf TypeTranslate (tkRotatePivotTranslate tk)) = Some a ->
        attrValue a = Some v ->
        rotatePivotTranslation env prim = Ok (readVec3f env v))
  /\ (forall a v,
        GetAttribute prim (GetOpNameOf TypeTranslate (tkScalePivotTranslate tk)) = Some a ->
        attrValue a = Some v ->
        scalePivotTranslation env prim = Ok (readVec3f env v))
  /\ (Forall resolves (GetOrderedXformOps prim) ->
      (slotHasValue prim NdxRotate = false -> rotation env prim = Ok (zeroVector env))
      /\ (slotHasValue prim NdxScale = false -> scale env prim = Ok (unitVector env))
      /\ (forall r a v,
            lastAt NdxRotate (GetOrderedXformOps prim) = Some r ->
            GetAttribute prim (opAttrName r) = Some a -> attrValue a = Some v ->
            exists cvt, getCvtRotXYZFromAttrFn env (GetOpName r) = Ok cvt
                        /\ (cvt = None <-> GetOpName r = "xformOp:orient")
                        /\ forall f, cvt = Some f -> rotation env prim = Ok (f v))).
Proof.
  intros tk.
  split; [intros H; unfold translation; now rewrite getVector3d_default|].
  split; [intros H; unfold rotatePivot, suffixedVector3d;
          change (getOpSuffix env NdxRotatePivot) with (Ok (A := string) (tkRotatePivot tk));
          cbv iota; now rewrite getVector3d_default|].
  split; [intros H; unfold scalePivot, suffixedVector3d;
          change (getOpSuffix env NdxScalePivot) with (Ok (A := string) (tkScalePivot tk));
          cbv iota; now rewrite getVector3d_default|].
  split; [intros H; unfold rotatePivotTranslation, suffixedVector3d;
          change (getOpSuffix env NdxRotatePivotTranslate) with (Ok (A := string) (tkRotatePivotTranslate tk));
          cbv iota; now rewrite getVector3d_default|].
  split; [intros H; unfold scalePivotTranslation, suffixedVector3d;
          change (getOpSuffix env NdxScalePivotTranslate) with (Ok (A := string) (tkScalePivotTranslate tk));
          cbv iota; now rewrite getVector3d_default|].
  split.
  { intros a v Ha Hv. unfold translation. f_equal.
    exact (getVector3d_written env PrecisionDouble prim _ a v Ha Hv). }
  split.
  { intros a v Ha Hv. unfold rotatePivot, suffixedVector3d.
    change (getOpSuffix env NdxRotatePivot) with (Ok (A := string) (tkRotatePivot tk)).
    cbv iota. f_equal. exact (getVector3d_written env PrecisionFloat prim _ a v Ha Hv). }
  split.
  { intros a v Ha Hv. unfold scalePivot, suffixedVector3d.
    change (getOpSuffix env NdxScalePivot) with (Ok (A := string) (tkScalePivot tk)).
    cbv iota. f_equal. exact (getVector3d_written env PrecisionFloat prim _ a v Ha Hv). }
  split.
  { intros a v Ha Hv. unfold rotatePivotTranslation, suffixedVector3d.
    change (getOpSuffix env NdxRotatePivotTranslate)
      with (Ok (A := string) (tkRotatePivotTranslate tk)).
    cbv iota. f_equal. exact (getVector3d_written env PrecisionFloat prim _ a v Ha Hv). }
  split.
  { intros a v Ha Hv. unfold scalePivotTranslation, suffixedVector3d.
    change (getOpSuffix env NdxScalePivotTranslate)
      with (Ok (A := string) (tkScalePivotTranslate tk)).
    cbv iota. f_equal. exact (getVector3d_written env PrecisionFloat prim _ a v Ha Hv). }
  intros Hres. split; [|split].
  - unfold slotHasValue. intros H. rewrite (rotation_unfold env prim Hres).
    destruct (lastAt NdxRotate (GetOrderedXformOps prim)); [|reflexivity].
    rewrite H. reflexivity.
  - unfold slotHasValue. intros H. rewrite (scale_unfold env prim Hres).
    destruct (lastAt NdxScale (GetOrderedXformOps prim)); [|reflexivity].
    rewrite H. reflexivity.
  - intros r a v Hlast Ha Hv.
    assert (Hunfold : rotation env prim
              = match getCvtRotXYZFromAttrFn env (GetOpName r) with
                | Throw e => Throw e
                | Ok cvt => callFromAttr cvt v
                end).
    { rewrite (rotation_unfold env prim Hres), Hlast.
      unfold opHasValue, getValue. rewrite Ha, Hv. reflexivity. }
    destruct (cvtFrom_by_name env (GetOpName r)) as [[Hname Hcvt]|[Hname [f Hcvt]]].
    { apply rotate_position_names. eapply lastAt_resolves. exact Hlast. }
    + exists None. split; [exact Hcvt|]. split; [tauto|]. intros f Hf. discriminate Hf.
    + exists (Some f). split; [exact Hcvt|]. split.
      * split; [intros Hn; discriminate Hn | intros Hn; contradiction].
      * intros f' Hf'. inversion Hf'; subst f'. rewrite Hunfold, Hcvt. reflexivity.
Qed.

Lemma accessor_defaults_witness :
  translation exampleEnv primEmpty = Ok (zeroVector exampleEnv)
  /\ rotatePivot exampleEnv primEmpty = Ok (zeroVector exampleEnv)
  /\ rotation exampleEnv primEmpty = Ok (zeroVector exampleEnv)
  /\ scale exampleEnv primEmpty = Ok (unitVector exampleEnv)
  /\ rotatePivot exampleEnv primPivoted = Ok (mkVector3d 4 5 6)
  /\ rotation exampleEnv primRotated = Ok (mkVector3d 10 20 30).
Proof.
  destruct (accessor_defaults exampleEnv primEmpty)
    as (Ht & Hp & _ & _ & _ & _ & _ & _ & _ & _ & Hrs).
  destruct (accessor_defaults exampleEnv primPivoted)
    as (_ & _ & _ & _ & _ & _ & Hpiv & _).
  destruct (accessor_defaults exampleEnv primRotated)
    as (_ & _ & _ & _ & _ & _ & _ & _ & _ & _ & Hrot).
  split; [apply Ht; reflexivity|].
  split; [apply Hp; reflexivity|].
  assert (He : Forall resolves (GetOrderedXformOps primEmpty)) by constructor.
  destruct (Hrs He) as (Hr & Hs & _).
  split; [apply Hr; reflexivity|].
  split; [apply Hs; reflexivity|].
  split.
  { apply (Hpiv (plainAttr PrecisionFloat (Some (Some (4, 5, 6)))) (Some (4, 5, 6))).
    - vm_compute. reflexivity.
    - reflexivity. }
  assert (Hres : Forall resolves (GetOrderedXformOps primRotated)).
  { apply resolvesb_Forall. vm_compute. reflexivity. }
  destruct (Hrot Hres) as (_ & _ & Hcvt).
  destruct (Hcvt opRotateXYZ (plainAttr PrecisionFloat (Some (Some (10, 20, 30))))
                 (Some (10, 20, 30))) as (cvt & Hget & _ & Hcall).
  - vm_compute. reflexivity.
  - vm_compute. reflexivity.
  - reflexivity.
  - apply (Hcall (fromXYZ exampleEnv)).
    change (getCvtRotXYZFromAttrFn exampleEnv (GetOpName opRotateXYZ))
      with (Ok (A := CvtRotXYZFromAttrFn exampleEnv) (Some (fromXYZ exampleEnv))) in Hget.
    inversion Hget. reflexivity.
Defined.

(** C5 as stated fails.  On a prim whose authored list is empty but which
    carries a written xformOp:translate attribute, translation() returns the
    stored vector and not the zero vector; on a prim whose only op is a
    matrix op, without any rotate or scale op, rotation() and scale() throw
    std::out_of_range. *)
Lemma accessors_off_default :
  GetOrderedXformOps primStrayTranslate = []
  /\ translation exampleEnv primStrayTranslate = Ok (mkVector3d 1 2 3)
  /\ mkVector3d 1 2 3 <> zeroVector exampleEnv
  /\ lastAt NdxRotate (GetOrderedXformOps primMatrix) = None
  /\ rotation exampleEnv primMatrix = Throw OutOfRange
  /\ lastAt NdxScale (GetOrderedXformOps primMatrix) = None
  /\ scale exampleEnv primMatrix = Throw OutOfRange.
Proof.
  split; [vm_compute; reflexivity|].
  split; [vm_compute; reflexivity|].
  split; [intros H; discriminate H|].
  repeat split; vm_compute; reflexivity.
Qed.

(** ** Command factories *)


Lemma opAndAttrName_lastAt {V} (prim : UsdPrim V) (k : OpNdx) :
  Forall resolves (GetOrderedXformOps prim) ->
  opAndAttrName prim k = Ok (lastAt k (GetOrderedXformOps prim), slotAttrName prim k).
Proof.
  intros Hres. unfold opAndAttrName, slotAttrName.
  rewrite (hasOp_lastAt prim k Hres), (getOp_lastAt prim k Hres).
  destruct (lastAt k (GetOrderedXformOps prim)); reflexivity.
Qed.




(** ** Creating ops *)

Lemma AddXformOp_some {V} (t : XformOpType) (precision : Precision) (opSuffix : string)
    (isInverseOp : bool) (prim prim' : UsdPrim V) (op : UsdGeomXformOp) :
  AddXformOp t precision opSuffix isInverseOp prim = (Some op, prim') ->
  op = mkXformOp (GetOpNameOf t opSuffix) isInverseOp
  /\ opHasAttr prim' op = true
  /\ xformOpOrder prim' = (xformOpOrder prim ++ [op])%list
  /\ primAuthorable prim = true
  /\ primAuthorable prim' = true
  /\ existsb (op_eqb op) (xformOpOrder prim) = false
  /\ (forall name, name <> opAttrName op ->
        GetAttribute prim' name = GetAttribute prim name)
  /\ (GetAttribute prim (opAttrName op) = None ->
        GetAttribute prim' (opAttrName op) = Some (mkAttr precision None None))
  /\ (GetAttribute prim (opAttrName op) <> None -> primAttrs prim' = primAttrs prim).
Proof.
  unfold AddXformOp. set (o := mkXformOp (GetOpNameOf t opSuffix) isInverseOp).
  destruct (existsb (op_eqb o) (xformOpOrder prim)) eqn:Hex; [discriminate|].
  destruct (primAuthorable prim) eqn:Hauth; [|discriminate]. simpl negb. cbv iota.
  destruct (GetAttribute prim (opAttrName o)) as [a|] eqn:Hattr.
  - destruct (precision_eqb (attrPrecision a) precision); [|discriminate].
    intros H. inversion H; subst op prim'; clear H.
    unfold opHasAttr, GetAttribute in *. simpl in *. rewrite Hattr.
    repeat split; auto. congruence.
  - intros H. inversion H; subst op prim'; clear H.
    unfold opHasAttr, GetAttribute in *. simpl in *.
    rewrite lookup_insert_eq.
    repeat split; auto.
    + intros name Hne. apply lookup_insert_ne. congruence.
    + congruence.
Qed.

Lemma AddXformOp_none {V} (t : XformOpType) (precision : Precision) (opSuffix : string)
    (isInverseOp : bool) (prim prim' : UsdPrim V) :
  AddXformOp t precision opSuffix isInverseOp prim = (None, prim') -> prim' = prim.
Proof.
  unfold AddXformOp.
  destruct (existsb _ _); [congruence|].
  destruct (negb (primAuthorable prim)); [congruence|].
  destruct (GetAttribute prim _) as [a|]; [|discriminate].
  destruct (precision_eqb _ _); [discriminate | congruence].
Qed.

Lemma SetXformOpOrder_attrs {V} (newOrder : list UsdGeomXformOp) (resets : bool)
    (prim : UsdPrim V) :
  primAttrs (snd (SetXformOpOrder newOrder resets prim)) = primAttrs prim.
Proof. unfold SetXformOpOrder. destruct (primAuthorable prim); reflexivity. Qed.

Lemma setXformOpOrder_attrs {V} (prim : UsdPrim V) :
  primAttrs (snd (setXformOpOrder prim)) = primAttrs prim.
Proof.
  rewrite setXformOpOrder_computed. destruct (computedOrder prim); [|reflexivity].
  simpl. apply SetXformOpOrder_attrs.
Qed.

Lemma thenSetOrder_ok {V} (op op' : UsdGeomXformOp) (cannotSet : string)
    (x x' : UsdPrim V) :
  thenSetOrder getXformOpOrderFn op cannotSet x = (Ok op', x') ->
  op' = op /\ setXformOpOrder x = (Ok true, x') /\ primAttrs x' = primAttrs x.
Proof.
  unfold thenSetOrder, getXformOpOrderFn.
  pose proof (setXformOpOrder_attrs x) as Hattrs.
  destruct (setXformOpOrder x) as [[[|]|e] x0]; intros H; inversion H; subst.
  auto.
Qed.

Lemma opHasAttr_same_attrs {V} (x x' : UsdPrim V) (op : UsdGeomXformOp) :
  primAttrs x' = primAttrs x -> opHasAttr x' op = opHasAttr x op.
Proof. unfold opHasAttr, GetAttribute. intros ->. reflexivity. Qed.

Lemma inUndoBlockWithGuard_ok {V A} (body : UsdPrim V -> Result A * UsdPrim V)
    (s s' : Session V) (a : A) :
  inUndoBlockWithGuard body s = (Ok a, s') ->
  exists prim', body (sPrim s) = (Ok a, prim')
    /\ s' = mkSession (sItemIsUsd s) prim' (sPrim s :: sUndoable s)
                      (prim' :: sNotified s) (sDisplayed s).
Proof.
  unfold inUndoBlockWithGuard. destruct (body (sPrim s)) as [[a0|e] prim'];
    intros H; inversion H; subst. eauto.
Qed.

Lemma inUndoBlockWithGuard_throw {V A} (body : UsdPrim V -> Result A * UsdPrim V)
    (s s' : Session V) (e : Exception) :
  inUndoBlockWithGuard body s = (Throw e, s') -> s' = s.
Proof.
  unfold inUndoBlockWithGuard. destruct (body (sPrim s)) as [[a0|e0] prim'];
    intros H; inversion H; subst. reflexivity.
Qed.

(** An op added and then reordered is defined on the resulting prim. *)
Lemma add_then_order_defined {V} (t : XformOpType) (precision : Precision)
    (opSuffix cannotAdd cannotSet : string) (x x' : UsdPrim V) (op : UsdGeomXformOp) :
  match AddXformOp t precision opSuffix false x with
  | (None, x1) => (Throw (RuntimeError cannotAdd), x1)
  | (Some r, x1) => thenSetOrder getXformOpOrderFn r cannotSet x1
  end = (Ok op, x') ->
  opHasAttr x' op = true.
Proof.
  destruct (AddXformOp t precision opSuffix false x) as [[r|] x1] eqn:Hadd; [|discriminate].
  intros H. apply thenSetOrder_ok in H. destruct H as (-> & _ & Hattrs).
  rewrite (opHasAttr_same_attrs _ _ _ Hattrs).
  apply AddXformOp_some in Hadd. tauto.
Qed.

Lemma found_attr_defined {V} (prim : UsdPrim V) (attrName : string) (a : UsdAttribute V) :
  getUsdPrimAttribute prim attrName = Some a ->
  opHasAttr prim (mkXformOp attrName false) = true.
Proof.
  unfold getUsdPrimAttribute, opHasAttr. simpl.
  destruct (negb (String.eqb attrName "")); [|discriminate]. intros ->. reflexivity.
Qed.

Lemma rotateOpFunc_defined {V} (attrName opSuffix : string) :
  returnsDefinedOp (@rotateOpFunc V attrName opSuffix getXformOpOrderFn).
Proof.
  intros s op s'. unfold rotateOpFunc, SceneItemHolder.
  destruct (sItemIsUsd s); [|discriminate].
  destruct (getUsdPrimAttribute (sPrim s) attrName) as [a|] eqn:Hattr.
  - intros H. inversion H; subst. simpl. eapply found_attr_defined. exact Hattr.
  - intros H. apply inUndoBlockWithGuard_ok in H. destruct H as (x' & Hbody & ->).
    simpl. eapply add_then_order_defined. exact Hbody.
Qed.

Lemma scaleOpFunc_defined {V} (attrName opSuffix : string) :
  returnsDefinedOp (@scaleOpFunc V attrName opSuffix getXformOpOrderFn).
Proof.
  intros s op s'. unfold scaleOpFunc, SceneItemHolder.
  destruct (sItemIsUsd s); [|discriminate].
  destruct (getUsdPrimAttribute (sPrim s) attrName) as [a|] eqn:Hattr.
  - intros H. inversion H; subst. simpl. eapply found_attr_defined. exact Hattr.
  - intros H. apply inUndoBlockWithGuard_ok in H. destruct H as (x' & Hbody & ->).
    simpl. eapply add_then_order_defined. exact Hbody.
Qed.

Lemma vector3dOpFunc_defined {V} (precisionOfV : Precision) (attrName opSuffix : string) :
  returnsDefinedOp (@vector3dOpFunc V precisionOfV attrName opSuffix getXformOpOrderFn).
Proof.
  intros s op s'. unfold vector3dOpFunc, SceneItemHolder.
  destruct (sItemIsUsd s); [|discriminate].
  destruct (getUsdPrimAttribute (sPrim s) attrName) as [a|] eqn:Hattr.
  - intros H. inversion H; subst. simpl. eapply found_attr_defined. exact Hattr.
  - intros H. apply inUndoBlockWithGuard_ok in H. destruct H as (x' & Hbody & ->).
    simpl. eapply add_then_order_defined. exact Hbody.
Qed.

Lemma pivotCreate_ok {V} (pvtOpSuffix : string) (x x' : UsdPrim V) (op : UsdGeomXformOp) :
  pivotCreate pvtOpSuffix getXformOpOrderFn x = (Ok op, x') ->
  exists x1 x2,
    AddTranslateOp PrecisionFloat pvtOpSuffix false x = (Some (pivotOp pvtOpSuffix), x1)
    /\ AddTranslateOp PrecisionFloat pvtOpSuffix true x1
       = (Some (pivotInverseOp pvtOpSuffix), x2)
    /\ setXformOpOrder x2 = (Ok true, x')
    /\ op = pivotOp pvtOpSuffix.
Proof.
  unfold pivotCreate, AddTranslateOp.
  destruct (AddXformOp TypeTranslate PrecisionFloat pvtOpSuffix false x)
    as [p x1] eqn:H1.
  destruct (AddXformOp TypeTranslate PrecisionFloat pvtOpSuffix true x1)
    as [pInv x2] eqn:H2.
  destruct p as [p|]; [|discriminate]. destruct pInv as [pInv|]; [|discriminate].
  intros H. apply thenSetOrder_ok in H. destruct H as (-> & Hset & _).
  pose proof (AddXformOp_some _ _ _ _ _ _ _ H1) as (-> & _).
  pose proof (AddXformOp_some _ _ _ _ _ _ _ H2) as (-> & _).
  exists x1, x2. auto.
Qed.

Lemma pivotOpFunc_defined {V} (pvtOpSuffix : string) :
  returnsDefinedOp (@pivotOpFunc V (GetOpNameOf TypeTranslate pvtOpSuffix) pvtOpSuffix
                                 getXformOpOrderFn).
Proof.
  intros s op s'. unfold pivotOpFunc, SceneItemHolder.
  destruct (sItemIsUsd s); [|discriminate].
  destruct (GetAttribute (sPrim s) (GetOpNameOf TypeTranslate pvtOpSuffix)) as [a|] eqn:Hattr.
  - intros H. inversion H; subst. simpl. unfold opHasAttr. simpl. rewrite Hattr. reflexivity.
  - intros H. apply inUndoBlockWithGuard_ok in H. destruct H as (x' & Hbody & ->).
    simpl. apply pivotCreate_ok in Hbody. destruct Hbody as (x1 & x2 & H1 & H2 & Hset & ->).
    pose proof (setXformOpOrder_attrs x2) as Hattrs. rewrite Hset in Hattrs. simpl in Hattrs.
    rewrite (opHasAttr_same_attrs _ _ _ Hattrs).
    apply AddXformOp_some in H2. destruct H2 as (_ & Hdef & _).
    exact Hdef.
Qed.

(** ** createOpIfNeeded *)

Lemma createOpIfNeeded_cached {env : Env} (cmd : UsdTRSUndoableCmdBase env)
    (s : Session (VtValue env)) :
  opIsDefined (sPrim s) (cmdOp cmd) = true ->
  createOpIfNeeded (cmd, s) = (Ok tt, (cmd, s)).
Proof. unfold createOpIfNeeded. intros ->. reflexivity. Qed.

Lemma createOpIfNeeded_caches {env : Env} (cmd cmd1 : UsdTRSUndoableCmdBase env)
    (s s1 : Session (VtValue env)) :
  returnsDefinedOp (cmdOpFunc cmd) ->
  opIsDefined (sPrim s) (cmdOp cmd) = false ->
  createOpIfNeeded (cmd, s) = (Ok tt, (cmd1, s1)) ->
  opIsDefined (sPrim s1) (cmdOp cmd1) = true
  /\ exists op, cmdOpFunc cmd s = (Ok op, s1)
       /\ cmd1 = mkCmdBase (cmdNewOpValue cmd) (Some op) (cmdOpFunc cmd).
Proof.
  intros Hdef Hno. unfold createOpIfNeeded. rewrite Hno.
  destruct (cmdOpFunc cmd s) as [[op|e] s'] eqn:Hf; intros H; inversion H; subst.
  split; [exact (Hdef _ _ _ Hf) | eauto].
Qed.

(** C7. createOpIfNeeded does nothing when the command holds a defined op:
    it returns with the command, the prim, the undoable item and the
    notifications as they were.  So for a command whose op function returns
    defined ops, as the four op functions of the factories do, once an
    invocation has returned every further invocation returns the same
    command and session. *)
Theorem createOpIfNeeded_idempotent {env : Env} (cmd : UsdTRSUndoableCmdBase env)
    (s : Session (VtValue env)) :
  (opIsDefined (sPrim s) (cmdOp cmd) = true ->
     createOpIfNeeded (cmd, s) = (Ok tt, (cmd, s)))
  /\ (returnsDefinedOp (cmdOpFunc cmd) ->
      forall cmd1 s1, createOpIfNeeded (cmd, s) = (Ok tt, (cmd1, s1)) ->
      opIsDefined (sPrim s1) (cmdOp cmd1) = true
      /\ createOpIfNeeded (cmd1, s1) = (Ok tt, (cmd1, s1))
      /\ forall n, Nat.iter n (fun st => snd (createOpIfNeeded st)) (cmd1, s1) = (cmd1, s1)).
Proof.
  split; [apply createOpIfNeeded_cached|].
  intros Hdef cmd1 s1 Hfirst.
  assert (Hcached : opIsDefined (sPrim s1) (cmdOp cmd1) = true).
  { destruct (opIsDefined (sPrim s) (cmdOp cmd)) eqn:Hop.
    - rewrite (createOpIfNeeded_cached cmd s Hop) in Hfirst.
      inversion Hfirst; subst. exact Hop.
    - exact (proj1 (createOpIfNeeded_caches cmd cmd1 s s1 Hdef Hop Hfirst)). }
  split; [exact Hcached|].
  split; [apply createOpIfNeeded_cached; exact Hcached|].
  induction n as [|n IH]; [reflexivity|].
  simpl. rewrite IH, (createOpIfNeeded_cached cmd1 s1 Hcached). reflexivity.
Qed.

Lemma createOpIfNeeded_idempotent_witness :
  returnsDefinedOp (cmdOpFunc rotatePivotCmdBase)
  /\ exists cmd1 s1,
       createOpIfNeeded (rotatePivotCmdBase, sessionOn primEmpty) = (Ok tt, (cmd1, s1))
       /\ cmdOp cmd1 = Some (pivotOp "rotatePivot")
       /\ opIsDefined (sPrim s1) (cmdOp cmd1) = true
       /\ createOpIfNeeded (cmd1, s1) = (Ok tt, (cmd1, s1))
       /\ Nat.iter 3 (fun st => snd (createOpIfNeeded st)) (cmd1, s1) = (cmd1, s1).
Proof.
  assert (Hdef : returnsDefinedOp (cmdOpFunc rotatePivotCmdBase)).
  { exact (pivotOpFunc_defined "rotatePivot"). }
  split; [exact Hdef|].
  destruct (createOpIfNeeded (rotatePivotCmdBase, sessionOn primEmpty))
    as [r [cmd1 s1]] eqn:Hfirst.
  assert (Hr : r = Ok tt /\ cmdOp cmd1 = Some (pivotOp "rotatePivot")).
  { vm_compute in Hfirst. inversion Hfirst. split; reflexivity. }
  destruct Hr as [-> Hop].
  exists cmd1, s1.
  destruct (proj2 (createOpIfNeeded_idempotent rotatePivotCmdBase (sessionOn primEmpty))
              Hdef cmd1 s1 Hfirst) as (H1 & H2 & H3).
  split; [reflexivity|]. split; [exact Hop|]. split; [exact H1|]. split; [exact H2|].
  exact (H3 3).
Defined.

Example pivot_created_once :
  GetOrderedXformOps
    (sPrim (snd (snd (createOpIfNeeded (rotatePivotCmdBase, sessionOn primEmpty)))))
  = [pivotOp "rotatePivot"; pivotInverseOp "rotatePivot"].
Proof. vm_compute. reflexivity. Qed.

(** ** The pivot pair *)

Lemma fill_ok_resolves (ops : list UsdGeomXformOp) :
  forall m m', fillOrderedOps ops m = Ok m' -> Forall resolves ops.
Proof.
  induction ops as [|op rest IH]; intros m m' Hfill; [constructor|].
  simpl in Hfill. rewrite at_find in Hfill.
  destruct (gOpNameToNdx_find (GetOpName op)) as [k|] eqn:Hk; [|discriminate].
  constructor; [unfold resolves; congruence | eapply IH; exact Hfill].
Qed.

Lemma inverse_name_other_position (name : string) (k1 k2 : OpNdx) :
  gOpNameToNdx_find name = Some k1 ->
  gOpNameToNdx_find ("!invert!" ++ name) = Some k2 ->
  k1 <> k2.
Proof.
  intros H1 H2. unfold gOpNameToNdx_find, gOpNameToNdx in H1. cbn [table_find] in H1.
  table_cases H1; try discriminate H1;
    vm_compute in H2; try discriminate H2;
    inversion H1; inversion H2; discriminate.
Qed.

Lemma find_in_values (k : OpNdx) (v : UsdGeomXformOp) (m : OpMap.t) :
  OpMap.find k m = Some v -> In v (OpMap.values m).
Proof.
  intros H. apply find_In in H. unfold OpMap.values.
  apply in_map_iff. exists (k, v). auto.
Qed.

Lemma lastAt_pair (k1 k2 : OpNdx) (a b : UsdGeomXformOp) (l : list UsdGeomXformOp) :
  gOpNameToNdx_find (GetOpName a) = Some k1 ->
  gOpNameToNdx_find (GetOpName b) = Some k2 ->
  k1 <> k2 ->
  lastAt k1 (l ++ [a; b])%list = Some a /\ lastAt k2 (l ++ [a; b])%list = Some b.
Proof.
  intros Ha Hb Hne. rewrite !lastAt_app. simpl. rewrite Ha, Hb.
  rewrite (proj2 (ndx_eqb_eq k1 k1) eq_refl), (proj2 (ndx_eqb_eq k2 k2) eq_refl).
  assert (H21 : ndx_eqb k2 k1 = false) by (apply ndx_eqb_neq; congruence).
  rewrite H21. split; reflexivity.
Qed.

Lemma filter_app_pair {A} (f : A -> bool) (l : list A) (a b : A) :
  f a = true -> f b = true ->
  List.filter f (l ++ [a; b])%list = (List.filter f l ++ [a; b])%list.
Proof. intros Ha Hb. rewrite List.filter_app. simpl. rewrite Ha, Hb. reflexivity. Qed.

(** Once both ops are added, the reorder keeps both. *)
Lemma pivot_pair_in_order {V} (pvtOpSuffix : string) (x x1 x2 x3 : UsdPrim V) :
  AddTranslateOp PrecisionFloat pvtOpSuffix false x = (Some (pivotOp pvtOpSuffix), x1) ->
  AddTranslateOp PrecisionFloat pvtOpSuffix true x1
    = (Some (pivotInverseOp pvtOpSuffix), x2) ->
  setXformOpOrder x2 = (Ok true, x3) ->
  In (pivotOp pvtOpSuffix) (GetOrderedXformOps x3)
  /\ In (pivotInverseOp pvtOpSuffix) (GetOrderedXformOps x3).
Proof.
  intros H1 H2 Hset.
  apply AddXformOp_some in H1. destruct H1 as (_ & _ & Ho1 & _).
  apply AddXformOp_some in H2. destruct H2 as (_ & Hdef2 & Ho2 & _ & Hauth2 & _).
  assert (Hdef1 : opHasAttr x2 (pivotOp pvtOpSuffix) = true) by exact Hdef2.
  assert (Hops : GetOrderedXformOps x2
                 = (List.filter (opHasAttr x2) (xformOpOrder x)
                    ++ [pivotOp pvtOpSuffix; pivotInverseOp pvtOpSuffix])%list).
  { unfold GetOrderedXformOps. rewrite Ho2, Ho1, <- app_assoc. simpl.
    apply filter_app_pair; assumption. }
  destruct (computedOrder x2) as [newOrder|e] eqn:Hc.
  2:{ rewrite setXformOpOrder_computed, Hc in Hset. discriminate Hset. }
  destruct (committed_order_read_back x2 newOrder Hc Hauth2) as [_ Hback].
  rewrite Hset in Hback. simpl in Hback. rewrite Hback.
  unfold computedOrder in Hc.
  destruct (fillOrderedOps (GetOrderedXformOps x2) OpMap.empty) as [m|] eqn:Hfill;
    [|discriminate].
  inversion Hc; subst newOrder.
  pose proof (fill_ok_resolves _ _ _ Hfill) as Hres.
  rewrite Hops in Hres. apply Forall_app in Hres. destruct Hres as [_ Hres].
  inversion Hres as [|? ? Hp Hres']; subst. inversion Hres' as [|? ? Hi _]; subst.
  unfold resolves in Hp, Hi.
  destruct (gOpNameToNdx_find (GetOpName (pivotOp pvtOpSuffix))) as [k1|] eqn:Hk1;
    [|congruence].
  destruct (gOpNameToNdx_find (GetOpName (pivotInverseOp pvtOpSuffix))) as [k2|] eqn:Hk2;
    [|congruence].
  assert (Hne : k1 <> k2).
  { apply (inverse_name_other_position (GetOpNameOf TypeTranslate pvtOpSuffix));
      [exact Hk1 | exact Hk2]. }
  destruct (lastAt_pair k1 k2 _ _ (List.filter (opHasAttr x2) (xformOpOrder x)) Hk1 Hk2 Hne)
    as [Hl1 Hl2].
  rewrite <- Hops in Hl1, Hl2.
  split; [apply (find_in_values k1) | apply (find_in_values k2)];
    rewrite (fill_find _ _ _ _ Hfill); [rewrite Hl1 | rewrite Hl2]; reflexivity.
Qed.

Lemma pivotCreate_throw {V} (pvtOpSuffix : string) (x x' : UsdPrim V) (e : Exception) :
  pivotCreate pvtOpSuffix getXformOpOrderFn x = (Throw e, x') ->
  fst (AddTranslateOp PrecisionFloat pvtOpSuffix false x) = None
  \/ fst (AddTranslateOp PrecisionFloat pvtOpSuffix true
            (snd (AddTranslateOp PrecisionFloat pvtOpSuffix false x))) = None
  \/ fst (setXformOpOrder
            (snd (AddTranslateOp PrecisionFloat pvtOpSuffix true
                    (snd (AddTranslateOp PrecisionFloat pvtOpSuffix false x)))))
     <> Ok true.
Proof.
  unfold pivotCreate.
  destruct (AddTranslateOp PrecisionFloat pvtOpSuffix false x) as [p x1].
  simpl fst. simpl snd.
  destruct (AddTranslateOp PrecisionFloat pvtOpSuffix true x1) as [pInv x2].
  simpl fst. simpl snd.
  destruct p as [p|]; [|now left]. destruct pInv as [pInv|]; [|right; now left].
  unfold thenSetOrder, getXformOpOrderFn.
  destruct (setXformOpOrder x2) as [[[|]|e0] x3]; simpl; intros H;
    [discriminate H| |]; right; right; discriminate.
Qed.

Lemma absent_attr_not_ordered {V} (prim : UsdPrim V) (op : UsdGeomXformOp) :
  GetAttribute prim (opAttrName op) = None -> ~ In op (GetOrderedXformOps prim).
Proof.
  intros Hnone Hin. apply ordered_ops_have_attr in Hin.
  unfold opHasAttr in Hin. rewrite Hnone in Hin. discriminate.
Qed.

Lemma op_eqb_eq (a b : UsdGeomXformOp) : op_eqb a b = true <-> a = b.
Proof.
  destruct a as [na ia], b as [nb ib]. unfold op_eqb. simpl.
  rewrite andb_true_iff, String.eqb_eq, Bool.eqb_true_iff.
  split; [intros [-> ->]; reflexivity | intros H; inversion H; auto].
Qed.

Lemma listed_with_attr_ordered {V} (prim : UsdPrim V) (op : UsdGeomXformOp) :
  existsb (op_eqb op) (xformOpOrder prim) = true -> opHasAttr prim op = true ->
  In op (GetOrderedXformOps prim).
Proof.
  intros Hex Hattr. apply existsb_exists in Hex. destruct Hex as (o & Hin & Heq).
  apply op_eqb_eq in Heq. subst o.
  unfold GetOrderedXformOps. apply List.filter_In. auto.
Qed.

Lemma AddXformOp_none_cases {V} (t : XformOpType) (precision : Precision)
    (opSuffix : string) (isInverseOp : bool) (prim prim' : UsdPrim V) :
  AddXformOp t precision opSuffix isInverseOp prim = (None, prim') ->
  existsb (op_eqb (mkXformOp (GetOpNameOf t opSuffix) isInverseOp)) (xformOpOrder prim) = true
  \/ primAuthorable prim = false
  \/ exists a, GetAttribute prim (GetOpNameOf t opSuffix) = Some a
               /\ precision_eqb (attrPrecision a) precision = false.
Proof.
  unfold AddXformOp.
  destruct (existsb _ _); [now left|].
  destruct (primAuthorable prim); [|right; now left]. simpl.
  destruct (GetAttribute prim (GetOpNameOf t opSuffix)) as [a|]; [|discriminate].
  destruct (precision_eqb (attrPrecision a) precision) eqn:Hp; [discriminate|].
  intros _. right. right. eauto.
Qed.

Lemma setXformOpOrder_not_written {V} (x x' : UsdPrim V) (r : Result bool) :
  setXformOpOrder x = (r, x') -> r <> Ok true -> x' = x.
Proof.
  rewrite setXformOpOrder_computed. destruct (computedOrder x) as [newOrder|e].
  - unfold SetXformOpOrder. destruct (primAuthorable x); simpl; intros H Hne;
      inversion H; subst; congruence.
  - intros H _. inversion H. reflexivity.
Qed.

(** What the else branch leaves behind, whether it returns or throws, shows
    no forward pivot without its inverse; this holds of the code alone,
    before any rollback. *)
Lemma pivotCreate_pair_ok {V} (pvtOpSuffix : string) (x : UsdPrim V) :
  GetAttribute x (GetOpNameOf TypeTranslate pvtOpSuffix) = None ->
  pivotPairOk pvtOpSuffix (snd (pivotCreate pvtOpSuffix getXformOpOrderFn x)).
Proof.
  intros Hattr. unfold pivotCreate, AddTranslateOp.
  destruct (AddXformOp TypeTranslate PrecisionFloat pvtOpSuffix false x)
    as [[p|] x1] eqn:H1.
  - pose proof (AddXformOp_some _ _ _ _ _ _ _ H1)
      as (-> & Hdef1 & Ho1 & _ & Hauth1 & _ & _ & Hnew & _).
    specialize (Hnew Hattr). simpl in Hnew.
    destruct (AddXformOp TypeTranslate PrecisionFloat pvtOpSuffix true x1)
      as [[pInv|] x2] eqn:H2.
    + pose proof (AddXformOp_some _ _ _ _ _ _ _ H2) as (-> & Hdef2 & Ho2 & _).
      unfold thenSetOrder, getXformOpOrderFn.
      destruct (setXformOpOrder x2) as [r x3] eqn:Hset.
      assert (Hx2 : In (pivotInverseOp pvtOpSuffix) (GetOrderedXformOps x2)).
      { unfold GetOrderedXformOps. apply List.filter_In. split; [|exact Hdef2].
        rewrite Ho2. apply in_or_app. right. now left. }
      destruct r as [[|]|e]; simpl; intros _.
      * exact (proj2 (pivot_pair_in_order _ _ _ _ _ H1 H2 Hset)).
      * rewrite (setXformOpOrder_not_written _ _ _ Hset); [exact Hx2 | discriminate].
      * rewrite (setXformOpOrder_not_written _ _ _ Hset); [exact Hx2 | discriminate].
    + pose proof (AddXformOp_none _ _ _ _ _ _ H2) as ->. simpl. intros _.
      apply AddXformOp_none_cases in H2.
      destruct H2 as [Hex|[Hauth|(a & Ha & Hprec)]].
      * apply listed_with_attr_ordered; [exact Hex | exact Hdef1].
      * congruence.
      * rewrite Hnew in Ha. inversion Ha; subst a. discriminate Hprec.
  - pose proof (AddXformOp_none _ _ _ _ _ _ H1) as ->.
    destruct (AddXformOp TypeTranslate PrecisionFloat pvtOpSuffix true x)
      as [[pInv|] x2] eqn:H2.
    + pose proof (AddXformOp_some _ _ _ _ _ _ _ H2) as (-> & Hdef2 & Ho2 & _).
      simpl. intros _. unfold GetOrderedXformOps. apply List.filter_In.
      split; [|exact Hdef2]. rewrite Ho2. apply in_or_app. right. now left.
    + pose proof (AddXformOp_none _ _ _ _ _ _ H2) as ->. simpl.
      intros Hin. exfalso. revert Hin. apply absent_attr_not_ordered. exact Hattr.
Qed.

(** The op function of pivotCmd on a prim without the pivot attribute. *)
Lemma pivotOpFunc_on_absent {V} (pvtOpSuffix : string) (s : Session V) :
  let pvtAttrName := GetOpNameOf TypeTranslate pvtOpSuffix in
  let r := fst (pivotOpFunc pvtAttrName pvtOpSuffix getXformOpOrderFn s) in
  let s' := snd (pivotOpFunc pvtAttrName pvtOpSuffix getXformOpOrderFn s) in
  let added1 := AddTranslateOp PrecisionFloat pvtOpSuffix false (sPrim s) in
  let added2 := AddTranslateOp PrecisionFloat pvtOpSuffix true (snd added1) in
  sItemIsUsd s = true ->
  GetAttribute (sPrim s) pvtAttrName = None ->
  ((exists x3,
       added1 = (Some (pivotOp pvtOpSuffix), snd added1)
       /\ added2 = (Some (pivotInverseOp pvtOpSuffix), snd added2)
       /\ setXformOpOrder (snd added2) = (Ok true, x3)
       /\ r = Ok (pivotOp pvtOpSuffix)
       /\ s' = mkSession true x3 (sPrim s :: sUndoable s) (x3 :: sNotified s)
                         (sDisplayed s)
       /\ In (pivotOp pvtOpSuffix) (GetOrderedXformOps x3)
       /\ In (pivotInverseOp pvtOpSuffix) (GetOrderedXformOps x3))
   \/ ((exists e, r = Throw e)
       /\ s' = s
       /\ (fst added1 = None \/ fst added2 = None
           \/ fst (setXformOpOrder (snd added2)) <> Ok true)))
  /\ pivotPairOk pvtOpSuffix (sPrim s')
  /\ pivotPairOk pvtOpSuffix (snd (pivotCreate pvtOpSuffix getXformOpOrderFn (sPrim s)))
  /\ (sNotified s' = sNotified s \/ sNotified s' = sPrim s' :: sNotified s).
Proof.
  intros pvtAttrName r s' added1 added2 Hitem Hattr.
  pose proof (pivotCreate_pair_ok pvtOpSuffix (sPrim s) Hattr) as Hraw.
  subst r s'. unfold pivotOpFunc, SceneItemHolder. rewrite Hitem, Hattr.
  unfold inUndoBlockWithGuard.
  destruct (pivotCreate pvtOpSuffix getXformOpOrderFn (sPrim s)) as [[op|e] x'] eqn:Hbody.
  - destruct (pivotCreate_ok _ _ _ _ Hbody) as (x1 & x2 & H1 & H2 & Hset & ->).
    assert (Hx1 : snd added1 = x1) by (subst added1; rewrite H1; reflexivity).
    assert (Hx2 : snd added2 = x2).
    { subst added2. rewrite Hx1, H2. reflexivity. }
    destruct (pivot_pair_in_order _ _ _ _ _ H1 H2 Hset) as [Hin1 Hin2].
    simpl. split; [|split; [|split]].
    + left. exists x'. rewrite Hx2. subst added2. rewrite Hx1, Hitem.
      repeat split; assumption.
    + intros _. exact Hin2.
    + exact Hraw.
    + right. reflexivity.
  - simpl. split; [|split; [|split]].
    + right. split; [eauto|]. split; [reflexivity|].
      exact (pivotCreate_throw _ _ _ _ Hbody).
    + intros Hin. exfalso. revert Hin. apply absent_attr_not_ordered. exact Hattr.
    + exact Hraw.
    + left. reflexivity.
Qed.

(** C2, amended.  When the op function of a pivot command runs on a prim
    that has no attribute of the pivot name, it adds the forward op, then the
    inverse op, then rewrites the order, inside one transaction.  Either all
    three succeed: it returns the forward op, both ops stand in the committed
    order, the transaction is recorded for undo and observers are notified
    once, of the final state.  Or one of them fails: it throws, and the
    session is as it was before the call.  In both cases the prim left to
    readers does not show the forward pivot without its inverse, and neither
    does the prim as the else branch itself leaves it.  When the prim has an
    attribute of the pivot name, whether xformOpOrder lists it or not, the
    function returns a handle on that attribute and creates nothing: the
    session is as it was. *)
Theorem pivot_pair_atomic {V} (pvtOpSuffix : string) (s : Session V) :
  let pvtAttrName := GetOpNameOf TypeTranslate pvtOpSuffix in
  let r := fst (pivotOpFunc pvtAttrName pvtOpSuffix getXformOpOrderFn s) in
  let s' := snd (pivotOpFunc pvtAttrName pvtOpSuffix getXformOpOrderFn s) in
  let added1 := AddTranslateOp PrecisionFloat pvtOpSuffix false (sPrim s) in
  let added2 := AddTranslateOp PrecisionFloat pvtOpSuffix true (snd added1) in
  sItemIsUsd s = true ->
  (GetAttribute (sPrim s) pvtAttrName = None ->
   ((exists x3,
        added1 = (Some (pivotOp pvtOpSuffix), snd added1)
        /\ added2 = (Some (pivotInverseOp pvtOpSuffix), snd added2)
        /\ setXformOpOrder (snd added2) = (Ok true, x3)
        /\ r = Ok (pivotOp pvtOpSuffix)
        /\ s' = mkSession true x3 (sPrim s :: sUndoable s) (x3 :: sNotified s)
                          (sDisplayed s)
        /\ In (pivotOp pvtOpSuffix) (GetOrderedXformOps x3)
        /\ In (pivotInverseOp pvtOpSuffix) (GetOrderedXformOps x3))
    \/ ((exists e, r = Throw e)
        /\ s' = s
        /\ (fst added1 = None \/ fst added2 = None
            \/ fst (setXformOpOrder (snd added2)) <> Ok true)))
   /\ pivotPairOk pvtOpSuffix (sPrim s')
   /\ pivotPairOk pvtOpSuffix (snd (pivotCreate pvtOpSuffix getXformOpOrderFn (sPrim s)))
   /\ (sNotified s' = sNotified s \/ sNotified s' = sPrim s' :: sNotified s))
  /\ (forall a, GetAttribute (sPrim s) pvtAttrName = Some a ->
        r = Ok (pivotOp pvtOpSuffix)
        /\ opAttrName (pivotOp pvtOpSuffix) = pvtAttrName
        /\ s' = s).
Proof.
  intros pvtAttrName r s' added1 added2 Hitem. split.
  - exact (pivotOpFunc_on_absent pvtOpSuffix s Hitem).
  - intros a Ha. subst r s'. unfold pivotOpFunc, SceneItemHolder.
    rewrite Hitem, Ha. simpl. auto.
Qed.

Lemma pivot_pair_atomic_witness :
  sItemIsUsd (sessionOn primEmpty) = true
  /\ GetAttribute (sPrim (sessionOn primEmpty)) (GetOpNameOf TypeTranslate "rotatePivot")
     = None
  /\ pivotPairOk "rotatePivot"
       (sPrim (snd (pivotOpFunc (GetOpNameOf TypeTranslate "rotatePivot") "rotatePivot"
                                getXformOpOrderFn (sessionOn primEmpty))))
  /\ pivotPairOk "rotatePivot"
       (snd (pivotCreate "rotatePivot" getXformOpOrderFn (sPrim (sessionOn primEmpty))))
  /\ sItemIsUsd (sessionOn primPivoted) = true
  /\ GetAttribute (sPrim (sessionOn primPivoted)) (GetOpNameOf TypeTranslate "rotatePivot")
     = Some (plainAttr PrecisionFloat (Some (Some (4, 5, 6))))
  /\ pivotOpFunc (GetOpNameOf TypeTranslate "rotatePivot") "rotatePivot" getXformOpOrderFn
       (sessionOn primPivoted)
     = (Ok (pivotOp "rotatePivot"), sessionOn primPivoted).
Proof.
  assert (H1 : sItemIsUsd (sessionOn primEmpty) = true) by reflexivity.
  assert (H2 : GetAttribute (sPrim (sessionOn primEmpty))
                 (GetOpNameOf TypeTranslate "rotatePivot") = None).
  { vm_compute. reflexivity. }
  assert (H3 : sItemIsUsd (sessionOn primPivoted) = true) by reflexivity.
  assert (H4 : GetAttribute (sPrim (sessionOn primPivoted))
                 (GetOpNameOf TypeTranslate "rotatePivot")
               = Some (plainAttr PrecisionFloat (Some (Some (4, 5, 6))))).
  { vm_compute. reflexivity. }
  split; [exact H1|]. split; [exact H2|].
  destruct (proj1 (pivot_pair_atomic "rotatePivot" (sessionOn primEmpty) H1) H2)
    as (_ & Hpair & Hraw & _).
  split; [exact Hpair|]. split; [exact Hraw|].
  split; [exact H3|]. split; [exact H4|].
  destruct (proj2 (pivot_pair_atomic "rotatePivot" (sessionOn primPivoted) H3) _ H4)
    as (Hr & _ & Hs).
  rewrite (surjective_pairing (pivotOpFunc _ _ _ _)). cbv zeta in Hr, Hs.
  rewrite Hr, Hs. reflexivity.
Defined.

(** C2 as stated fails when the pivot attribute exists on the prim and
    xformOpOrder does not list it: no pivot op is authored, the op function
    returns a handle on the attribute, and neither the forward op nor its
    inverse is created; the session is untouched. *)
Lemma stray_pivot_attribute_creates_no_pair :
  GetOrderedXformOps primStrayPivot = []
  /\ pivotOpFunc (GetOpNameOf TypeTranslate "rotatePivot") "rotatePivot" getXformOpOrderFn
       (sessionOn primStrayPivot)
     = (Ok (pivotOp "rotatePivot"), sessionOn primStrayPivot)
  /\ ~ In (pivotOp "rotatePivot") (GetOrderedXformOps primStrayPivot)
  /\ ~ In (pivotInverseOp "rotatePivot") (GetOrderedXformOps primStrayPivot).
Proof.
  assert (H : GetOrderedXformOps primStrayPivot = []) by (vm_compute; reflexivity).
  split; [exact H|]. split; [vm_compute; reflexivity|].
  rewrite H. split; intros [].
Qed.

Example pivot_pair_created :
  pivotOpFunc (GetOpNameOf TypeTranslate "scalePivot") "scalePivot" getXformOpOrderFn
    (sessionOn primRotateTranslate)
  = (Ok (pivotOp "scalePivot"),
     mkSession true
       (primWith [ ("xformOp:rotateXYZ", plainAttr PrecisionFloat None);
                   ("xformOp:translate", plainAttr PrecisionDouble None);
                   ("xformOp:translate:scalePivot", plainAttr PrecisionFloat None) ]
                 [ opTranslate; opRotateXYZ; pivotOp "scalePivot";
                   pivotInverseOp "scalePivot" ] None)
       [primRotateTranslate]
       [primWith [ ("xformOp:rotateXYZ", plainAttr PrecisionFloat None);
                   ("xformOp:translate", plainAttr PrecisionDouble None);
                   ("xformOp:translate:scalePivot", plainAttr PrecisionFloat None) ]
                 [ opTranslate; opRotateXYZ; pivotOp "scalePivot";
                   pivotInverseOp "scalePivot" ] None]
       []).
Proof. vm_compute. reflexivity. Qed.

(** The inverse cannot be added where xformOpOrder already names it: the
    op function throws and the session is as before. *)
Example pivot_pair_refused :
  pivotOpFunc (GetOpNameOf TypeTranslate "rotatePivot") "rotatePivot" getXformOpOrderFn
    (sessionOn primDanglingInverse)
  = (Throw (RuntimeError "Cannot add translation transform operation"),
     sessionOn primDanglingInverse).
Proof. vm_compute. reflexivity. Qed.

(** * Further properties of the code *)

(** ** setXformOpOrder as a sort *)

Lemma assign_fresh_values (k : OpNdx) (v : UsdGeomXformOp) (m : OpMap.t) :
  OpMap.find k m = None ->
  Permutation (OpMap.values (OpMap.assign k v m)) (v :: OpMap.values m).
Proof.
  unfold OpMap.find, OpMap.values.
  induction m as [|[k' v'] rest IH]; simpl; intros Hnone; [reflexivity|].
  destruct (ndx_eqb k' k) eqn:Hk'; [discriminate|].
  destruct (ndx_ltb k k'); [reflexivity|].
  destruct (ndx_eqb k k') eqn:Hk.
  - apply ndx_eqb_eq in Hk. subst k'. rewrite (proj2 (ndx_eqb_eq k k) eq_refl) in Hk'.
    discriminate.
  - simpl. rewrite (IH Hnone). apply perm_swap.
Qed.

Lemma fill_distinct_permutation (ops : list UsdGeomXformOp) :
  forall m m' positions,
  fillOrderedOps ops m = Ok m' ->
  canonicalPositions ops = Some positions ->
  List.NoDup positions ->
  (forall k, In (ndxValue k) positions -> OpMap.find k m = None) ->
  Permutation (OpMap.values m') (OpMap.values m ++ ops)%list.
Proof.
  induction ops as [|op rest IH]; intros m m' positions Hfill Hpos Hnd Hfresh.
  - simpl in Hfill. inversion Hfill; subst. rewrite app_nil_r. reflexivity.
  - simpl in Hfill, Hpos. rewrite at_find in Hfill.
    destruct (gOpNameToNdx_find (GetOpName op)) as [k|] eqn:Hk; [|discriminate].
    destruct (canonicalPositions rest) as [ps|] eqn:Hps; [|discriminate].
    inversion Hpos; subst positions. inversion Hnd as [|? ? Hnotin Hnd']; subst.
    rewrite (IH _ _ ps Hfill eq_refl Hnd').
    + rewrite (assign_fresh_values k op m); [|apply Hfresh; now left].
      simpl. apply Permutation_middle.
    + intros k2 Hin. rewrite find_assign.
      destruct (ndx_eqb k k2) eqn:Hkk.
      * apply ndx_eqb_eq in Hkk. subst k2. contradiction.
      * apply Hfresh. now right.
Qed.

Lemma canonicalPositions_resolves (ops : list UsdGeomXformOp) (positions : list nat) :
  canonicalPositions ops = Some positions -> Forall resolves ops.
Proof.
  revert positions. induction ops as [|op rest IH]; intros positions H; [constructor|].
  simpl in H. destruct (gOpNameToNdx_find (GetOpName op)) as [k|] eqn:Hk; [|discriminate].
  destruct (canonicalPositions rest) as [ps|]; [|discriminate].
  constructor; [unfold resolves; congruence | eapply IH; reflexivity].
Qed.

(** X1.  When no two authored ops share a canonical position, the order that
    setXformOpOrder computes holds exactly the authored ops: nothing is lost
    and nothing is added. *)
Theorem setXformOpOrder_keeps_distinct_ops {V} (xformable : UsdPrim V)
    (positions : list nat) :
  canonicalPositions (GetOrderedXformOps xformable) = Some positions ->
  List.NoDup positions ->
  exists newOrder,
    computedOrder xformable = Ok newOrder
    /\ Permutation newOrder (GetOrderedXformOps xformable)
    /\ length newOrder = length (GetOrderedXformOps xformable).
Proof.
  intros Hpos Hnd.
  destruct (fill_ok _ (canonicalPositions_resolves _ _ Hpos) OpMap.empty) as [m Hfill].
  exists (OpMap.values m).
  assert (Hperm : Permutation (OpMap.values m) (GetOrderedXformOps xformable)).
  { apply (fill_distinct_permutation _ OpMap.empty m positions Hfill Hpos Hnd).
    intros; reflexivity. }
  split; [unfold computedOrder; rewrite Hfill; reflexivity|].
  split; [exact Hperm | apply Permutation_length; exact Hperm].
Qed.

Lemma positions_of_rotate_translate :
  canonicalPositions (GetOrderedXformOps primRotateTranslate) = Some [4; 0].
Proof. vm_compute. reflexivity. Qed.

Lemma setXformOpOrder_keeps_distinct_ops_witness :
  canonicalPositions (GetOrderedXformOps primRotateTranslate) = Some [4; 0]
  /\ List.NoDup [4; 0]
  /\ exists newOrder,
       computedOrder primRotateTranslate = Ok newOrder
       /\ Permutation newOrder (GetOrderedXformOps primRotateTranslate)
       /\ length newOrder = length (GetOrderedXformOps primRotateTranslate).
Proof.
  assert (Hnd : List.NoDup [4; 0]).
  { constructor; [simpl; intros [H|[]]; discriminate H|].
    constructor; [intros []|constructor]. }
  split; [exact positions_of_rotate_translate|]. split; [exact Hnd|].
  exact (setXformOpOrder_keeps_distinct_ops primRotateTranslate [4; 0]
           positions_of_rotate_translate Hnd).
Defined.

Lemma assign_above_appends (k : OpNdx) (v : UsdGeomXformOp) (m : OpMap.t) :
  Forall (fun e => ndxValue (fst e) < ndxValue k) m ->
  OpMap.assign k v m = (m ++ [(k, v)])%list.
Proof.
  induction 1 as [|[k' v'] rest Hlt _ IH]; simpl; [reflexivity|].
  simpl in Hlt. unfold ndx_ltb, ndx_eqb.
  destruct (Nat.ltb_spec (ndxValue k) (ndxValue k')); [lia|].
  destruct (Nat.eqb_spec (ndxValue k) (ndxValue k')); [lia|].
  rewrite IH. reflexivity.
Qed.

Lemma fill_sorted_appends (ops : list UsdGeomXformOp) :
  forall m m' positions,
  fillOrderedOps ops m = Ok m' ->
  canonicalPositions ops = Some positions ->
  StronglySorted lt positions ->
  (forall e p, In e m -> In p positions -> ndxValue (fst e) < p) ->
  OpMap.values m' = (OpMap.values m ++ ops)%list.
Proof.
  induction ops as [|op rest IH]; intros m m' positions Hfill Hpos Hs Hbelow.
  - simpl in Hfill. inversion Hfill; subst. rewrite app_nil_r. reflexivity.
  - simpl in Hfill, Hpos. rewrite at_find in Hfill.
    destruct (gOpNameToNdx_find (GetOpName op)) as [k|] eqn:Hk; [|discriminate].
    destruct (canonicalPositions rest) as [ps|] eqn:Hps; [|discriminate].
    inversion Hpos; subst positions. inversion Hs as [|? ? Hs' Hall]; subst.
    rewrite assign_above_appends in Hfill.
    2:{ apply List.Forall_forall. intros e He. apply (Hbelow e); [exact He | now left]. }
    rewrite (IH _ _ ps Hfill eq_refl Hs').
    + unfold OpMap.values. rewrite map_app, <- app_assoc. reflexivity.
    + intros e p He Hp. apply in_app_or in He. destruct He as [He|[<-|[]]].
      * apply (Hbelow e); [exact He | now right].
      * simpl. rewrite List.Forall_forall in Hall. apply Hall. exact Hp.
Qed.

Lemma computedOrder_of_sorted {V} (xformable : UsdPrim V) (positions : list nat) :
  canonicalPositions (GetOrderedXformOps xformable) = Some positions ->
  StronglySorted lt positions ->
  computedOrder xformable = Ok (GetOrderedXformOps xformable).
Proof.
  intros Hpos Hs.
  destruct (fill_ok _ (canonicalPositions_resolves _ _ Hpos) OpMap.empty) as [m Hfill].
  unfold computedOrder. rewrite Hfill. f_equal.
  apply (fill_sorted_appends _ OpMap.empty m positions Hfill Hpos Hs).
  intros e p [].
Qed.

(** X2.  An authored list that already stands in canonical order, its positions
    strictly increasing, is the order setXformOpOrder computes: the ops are
    written back in the order they were read. *)
Theorem setXformOpOrder_keeps_canonical_order {V} (xformable : UsdPrim V)
    (positions : list nat) :
  canonicalPositions (GetOrderedXformOps xformable) = Some positions ->
  StronglySorted lt positions ->
  computedOrder xformable = Ok (GetOrderedXformOps xformable).
Proof.
  exact (computedOrder_of_sorted xformable positions).
Qed.

(** X3.  Running setXformOpOrder a second time changes nothing more: it gives
    the same result and leaves the prim as the first run left it, whether the
    first run wrote the order, was refused by the store, or threw. *)
Theorem setXformOpOrder_idempotent {V} (xformable : UsdPrim V) :
  setXformOpOrder (snd (setXformOpOrder xformable))
  = (fst (setXformOpOrder xformable), snd (setXformOpOrder xformable)).
Proof.
  destruct (computedOrder xformable) as [newOrder|e] eqn:Hc.
  2:{ rewrite (setXformOpOrder_computed xformable), Hc. simpl.
      rewrite (setXformOpOrder_computed xformable), Hc. reflexivity. }
  destruct (primAuthorable xformable) eqn:Hauth.
  2:{ rewrite (setXformOpOrder_computed xformable), Hc.
      unfold SetXformOpOrder. rewrite Hauth. simpl.
      rewrite (setXformOpOrder_computed xformable), Hc.
      unfold SetXformOpOrder. rewrite Hauth. reflexivity. }
  destruct (committed_order_read_back xformable newOrder Hc Hauth) as [Hset Hback].
  rewrite Hset in Hback |- *. simpl in Hback |- *.
  set (x' := snd (SetXformOpOrder newOrder (resetsXformStack xformable) xformable)) in *.
  assert (Hres : Forall resolves (GetOrderedXformOps xformable)).
  { unfold computedOrder in Hc.
    destruct (fillOrderedOps (GetOrderedXformOps xformable) OpMap.empty) eqn:Hfill;
      [eapply fill_ok_resolves; exact Hfill | discriminate]. }
  destruct (fill_ok _ Hres OpMap.empty) as [m Hfill].
  assert (Hm : newOrder = OpMap.values m).
  { unfold computedOrder in Hc. rewrite Hfill in Hc. inversion Hc. reflexivity. }
  assert (Hc' : computedOrder x' = Ok newOrder).
  { rewrite <- Hback.
    apply (computedOrder_of_sorted x' (keyValues m)).
    - rewrite Hback, Hm. apply positions_of_values.
      eapply fill_resolved; [exact Hfill | constructor].
    - apply Sorted_StronglySorted; [exact lt_transitive|].
      eapply fill_sorted; [exact Hfill | constructor]. }
  rewrite (setXformOpOrder_computed x'), Hc'.
  subst x'. unfold SetXformOpOrder. rewrite Hauth. simpl. rewrite ?Hauth. reflexivity.
Qed.

Lemma setXformOpOrder_keeps_canonical_order_witness :
  GetOrderedXformOps primTranslateRotateScale
  = [ opTranslate; opRotateXYZ; mkXformOp "xformOp:scale" false ]
  /\ canonicalPositions (GetOrderedXformOps primTranslateRotateScale) = Some [0; 4; 10]
  /\ StronglySorted lt [0; 4; 10]
  /\ computedOrder primTranslateRotateScale
     = Ok (GetOrderedXformOps primTranslateRotateScale).
Proof.
  assert (H : canonicalPositions (GetOrderedXformOps primTranslateRotateScale)
              = Some [0; 4; 10]).
  { vm_compute. reflexivity. }
  assert (Hs : StronglySorted lt [0; 4; 10]).
  { repeat (constructor; try lia). }
  split; [vm_compute; reflexivity|]. split; [exact H|]. split; [exact Hs|].
  exact (setXformOpOrder_keeps_canonical_order primTranslateRotateScale [0; 4; 10] H Hs).
Defined.

Lemma fill_throw_is_out_of_range (ops : list UsdGeomXformOp) :
  forall m e, fillOrderedOps ops m = Throw e -> e = OutOfRange /\ ~ Forall resolves ops.
Proof.
  induction ops as [|op rest IH]; intros m e Hfill; simpl in Hfill; [discriminate|].
  rewrite at_find in Hfill.
  destruct (gOpNameToNdx_find (GetOpName op)) as [k|] eqn:Hk.
  - destruct (IH _ _ Hfill) as [-> Hnot]. split; [reflexivity|].
    intros Hall. inversion Hall; subst. contradiction.
  - inversion Hfill; subst. split; [reflexivity|].
    intros Hall. inversion Hall as [|? ? Hop _]; subst. unfold resolves in Hop. congruence.
Qed.

(** X4.  setXformOpOrder throws exactly when the name of an authored op is not a
    key of gOpNameToNdx, and what it throws is std::out_of_range; it reports
    success exactly when every name resolves and the store takes the write.
    Unless it reports success the prim is untouched, and in no case does it
    change an attribute or the reset flag. *)
Theorem setXformOpOrder_outcomes {V} (xformable : UsdPrim V) :
  (forall e, fst (setXformOpOrder xformable) = Throw e -> e = OutOfRange)
  /\ (fst (setXformOpOrder xformable) = Throw OutOfRange
      <-> ~ Forall resolves (GetOrderedXformOps xformable))
  /\ (fst (setXformOpOrder xformable) = Ok true
      <-> Forall resolves (GetOrderedXformOps xformable)
          /\ primAuthorable xformable = true)
  /\ (fst (setXformOpOrder xformable) <> Ok true ->
      snd (setXformOpOrder xformable) = xformable)
  /\ primAttrs (snd (setXformOpOrder xformable)) = primAttrs xformable
  /\ resetsXformStack (snd (setXformOpOrder xformable)) = resetsXformStack xformable.
Proof.
  unfold setXformOpOrder.
  destruct (fillOrderedOps (GetOrderedXformOps xformable) OpMap.empty) as [m|e] eqn:Hfill.
  - pose proof (fill_ok_resolves _ _ _ Hfill) as Hres.
    unfold SetXformOpOrder. destruct (primAuthorable xformable); simpl.
    + repeat split; try discriminate; auto; intros; contradiction.
    + repeat split; try discriminate; auto; try (intros; contradiction).
      intros [_ H]. discriminate H.
  - destruct (fill_throw_is_out_of_range _ _ _ Hfill) as [-> Hnot]. simpl.
    repeat split; auto; try discriminate.
    + intros e H. inversion H. reflexivity.
    + intros [H _]. contradiction.
Qed.

Lemma setXformOpOrder_outcomes_witness :
  ~ Forall resolves (GetOrderedXformOps primMatrix)
  /\ fst (setXformOpOrder primMatrix) = Throw OutOfRange
  /\ snd (setXformOpOrder primMatrix) = primMatrix
  /\ fst (setXformOpOrder primRotateTranslate) = Ok true.
Proof.
  assert (Hnot : ~ Forall resolves (GetOrderedXformOps primMatrix)).
  { intros H. vm_compute in H. inversion H as [|? ? Hop _]; subst. apply Hop. reflexivity. }
  assert (Hres : Forall resolves (GetOrderedXformOps primRotateTranslate)).
  { apply resolvesb_Forall. vm_compute. reflexivity. }
  destruct (setXformOpOrder_outcomes primMatrix) as (_ & Hthrow & _ & Hsame & _).
  destruct (setXformOpOrder_outcomes primRotateTranslate) as (_ & _ & Hok & _).
  split; [exact Hnot|].
  split; [apply Hthrow; exact Hnot|].
  split; [apply Hsame; rewrite (proj2 Hthrow Hnot); discriminate|].
  apply Hok. split; [exact Hres | reflexivity].
Defined.

(** ** hasOp and getOp *)

(** X5.  getOp returns exactly where hasOp says yes: the op it returns stands in
    the authored list and its name resolves to the position asked for; where
    hasOp says no, getOp throws std::out_of_range; and where hasOp throws,
    getOp throws the same. *)
Theorem getOp_agrees_with_hasOp {V} (prim : UsdPrim V) (ndx : OpNdx) :
  (hasOp prim ndx = Ok true ->
     exists op, getOp prim ndx = Ok op
       /\ In op (GetOrderedXformOps prim)
       /\ gOpNameToNdx_find (GetOpName op) = Some ndx
       /\ opHasAttr prim op = true)
  /\ (hasOp prim ndx = Ok false -> getOp prim ndx = Throw OutOfRange)
  /\ (forall e, hasOp prim ndx = Throw e -> getOp prim ndx = Throw e).
Proof.
  unfold hasOp, getOp, getOrderedOps.
  destruct (fillOrderedOps (GetOrderedXformOps prim) OpMap.empty) as [m|e] eqn:Hfill.
  - unfold OpMap.at_, table_at. change (table_find ndx_eqb ndx m) with (OpMap.find ndx m).
    destruct (OpMap.find ndx m) as [op|] eqn:Hfind.
    + split; [|split; [discriminate | discriminate]].
      intros _. exists op. split; [reflexivity|].
      assert (Hin : In op (GetOrderedXformOps prim)).
      { destruct (fill_values_from _ _ _ Hfill op (find_in_values _ _ _ Hfind)) as [H|[]].
        exact H. }
      split; [exact Hin|]. split; [|apply ordered_ops_have_attr; exact Hin].
      assert (Hr : Forall entryResolved m).
      { eapply fill_resolved; [exact Hfill | constructor]. }
      rewrite List.Forall_forall in Hr. exact (Hr (ndx, op) (find_In _ _ _ Hfind)).
    + split; [discriminate|]. split; [reflexivity | discriminate].
  - split; [discriminate|]. split; [discriminate|].
    intros e0 H. inversion H. reflexivity.
Qed.

Lemma getOp_agrees_with_hasOp_witness :
  hasOp primTwoRotates NdxRotate = Ok true
  /\ hasOp primTwoRotates NdxScale = Ok false
  /\ getOp primTwoRotates NdxScale = Throw OutOfRange
  /\ exists op, getOp primTwoRotates NdxRotate = Ok op
       /\ In op (GetOrderedXformOps primTwoRotates)
       /\ gOpNameToNdx_find (GetOpName op) = Some NdxRotate
       /\ opHasAttr primTwoRotates op = true.
Proof.
  assert (H1 : hasOp primTwoRotates NdxRotate = Ok true) by (vm_compute; reflexivity).
  assert (H2 : hasOp primTwoRotates NdxScale = Ok false) by (vm_compute; reflexivity).
  split; [exact H1|]. split; [exact H2|].
  split; [exact (proj1 (proj2 (getOp_agrees_with_hasOp primTwoRotates NdxScale)) H2)|].
  exact (proj1 (getOp_agrees_with_hasOp primTwoRotates NdxRotate) H1).
Defined.

(** ** The name table *)

Ltac refute_keys H :=
  repeat match type of H with
  | context [String.eqb ?key ?name] =>
      let E := fresh "E" in
      destruct (String.eqb_spec key name) as [E|_];
      [exfalso; vm_compute in E; congruence|]
  end.

Lemma inverse_key_forward (name : string) (k : OpNdx) :
  gOpNameToNdx_find ("!invert!" ++ name) = Some k -> In (name, k) inverseKeys.
Proof.
  intros H. unfold inverseKeys.
  destruct (String.eqb_spec name "xformOp:translate:rotatePivot") as [->|N1].
  { vm_compute in H. inversion H. simpl. tauto. }
  destruct (String.eqb_spec name "xformOp:translate:scalePivot") as [->|N2].
  { vm_compute in H. inversion H. simpl. tauto. }
  destruct (String.eqb_spec name "xformOp:translate:pivot") as [->|N3].
  { vm_compute in H. inversion H. simpl. tauto. }
  exfalso. unfold gOpNameToNdx_find, gOpNameToNdx in H. cbn [table_find] in H.
  refute_keys H. discriminate H.
Qed.

(** X6.  Outside the rotate position a canonical position has one op name only,
    every position has a name, and an inverse name is a key only beside its
    forward name, which resolves to another position. *)
Theorem gOpNameToNdx_names (n1 n2 : string) (k : OpNdx) :
  (gOpNameToNdx_find n1 = Some k -> gOpNameToNdx_find n2 = Some k ->
     k <> NdxRotate -> n1 = n2)
  /\ existsb (fun entry => ndx_eqb (snd entry) k) gOpNameToNdx = true
  /\ (gOpNameToNdx_find ("!invert!" ++ n1) = Some k ->
      In (n1, k) inverseKeys
      /\ exists forward, gOpNameToNdx_find n1 = Some forward /\ forward <> k).
Proof.
  split; [|split].
  - intros H1 H2 Hk.
    unfold gOpNameToNdx_find, gOpNameToNdx in H1, H2. cbn [table_find] in H1, H2.
    table_cases H1; try discriminate H1; inversion H1; subst;
      try (exfalso; apply Hk; reflexivity);
      table_cases H2; try discriminate H2; reflexivity.
  - destruct k; reflexivity.
  - intros H. pose proof (inverse_key_forward n1 k H) as Hin.
    split; [exact Hin|].
    unfold inverseKeys in Hin. simpl in Hin.
    destruct Hin as [E|[E|[E|[]]]]; inversion E; subst;
      eexists; (split; [reflexivity | discriminate]).
Qed.

Lemma gOpNameToNdx_names_witness :
  gOpNameToNdx_find "xformOp:scale" = Some NdxScale
  /\ NdxScale <> NdxRotate
  /\ gOpNameToNdx_find ("!invert!" ++ "xformOp:translate:pivot") = Some NdxPivotInverse
  /\ "xformOp:scale" = "xformOp:scale"
  /\ exists forward, gOpNameToNdx_find "xformOp:translate:pivot" = Some forward
                     /\ forward <> NdxPivotInverse.
Proof.
  assert (H1 : gOpNameToNdx_find "xformOp:scale" = Some NdxScale) by reflexivity.
  assert (H2 : NdxScale <> NdxRotate) by discriminate.
  assert (H3 : gOpNameToNdx_find ("!invert!" ++ "xformOp:translate:pivot")
               = Some NdxPivotInverse) by reflexivity.
  split; [exact H1|]. split; [exact H2|]. split; [exact H3|].
  split.
  - exact (proj1 (gOpNameToNdx_names "xformOp:scale" "xformOp:scale" NdxScale) H1 H1 H2).
  - exact (proj2 (proj2 (proj2 (gOpNameToNdx_names "xformOp:translate:pivot" ""
                                   NdxPivotInverse)) H3)).
Defined.

(** ** The gate on resolvable lists *)

Lemma resolved_op_has_valid_suffix (op : UsdGeomXformOp) :
  resolves op -> gOpNameToNdx_find (GetName op) <> None.
Proof.
  unfold resolves, GetOpName, GetName. destruct op as [name inverse]. simpl.
  destruct inverse; [|tauto].
  destruct (gOpNameToNdx_find ("!invert!" ++ name)) as [k|] eqn:Hk; [|tauto].
  intros _. apply inverse_key_forward in Hk. unfold inverseKeys in Hk. simpl in Hk.
  destruct Hk as [E|[E|[E|[]]]]; inversion E; subst; discriminate.
Qed.

Lemma hasValidSuffix_true (xformOps : list UsdGeomXformOp) :
  hasValidSuffix xformOps = true <->
  Forall (fun op => gOpNameToNdx_find (GetName op) <> None) xformOps.
Proof.
  induction xformOps as [|op rest IH]; simpl.
  - split; [constructor | reflexivity].
  - destruct (gOpNameToNdx_find (GetName op)) eqn:Hop.
    + rewrite IH. split; [intros H; constructor; [simpl; congruence | exact H]|].
      intros H. inversion H; assumption.
    + split; [intros H; discriminate H|]. intros H. inversion H; subst. simpl in *. congruence.
Qed.

(** X7.  hasValidSuffix accepts every list that setXformOpOrder can sort: when
    all op names resolve, all attribute names do.  On such a list, unless it
    is empty, the gate's answer is MatchingSubstack's alone. *)
Theorem resolvable_list_passes_hasValidSuffix (env : Env) {T}
    (prim : UsdPrim (VtValue env)) (nextTransform3dFn : unit -> T) :
  Forall resolves (GetOrderedXformOps prim) ->
  hasValidSuffix (GetOrderedXformOps prim) = true
  /\ (GetOrderedXformOps prim <> [] ->
      createTransform3d env (UsdSceneItem (Xformable prim)) nextTransform3dFn
      = Ok (if isEmpty (MatchingSubstack env (GetOrderedXformOps prim))
            then FromNextHandler (nextTransform3dFn tt)
            else MayaXformStackFor prim)).
Proof.
  intros Hres.
  assert (Hvalid : hasValidSuffix (GetOrderedXformOps prim) = true).
  { apply hasValidSuffix_true. eapply List.Forall_impl; [|exact Hres].
    intros op. apply resolved_op_has_valid_suffix. }
  split; [exact Hvalid|].
  intros Hne. unfold createTransform3d. rewrite Hvalid.
  destruct (GetOrderedXformOps prim) as [|op rest]; [contradiction|].
  simpl. destruct (MatchingSubstack env (op :: rest)); reflexivity.
Qed.

Lemma resolvable_list_passes_hasValidSuffix_witness :
  Forall resolves (GetOrderedXformOps primTwoRotates)
  /\ GetOrderedXformOps primTwoRotates <> []
  /\ hasValidSuffix (GetOrderedXformOps primTwoRotates) = true
  /\ createTransform3d exampleEnv (UsdSceneItem (Xformable primTwoRotates)) (fun _ => 7)
     = Ok (MayaXformStackFor primTwoRotates).
Proof.
  assert (H1 : Forall resolves (GetOrderedXformOps primTwoRotates)).
  { apply resolvesb_Forall. vm_compute. reflexivity. }
  assert (H2 : GetOrderedXformOps primTwoRotates <> []).
  { vm_compute. discriminate. }
  destruct (resolvable_list_passes_hasValidSuffix exampleEnv primTwoRotates (fun _ => 7) H1)
    as [Hv Hgate].
  split; [exact H1|]. split; [exact H2|]. split; [exact Hv|].
  rewrite (Hgate H2). vm_compute. reflexivity.
Defined.

(** ** How rotation() and scale() end *)

Lemma resolves_or_not {V} (prim : UsdPrim V) :
  Forall resolves (GetOrderedXformOps prim) \/ ~ Forall resolves (GetOrderedXformOps prim).
Proof.
  destruct (fillOrderedOps (GetOrderedXformOps prim) OpMap.empty) as [m|e] eqn:Hfill.
  - left. eapply fill_ok_resolves. exact Hfill.
  - right. exact (proj2 (fill_throw_is_out_of_range _ _ _ Hfill)).
Qed.

Lemma rotation_on_resolvable (env : Env) (prim : UsdPrim (VtValue env)) :
  Forall resolves (GetOrderedXformOps prim) ->
  let orientWithValue :=
    exists r, lastAt NdxRotate (GetOrderedXformOps prim) = Some r
              /\ GetOpName r = "xformOp:orient" /\ opHasValue prim r = true in
  ((exists v, rotation env prim = Ok v) /\ ~ orientWithValue)
  \/ (rotation env prim = Throw UnsupportedEncoding /\ orientWithValue).
Proof.
  intros Hres orientWithValue. subst orientWithValue.
  rewrite (rotation_unfold env prim Hres).
  destruct (lastAt NdxRotate (GetOrderedXformOps prim)) as [r|] eqn:Hlast.
  2:{ left. split; [eauto|]. intros (r0 & Hr0 & _). discriminate Hr0. }
  pose proof (rotate_position_names _ (lastAt_resolves _ _ _ Hlast)) as Hname.
  destruct (opHasValue prim r) eqn:Hval; simpl.
  2:{ left. split; [eauto|]. intros (r0 & Hr0 & _ & Hv). inversion Hr0; subst. congruence. }
  destruct (cvtFrom_by_name env _ Hname) as [[Hor Hcvt]|[Hnor [f Hcvt]]]; rewrite Hcvt; simpl.
  - right. split; [reflexivity|]. exists r. auto.
  - left. split; [eauto|]. intros (r0 & Hr0 & Hor & _). inversion Hr0; subst. contradiction.
Qed.

Lemma scale_on_resolvable (env : Env) (prim : UsdPrim (VtValue env)) :
  Forall resolves (GetOrderedXformOps prim) -> exists v, scale env prim = Ok v.
Proof.
  intros Hres. rewrite (scale_unfold env prim Hres).
  destruct (lastAt NdxScale (GetOrderedXformOps prim)) as [s|]; [|eauto].
  destruct (negb (opHasValue prim s)); eauto.
Qed.

(** X8.  rotation() throws std::out_of_range exactly when an authored op name
    is not a key of gOpNameToNdx, and ends in the call of a null converter
    exactly when every name resolves and the rotate op is an xformOp:orient
    with a value; it fails in no other way.  scale() returns exactly when
    every name resolves, and throws nothing but std::out_of_range. *)
Theorem rotation_scale_outcomes (env : Env) (prim : UsdPrim (VtValue env)) :
  (rotation env prim = Throw OutOfRange
   <-> ~ Forall resolves (GetOrderedXformOps prim))
  /\ (rotation env prim = Throw UnsupportedEncoding
      <-> Forall resolves (GetOrderedXformOps prim)
          /\ exists r, lastAt NdxRotate (GetOrderedXformOps prim) = Some r
                       /\ GetOpName r = "xformOp:orient"
                       /\ opHasValue prim r = true)
  /\ (forall e, rotation env prim = Throw e -> e = OutOfRange \/ e = UnsupportedEncoding)
  /\ (returns (scale env prim) = true <-> Forall resolves (GetOrderedXformOps prim))
  /\ (forall e, scale env prim = Throw e -> e = OutOfRange).
Proof.
  destruct (resolves_or_not prim) as [Hres|Hnot].
  - destruct (scale_on_resolvable env prim Hres) as [sv Hs]. rewrite Hs.
    destruct (rotation_on_resolvable env prim Hres) as [[[v Hr] Hno]|[Hr Hyes]];
      rewrite Hr.
    + split; [split; [discriminate | intros; contradiction]|].
      split; [split; [discriminate | intros [_ H]; contradiction]|].
      split; [discriminate|].
      split; [split; [intros; exact Hres | reflexivity]|]. discriminate.
    + split; [split; [discriminate | intros; contradiction]|].
      split; [split; [intros; split; assumption | reflexivity]|].
      split; [intros e H; inversion H; auto|].
      split; [split; [intros; exact Hres | reflexivity]|]. discriminate.
  - assert (Hr : rotation env prim = Throw OutOfRange).
    { unfold rotation. rewrite (hasOp_throws prim NdxRotate Hnot). reflexivity. }
    assert (Hs : scale env prim = Throw OutOfRange).
    { unfold scale. rewrite (hasOp_throws prim NdxScale Hnot). reflexivity. }
    rewrite Hr, Hs.
    split; [split; [intros; exact Hnot | reflexivity]|].
    split; [split; [discriminate | intros [H _]; contradiction]|].
    split; [intros e H; inversion H; auto|].
    split; [split; [discriminate | intros; contradiction]|].
    intros e H. inversion H. reflexivity.
Qed.

Lemma rotation_scale_outcomes_witness :
  ~ Forall resolves (GetOrderedXformOps primMatrix)
  /\ rotation exampleEnv primMatrix = Throw OutOfRange
  /\ Forall resolves (GetOrderedXformOps primRotated)
  /\ returns (scale exampleEnv primRotated) = true.
Proof.
  assert (Hnot : ~ Forall resolves (GetOrderedXformOps primMatrix)).
  { intros H. vm_compute in H. inversion H as [|? ? Hop _]; subst. apply Hop. reflexivity. }
  assert (Hres : Forall resolves (GetOrderedXformOps primRotated)).
  { apply resolvesb_Forall. vm_compute. reflexivity. }
  destruct (rotation_scale_outcomes exampleEnv primMatrix) as (Hthrow & _).
  destruct (rotation_scale_outcomes exampleEnv primRotated) as (_ & _ & _ & Hscale & _).
  split; [exact Hnot|]. split; [apply Hthrow; exact Hnot|].
  split; [exact Hres|]. apply Hscale. exact Hres.
Defined.

(** ** What the factories do and do not do *)

Lemma setVector3dCmd_only_displays (env : Env) (precisionOfV : Precision)
    (v : VtValue env) (attrName opSuffix : string) (s : Session (VtValue env)) :
  factoryOnlyDisplays s (setVector3dCmd env precisionOfV v attrName opSuffix s).
Proof.
  unfold factoryOnlyDisplays, setVector3dCmd.
  destruct (isAttributeEditAllowed (sPrim s) attrName "") as [[|] errMsg]; simpl; eauto.
Qed.

Lemma pivotCmd_only_displays (env : Env) (pvtOpSuffix : string) (x y z : double env)
    (s : Session (VtValue env)) :
  factoryOnlyDisplays s (pivotCmd env pvtOpSuffix x y z s).
Proof.
  unfold factoryOnlyDisplays, pivotCmd.
  destruct (isAttributeEditAllowed (sPrim s) _ "") as [[|] errMsg]; simpl; eauto.
Qed.

(** X9.  No factory touches the prim, the undoable item or the notifications,
    whatever it returns or throws: the session is as before, except that a
    factory returning the null command has displayed one message.  Ops are
    created only later, by the op function of the command. *)
Theorem factories_only_display (env : Env) (x y z : double env)
    (s : Session (VtValue env)) :
  factoryOnlyDisplays s (translateCmd env x y z s)
  /\ factoryOnlyDisplays s (rotateCmd env x y z s)
  /\ factoryOnlyDisplays s (scaleCmd env x y z s)
  /\ factoryOnlyDisplays s (rotatePivotCmd env x y z s)
  /\ factoryOnlyDisplays s (scalePivotCmd env x y z s)
  /\ factoryOnlyDisplays s (translateRotatePivotCmd env x y z s)
  /\ factoryOnlyDisplays s (translateScalePivotCmd env x y z s)
  /\ (forall precisionOfV v attrName opSuffix,
        factoryOnlyDisplays s (setVector3dCmd env precisionOfV v attrName opSuffix s))
  /\ (forall pvtOpSuffix, factoryOnlyDisplays s (pivotCmd env pvtOpSuffix x y z s)).
Proof.
  split; [apply setVector3dCmd_only_displays|].
  split.
  { unfold factoryOnlyDisplays, rotateCmd.
    destruct (opAndAttrName (sPrim s) NdxRotate) as [[op attrName]|e]; [|reflexivity].
    destruct (isAttributeEditAllowed (sPrim s) attrName "") as [[|] errMsg]; simpl; [|eauto].
    destruct op as [o|]; [|reflexivity].
    destruct (getCvtRotXYZToAttrFn env (GetOpName o)); reflexivity. }
  split.
  { unfold factoryOnlyDisplays, scaleCmd.
    destruct (opAndAttrName (sPrim s) NdxScale) as [[op attrName]|e]; [|reflexivity].
    destruct (isAttributeEditAllowed (sPrim s) attrName "") as [[|] errMsg]; simpl; eauto. }
  split.
  { unfold rotatePivotCmd. destruct (getOpSuffix env NdxRotatePivot);
      [apply pivotCmd_only_displays | reflexivity]. }
  split.
  { unfold scalePivotCmd. destruct (getOpSuffix env NdxScalePivot);
      [apply pivotCmd_only_displays | reflexivity]. }
  split.
  { unfold translateRotatePivotCmd. destruct (getOpSuffix env NdxRotatePivotTranslate);
      [apply setVector3dCmd_only_displays | reflexivity]. }
  split.
  { unfold translateScalePivotCmd. destruct (getOpSuffix env NdxScalePivotTranslate);
      [apply setVector3dCmd_only_displays | reflexivity]. }
  split; [intros; apply setVector3dCmd_only_displays|].
  intros; apply pivotCmd_only_displays.
Qed.

Lemma cvtTo_by_name (env : Env) (name : string) :
  In name rotateOpNames ->
  (name = "xformOp:orient" /\ getCvtRotXYZToAttrFn env name = Ok None)
  \/ (name <> "xformOp:orient"
      /\ exists f, getCvtRotXYZToAttrFn env name = Ok (Some f)).
Proof.
  unfold rotateOpNames. simpl. intros H.
  repeat (destruct H as [<-|H];
          [first [left; split; reflexivity
                 | right; split; [discriminate | eexists; reflexivity]]|]).
  destruct H.
Qed.

(** X10.  On a prim whose authored op names all resolve, rotateCmd and scaleCmd
    never throw.  When the edit is allowed, rotateCmd returns a command that
    holds no op yet, the value as a GfVec3f, and as converter the entry of
    getCvtRotXYZToAttrFn for the name of the rotate op the prim has, or
    toXYZ when it has none; that converter is empty only for xformOp:orient.
    scaleCmd likewise returns a vector command that holds no op yet. *)
Theorem rotate_scale_factories_on_resolvable (env : Env) (x y z : double env)
    (s : Session (VtValue env)) :
  Forall resolves (GetOrderedXformOps (sPrim s)) ->
  returns (fst (rotateCmd env x y z s)) = true
  /\ returns (fst (scaleCmd env x y z s)) = true
  /\ (fst (isAttributeEditAllowed (sPrim s) (slotAttrName (sPrim s) NdxRotate) "") = true ->
      exists cvt,
        rotateCmd env x y z s
        = (Ok (Some (UsdRotateOpUndoableCmd
                       (mkCmdBase (vtVec3f env x y z) None
                          (rotateOpFunc (slotAttrName (sPrim s) NdxRotate) getTRSOpSuffix
                                        getXformOpOrderFn))
                       cvt)), s)
        /\ (lastAt NdxRotate (GetOrderedXformOps (sPrim s)) = None ->
            cvt = Some (toXYZ env))
        /\ (forall r, lastAt NdxRotate (GetOrderedXformOps (sPrim s)) = Some r ->
              getCvtRotXYZToAttrFn env (GetOpName r) = Ok cvt
              /\ (cvt = None <-> GetOpName r = "xformOp:orient")))
  /\ (fst (isAttributeEditAllowed (sPrim s) (slotAttrName (sPrim s) NdxScale) "") = true ->
      scaleCmd env x y z s
      = (Ok (Some (UsdVecOpUndoableCmd PrecisionFloat
                     (mkCmdBase (vtVec3f env x y z) None
                        (scaleOpFunc (slotAttrName (sPrim s) NdxScale) getTRSOpSuffix
                                     getXformOpOrderFn)))), s)).
Proof.
  intros Hres.
  assert (Hrot : forall (allowed : bool) errMsg,
            isAttributeEditAllowed (sPrim s) (slotAttrName (sPrim s) NdxRotate) ""
            = (allowed, errMsg) ->
            returns (fst (rotateCmd env x y z s)) = true
            /\ (allowed = true ->
                exists cvt,
                  rotateCmd env x y z s
                  = (Ok (Some (UsdRotateOpUndoableCmd
                                 (mkCmdBase (vtVec3f env x y z) None
                                    (rotateOpFunc (slotAttrName (sPrim s) NdxRotate)
                                                  getTRSOpSuffix getXformOpOrderFn))
                                 cvt)), s)
                  /\ (lastAt NdxRotate (GetOrderedXformOps (sPrim s)) = None ->
                      cvt = Some (toXYZ env))
                  /\ (forall r, lastAt NdxRotate (GetOrderedXformOps (sPrim s)) = Some r ->
                        getCvtRotXYZToAttrFn env (GetOpName r) = Ok cvt
                        /\ (cvt = None <-> GetOpName r = "xformOp:orient")))).
  { intros allowed errMsg Hallowed. unfold rotateCmd.
    rewrite (opAndAttrName_lastAt _ NdxRotate Hres), Hallowed.
    destruct allowed; simpl; [|split; [reflexivity | discriminate]].
    destruct (lastAt NdxRotate (GetOrderedXformOps (sPrim s))) as [r|] eqn:Hlast.
    - pose proof (rotate_position_names _ (lastAt_resolves _ _ _ Hlast)) as Hname.
      destruct (cvtTo_by_name env _ Hname) as [[Hor Hcvt]|[Hnor [f Hcvt]]]; rewrite Hcvt.
      + split; [reflexivity|]. intros _. exists None. split; [reflexivity|].
        split; [discriminate|]. intros r0 Hr0. inversion Hr0; subst r0.
        split; [exact Hcvt | tauto].
      + split; [reflexivity|]. intros _. exists (Some f). split; [reflexivity|].
        split; [discriminate|]. intros r0 Hr0. inversion Hr0; subst r0.
        split; [exact Hcvt|]. split; [discriminate | contradiction].
    - split; [reflexivity|]. intros _. exists (Some (toXYZ env)).
      split; [reflexivity|]. split; [reflexivity|]. intros r0 Hr0. discriminate Hr0. }
  destruct (isAttributeEditAllowed (sPrim s) (slotAttrName (sPrim s) NdxRotate) "")
    as [allowedR msgR] eqn:HR.
  destruct (Hrot allowedR msgR eq_refl) as [Hret Hcmd].
  split; [exact Hret|].
  assert (Hsc : scaleCmd env x y z s
                = let '(allowed, errMsg) :=
                    isAttributeEditAllowed (sPrim s) (slotAttrName (sPrim s) NdxScale) "" in
                  if negb allowed then (Ok None, displayError errMsg s)
                  else (Ok (Some (UsdVecOpUndoableCmd PrecisionFloat
                                    (mkCmdBase (vtVec3f env x y z) None
                                       (scaleOpFunc (slotAttrName (sPrim s) NdxScale)
                                                    getTRSOpSuffix getXformOpOrderFn)))), s)).
  { unfold scaleCmd. rewrite (opAndAttrName_lastAt _ NdxScale Hres). reflexivity. }
  rewrite Hsc.
  destruct (isAttributeEditAllowed (sPrim s) (slotAttrName (sPrim s) NdxScale) "")
    as [[|] msgS]; simpl.
  - split; [reflexivity|]. split; [exact Hcmd | reflexivity].
  - split; [reflexivity|]. split; [exact Hcmd | discriminate].
Qed.

Lemma rotate_scale_factories_on_resolvable_witness :
  Forall resolves (GetOrderedXformOps (sPrim (sessionOn primRotated)))
  /\ fst (isAttributeEditAllowed primRotated (slotAttrName primRotated NdxRotate) "") = true
  /\ returns (fst (rotateCmd exampleEnv 1 2 3 (sessionOn primRotated))) = true
  /\ exists cvt,
       rotateCmd exampleEnv 1 2 3 (sessionOn primRotated)
       = (Ok (Some (UsdRotateOpUndoableCmd
                      (mkCmdBase (vtVec3f exampleEnv 1 2 3) None
                         (rotateOpFunc (slotAttrName primRotated NdxRotate) getTRSOpSuffix
                                       getXformOpOrderFn))
                      cvt)), sessionOn primRotated)
       /\ getCvtRotXYZToAttrFn exampleEnv (GetOpName opRotateXYZ) = Ok cvt.
Proof.
  assert (H1 : Forall resolves (GetOrderedXformOps (sPrim (sessionOn primRotated)))).
  { apply resolvesb_Forall. vm_compute. reflexivity. }
  assert (H2 : fst (isAttributeEditAllowed primRotated
                      (slotAttrName primRotated NdxRotate) "") = true).
  { vm_compute. reflexivity. }
  destruct (rotate_scale_factories_on_resolvable exampleEnv 1 2 3 (sessionOn primRotated) H1)
    as (Hret & _ & Hcmd & _).
  split; [exact H1|]. split; [exact H2|]. split; [exact Hret|].
  destruct (Hcmd H2) as (cvt & Heq & _ & Hcvt).
  exists cvt. split; [exact Heq|].
  apply (Hcvt opRotateXYZ). vm_compute. reflexivity.
Defined.

(** ** Reusing an op that exists *)

Lemma resolved_name_not_empty (name : string) (k : OpNdx) :
  gOpNameToNdx_find name = Some k -> name <> "".
Proof. intros H ->. vm_compute in H. discriminate H. Qed.

Lemma forward_position_op (op : UsdGeomXformOp) (k : OpNdx) :
  gOpNameToNdx_find (GetOpName op) = Some k ->
  ~ In k [NdxRotatePivotInverse; NdxScalePivotInverse; NdxPivotInverse] ->
  op = mkXformOp (GetOpName op) false.
Proof.
  destruct op as [name inverse]. unfold GetOpName. simpl.
  destruct inverse; [|reflexivity].
  intros H Hk. exfalso. apply Hk. apply inverse_key_forward in H.
  unfold inverseKeys in H. simpl in H.
  destruct H as [E|[E|[E|[]]]]; inversion E; simpl; tauto.
Qed.

Lemma lastAt_member (k : OpNdx) (ops : list UsdGeomXformOp) (op : UsdGeomXformOp) :
  lastAt k ops = Some op -> In op ops.
Proof.
  intros H. destruct (lastAt_spec _ _ _ H) as (pre & post & -> & _).
  apply in_or_app. right. now left.
Qed.

Lemma slot_op_found {V} (prim : UsdPrim V) (k : OpNdx) (op : UsdGeomXformOp) :
  lastAt k (GetOrderedXformOps prim) = Some op ->
  ~ In k [NdxRotatePivotInverse; NdxScalePivotInverse; NdxPivotInverse] ->
  op = mkXformOp (GetOpName op) false
  /\ exists a, getUsdPrimAttribute prim (GetOpName op) = Some a.
Proof.
  intros Hlast Hk.
  pose proof (lastAt_resolves _ _ _ Hlast) as Hres.
  pose proof (forward_position_op op k Hres Hk) as Hop.
  split; [exact Hop|].
  pose proof (ordered_ops_have_attr prim op (lastAt_member _ _ _ Hlast)) as Hattr.
  unfold opHasAttr in Hattr. unfold getUsdPrimAttribute.
  apply resolved_name_not_empty in Hres. apply String.eqb_neq in Hres. rewrite Hres. simpl.
  rewrite Hop in Hattr. simpl in Hattr.
  destruct (GetAttribute prim (GetOpName op)) as [a|]; [eauto | discriminate].
Qed.

(** X11.  When the prim has a rotate op and its edit is allowed, the command that
    rotateCmd returns holds no op; its first createOpIfNeeded caches that
    very op and changes nothing: no op is added, nothing is recorded for
    undo, no observer is notified.  The same holds of scaleCmd and the
    scale op. *)
Theorem existing_op_is_reused (env : Env) (x y z : double env)
    (s : Session (VtValue env)) :
  sItemIsUsd s = true ->
  Forall resolves (GetOrderedXformOps (sPrim s)) ->
  (forall r,
     lastAt NdxRotate (GetOrderedXformOps (sPrim s)) = Some r ->
     fst (isAttributeEditAllowed (sPrim s) (GetOpName r) "") = true ->
     exists base cvt,
       rotateCmd env x y z s = (Ok (Some (UsdRotateOpUndoableCmd base cvt)), s)
       /\ cmdOp base = None
       /\ createOpIfNeeded (base, s)
          = (Ok tt, (mkCmdBase (cmdNewOpValue base) (Some r) (cmdOpFunc base), s)))
  /\ (forall sc,
        lastAt NdxScale (GetOrderedXformOps (sPrim s)) = Some sc ->
        fst (isAttributeEditAllowed (sPrim s) (GetOpName sc) "") = true ->
        exists base,
          scaleCmd env x y z s
          = (Ok (Some (UsdVecOpUndoableCmd PrecisionFloat base)), s)
          /\ cmdOp base = None
          /\ createOpIfNeeded (base, s)
             = (Ok tt, (mkCmdBase (cmdNewOpValue base) (Some sc) (cmdOpFunc base), s))).
Proof.
  intros Hitem Hres. split.
  - intros r Hlast Hallowed.
    destruct (slot_op_found (sPrim s) NdxRotate r Hlast) as [Hr [a Ha]].
    { simpl. intros [H|[H|[H|[]]]]; discriminate H. }
    pose proof (rotate_position_names _ (lastAt_resolves _ _ _ Hlast)) as Hname.
    destruct (cvtTo_defined env _ Hname) as [cvt Hcvt].
    unfold rotateCmd. rewrite (opAndAttrName_lastAt _ NdxRotate Hres).
    unfold slotAttrName. rewrite Hlast.
    destruct (isAttributeEditAllowed (sPrim s) (GetOpName r) "") as [allowed errMsg].
    simpl in Hallowed. subst allowed. simpl. rewrite Hcvt.
    eexists. exists cvt. split; [reflexivity|]. split; [reflexivity|].
    unfold createOpIfNeeded. simpl.
    unfold rotateOpFunc, SceneItemHolder. rewrite Hitem, Ha, <- Hr. reflexivity.
  - intros sc Hlast Hallowed.
    destruct (slot_op_found (sPrim s) NdxScale sc Hlast) as [Hsc [a Ha]].
    { simpl. intros [H|[H|[H|[]]]]; discriminate H. }
    unfold scaleCmd. rewrite (opAndAttrName_lastAt _ NdxScale Hres).
    unfold slotAttrName. rewrite Hlast.
    destruct (isAttributeEditAllowed (sPrim s) (GetOpName sc) "") as [allowed errMsg].
    simpl in Hallowed. subst allowed. simpl.
    eexists. split; [reflexivity|]. split; [reflexivity|].
    unfold createOpIfNeeded. simpl.
    unfold scaleOpFunc, SceneItemHolder. rewrite Hitem, Ha, <- Hsc. reflexivity.
Qed.

Lemma existing_op_is_reused_witness :
  sItemIsUsd (sessionOn primTwoRotates) = true
  /\ Forall resolves (GetOrderedXformOps (sPrim (sessionOn primTwoRotates)))
  /\ lastAt NdxRotate (GetOrderedXformOps (sPrim (sessionOn primTwoRotates)))
     = Some opRotateXYZ
  /\ fst (isAttributeEditAllowed (sPrim (sessionOn primTwoRotates))
            (GetOpName opRotateXYZ) "") = true
  /\ exists base cvt,
       rotateCmd exampleEnv 5 0 0 (sessionOn primTwoRotates)
       = (Ok (Some (UsdRotateOpUndoableCmd base cvt)), sessionOn primTwoRotates)
       /\ cmdOp base = None
       /\ createOpIfNeeded (base, sessionOn primTwoRotates)
          = (Ok tt, (mkCmdBase (cmdNewOpValue base) (Some opRotateXYZ) (cmdOpFunc base),
                     sessionOn primTwoRotates)).
Proof.
  assert (H1 : sItemIsUsd (sessionOn primTwoRotates) = true) by reflexivity.
  assert (H2 : Forall resolves (GetOrderedXformOps (sPrim (sessionOn primTwoRotates)))).
  { apply resolvesb_Forall. vm_compute. reflexivity. }
  assert (H3 : lastAt NdxRotate (GetOrderedXformOps (sPrim (sessionOn primTwoRotates)))
               = Some opRotateXYZ) by (vm_compute; reflexivity).
  assert (H4 : fst (isAttributeEditAllowed (sPrim (sessionOn primTwoRotates))
                      (GetOpName opRotateXYZ) "") = true) by (vm_compute; reflexivity).
  split; [exact H1|]. split; [exact H2|]. split; [exact H3|]. split; [exact H4|].
  exact (proj1 (existing_op_is_reused exampleEnv 5 0 0 (sessionOn primTwoRotates) H1 H2)
           opRotateXYZ H3 H4).
Defined.

(** ** Creating an op that is missing *)

Lemma precision_eqb_eq (a b : Precision) : precision_eqb a b = true <-> a = b.
Proof. destruct a, b; simpl; split; congruence. Qed.

Lemma Forall_filter_resolves (f : UsdGeomXformOp -> bool) (ops : list UsdGeomXformOp) :
  Forall resolves ops -> Forall resolves (List.filter f ops).
Proof.
  intros H. apply List.Forall_forall. intros op Hin. apply List.filter_In in Hin.
  rewrite List.Forall_forall in H. apply H. tauto.
Qed.

(** The op added at the end of xformOpOrder and the reorder that follows. *)
Lemma add_then_order_succeeds {V} (t : XformOpType) (precision : Precision)
    (opSuffix : string) (x : UsdPrim V) (k : OpNdx) :
  let op := mkXformOp (GetOpNameOf t opSuffix) false in
  primAuthorable x = true ->
  existsb (op_eqb op) (xformOpOrder x) = false ->
  (forall a, GetAttribute x (GetOpNameOf t opSuffix) = Some a -> attrPrecision a = precision) ->
  Forall resolves (xformOpOrder x) ->
  gOpNameToNdx_find (GetOpNameOf t opSuffix) = Some k ->
  exists x1 x2 positions,
    AddXformOp t precision opSuffix false x = (Some op, x1)
    /\ setXformOpOrder x1 = (Ok true, x2)
    /\ In op (GetOrderedXformOps x2)
    /\ canonicalPositions (GetOrderedXformOps x2) = Some positions
    /\ StronglySorted lt positions
    /\ (forall name, name <> GetOpNameOf t opSuffix ->
          GetAttribute x2 name = GetAttribute x name)
    /\ GetAttribute x2 (GetOpNameOf t opSuffix) <> None.
Proof.
  intros op Hauth Hex Hprec Hres Hk.
  destruct (AddXformOp t precision opSuffix false x) as [[o|] x1] eqn:Hadd.
  2:{ exfalso. apply AddXformOp_none_cases in Hadd.
      destruct Hadd as [H|[H|(a & Ha & Hp)]]; [fold op in H; congruence | congruence |].
      rewrite (Hprec a Ha) in Hp.
      rewrite (proj2 (precision_eqb_eq precision precision) eq_refl) in Hp. discriminate. }
  pose proof (AddXformOp_some _ _ _ _ _ _ _ Hadd)
    as (-> & Hdef & Horder & _ & Hauth1 & _ & Hother & _).
  fold op in Hdef, Horder, Hother, Hadd.
  assert (Hops : GetOrderedXformOps x1
                 = (List.filter (opHasAttr x1) (xformOpOrder x) ++ [op])%list).
  { unfold GetOrderedXformOps. rewrite Horder, List.filter_app. simpl.
    rewrite Hdef. reflexivity. }
  assert (Hopres : resolves op).
  { unfold resolves, GetOpName. simpl. congruence. }
  assert (Hres1 : Forall resolves (GetOrderedXformOps x1)).
  { rewrite Hops. apply Forall_app. split; [apply Forall_filter_resolves; exact Hres|].
    constructor; [exact Hopres | constructor]. }
  destruct (fill_ok _ Hres1 OpMap.empty) as [m Hfill].
  assert (Hc : computedOrder x1 = Ok (OpMap.values m)).
  { unfold computedOrder. rewrite Hfill. reflexivity. }
  destruct (committed_order_read_back x1 _ Hc Hauth1) as [Hset Hback].
  rewrite Hset in Hback. simpl in Hback.
  set (x2 := snd (SetXformOpOrder (OpMap.values m) (resetsXformStack x1) x1)) in *.
  assert (Hattrs : primAttrs x2 = primAttrs x1) by apply SetXformOpOrder_attrs.
  exists x1, x2, (keyValues m).
  split; [reflexivity|]. split; [exact Hset|].
  split.
  { rewrite Hback. apply (find_in_values k). rewrite (fill_find _ _ _ _ Hfill), Hops.
    rewrite lastAt_app. simpl. unfold GetOpName. simpl. rewrite Hk.
    rewrite (proj2 (ndx_eqb_eq k k) eq_refl). reflexivity. }
  split.
  { rewrite Hback. apply positions_of_values.
    eapply fill_resolved; [exact Hfill | constructor]. }
  split.
  { apply Sorted_StronglySorted; [exact lt_transitive|].
    eapply fill_sorted; [exact Hfill | constructor]. }
  split.
  { intros name Hne. unfold GetAttribute. rewrite Hattrs. apply Hother. exact Hne. }
  unfold opHasAttr in Hdef. unfold GetAttribute in *. rewrite Hattrs.
  simpl in Hdef. destruct (primAttrs x1 !! GetOpNameOf t opSuffix); [discriminate | discriminate].
Qed.

(** X12.  When the attribute named is missing, the prim takes opinions,
    xformOpOrder does not list the op yet, every listed name resolves and so
    does the new one, the op function of setVector3dCmd succeeds: it returns
    the new translate op, the op stands in the authored list, the list is in
    canonical order, the other attributes are untouched, one capture is
    recorded for undo and observers are notified once, of the final state. *)
Theorem vector3dOpFunc_creates {V} (precisionOfV : Precision) (opSuffix : string)
    (s : Session V) (k : OpNdx) :
  let attrName := GetOpNameOf TypeTranslate opSuffix in
  let op := mkXformOp attrName false in
  sItemIsUsd s = true ->
  GetAttribute (sPrim s) attrName = None ->
  primAuthorable (sPrim s) = true ->
  existsb (op_eqb op) (xformOpOrder (sPrim s)) = false ->
  Forall resolves (xformOpOrder (sPrim s)) ->
  gOpNameToNdx_find attrName = Some k ->
  exists x2 positions,
    vector3dOpFunc precisionOfV attrName opSuffix getXformOpOrderFn s
    = (Ok op, mkSession true x2 (sPrim s :: sUndoable s) (x2 :: sNotified s) (sDisplayed s))
    /\ In op (GetOrderedXformOps x2)
    /\ canonicalPositions (GetOrderedXformOps x2) = Some positions
    /\ StronglySorted lt positions
    /\ (forall name, name <> attrName -> GetAttribute x2 name = GetAttribute (sPrim s) name).
Proof.
  intros attrName op Hitem Hattr Hauth Hex Hres Hk.
  destruct (add_then_order_succeeds TypeTranslate precisionOfV opSuffix (sPrim s) k
              Hauth Hex) as (x1 & x2 & positions & Hadd & Hset & Hin & Hpos & Hs & Hother & _).
  { intros a Ha. fold attrName in Ha. congruence. }
  { exact Hres. }
  { exact Hk. }
  exists x2, positions.
  split; [|repeat split; assumption].
  unfold vector3dOpFunc, SceneItemHolder, getUsdPrimAttribute.
  fold attrName. rewrite Hitem, Hattr.
  destruct (negb (String.eqb attrName "")); unfold inUndoBlockWithGuard, AddTranslateOp;
    rewrite Hadd; unfold thenSetOrder, getXformOpOrderFn; rewrite Hset, Hitem; reflexivity.
Qed.

Lemma vector3dOpFunc_creates_witness :
  sItemIsUsd (sessionOn primRotateTranslate) = true
  /\ GetAttribute primRotateTranslate (GetOpNameOf TypeTranslate "scalePivotTranslate") = None
  /\ primAuthorable primRotateTranslate = true
  /\ existsb (op_eqb (mkXformOp (GetOpNameOf TypeTranslate "scalePivotTranslate") false))
             (xformOpOrder primRotateTranslate) = false
  /\ Forall resolves (xformOpOrder primRotateTranslate)
  /\ gOpNameToNdx_find (GetOpNameOf TypeTranslate "scalePivotTranslate")
     = Some NdxScalePivotTranslate
  /\ exists x2 positions,
       vector3dOpFunc PrecisionFloat (GetOpNameOf TypeTranslate "scalePivotTranslate")
         "scalePivotTranslate" getXformOpOrderFn (sessionOn primRotateTranslate)
       = (Ok (mkXformOp (GetOpNameOf TypeTranslate "scalePivotTranslate") false),
          mkSession true x2 [primRotateTranslate] [x2] [])
       /\ In (mkXformOp (GetOpNameOf TypeTranslate "scalePivotTranslate") false)
             (GetOrderedXformOps x2)
       /\ canonicalPositions (GetOrderedXformOps x2) = Some positions
       /\ StronglySorted lt positions.
Proof.
  assert (H1 : sItemIsUsd (sessionOn primRotateTranslate) = true) by reflexivity.
  assert (H2 : GetAttribute primRotateTranslate
                 (GetOpNameOf TypeTranslate "scalePivotTranslate") = None).
  { vm_compute. reflexivity. }
  assert (H3 : primAuthorable primRotateTranslate = true) by reflexivity.
  assert (H4 : existsb (op_eqb (mkXformOp (GetOpNameOf TypeTranslate "scalePivotTranslate")
                                          false))
                       (xformOpOrder primRotateTranslate) = false).
  { vm_compute. reflexivity. }
  assert (H5 : Forall resolves (xformOpOrder primRotateTranslate)).
  { apply resolvesb_Forall. vm_compute. reflexivity. }
  assert (H6 : gOpNameToNdx_find (GetOpNameOf TypeTranslate "scalePivotTranslate")
               = Some NdxScalePivotTranslate) by (vm_compute; reflexivity).
  split; [exact H1|]. split; [exact H2|]. split; [exact H3|]. split; [exact H4|].
  split; [exact H5|]. split; [exact H6|].
  destruct (vector3dOpFunc_creates PrecisionFloat "scalePivotTranslate"
              (sessionOn primRotateTranslate) NdxScalePivotTranslate H1 H2 H3 H4 H5 H6)
    as (x2 & positions & Hf & Hin & Hpos & Hs & _).
  exists x2, positions. auto.
Defined.

(** ** Looking up in a canonical list *)

Lemma positions_member (ops : list UsdGeomXformOp) (positions : list nat)
    (op : UsdGeomXformOp) (k : OpNdx) :
  canonicalPositions ops = Some positions -> In op ops ->
  gOpNameToNdx_find (GetOpName op) = Some k -> In (ndxValue k) positions.
Proof.
  revert positions. induction ops as [|o rest IH]; intros positions Hpos Hin Hk;
    [destruct Hin|].
  simpl in Hpos.
  destruct (gOpNameToNdx_find (GetOpName o)) as [ko|] eqn:Hko; [|discriminate].
  destruct (canonicalPositions rest) as [ps|]; [|discriminate].
  inversion Hpos; subst positions. destruct Hin as [->|Hin].
  - left. congruence.
  - right. eapply IH; [reflexivity | exact Hin | exact Hk].
Qed.

Lemma canonical_lastAt (ops : list UsdGeomXformOp) (positions : list nat)
    (op : UsdGeomXformOp) (k : OpNdx) :
  canonicalPositions ops = Some positions -> StronglySorted lt positions ->
  In op ops -> gOpNameToNdx_find (GetOpName op) = Some k ->
  lastAt k ops = Some op.
Proof.
  revert positions. induction ops as [|o rest IH]; intros positions Hpos Hs Hin Hk;
    [destruct Hin|].
  simpl in Hpos |- *.
  destruct (gOpNameToNdx_find (GetOpName o)) as [ko|] eqn:Hko; [|discriminate].
  destruct (canonicalPositions rest) as [ps|] eqn:Hps; [|discriminate].
  inversion Hpos; subst positions. inversion Hs as [|? ? Hs' Hall]; subst.
  rewrite List.Forall_forall in Hall.
  destruct (lastAt k rest) as [later|] eqn:Hlater.
  - destruct Hin as [->|Hin].
    + exfalso. assert (ko = k) by congruence. subst ko.
      pose proof (positions_member rest ps later k Hps (lastAt_member _ _ _ Hlater)
                    (lastAt_resolves _ _ _ Hlater)) as Hmem.
      specialize (Hall _ Hmem). lia.
    + rewrite <- (IH ps eq_refl Hs' Hin Hk). reflexivity.
  - destruct Hin as [->|Hin].
    + rewrite Hk in Hko. inversion Hko; subst ko.
      rewrite (proj2 (ndx_eqb_eq k k) eq_refl). reflexivity.
    + discriminate (IH ps eq_refl Hs' Hin Hk).
Qed.

(** X13.  On a prim whose authored list is in canonical order, every authored op
    is found again at its own position: hasOp says yes there and getOp
    returns that very op. *)
Theorem getOp_finds_canonical_ops {V} (prim : UsdPrim V) (positions : list nat)
    (op : UsdGeomXformOp) (k : OpNdx) :
  canonicalPositions (GetOrderedXformOps prim) = Some positions ->
  StronglySorted lt positions ->
  In op (GetOrderedXformOps prim) ->
  gOpNameToNdx_find (GetOpName op) = Some k ->
  hasOp prim k = Ok true /\ getOp prim k = Ok op.
Proof.
  intros Hpos Hs Hin Hk.
  pose proof (canonicalPositions_resolves _ _ Hpos) as Hres.
  rewrite (hasOp_lastAt prim k Hres), (getOp_lastAt prim k Hres).
  rewrite (canonical_lastAt _ _ _ _ Hpos Hs Hin Hk). split; reflexivity.
Qed.

Lemma getOp_finds_canonical_ops_witness :
  canonicalPositions (GetOrderedXformOps primTranslateRotateScale) = Some [0; 4; 10]
  /\ StronglySorted lt [0; 4; 10]
  /\ In opRotateXYZ (GetOrderedXformOps primTranslateRotateScale)
  /\ gOpNameToNdx_find (GetOpName opRotateXYZ) = Some NdxRotate
  /\ hasOp primTranslateRotateScale NdxRotate = Ok true
  /\ getOp primTranslateRotateScale NdxRotate = Ok opRotateXYZ.
Proof.
  assert (H1 : canonicalPositions (GetOrderedXformOps primTranslateRotateScale)
               = Some [0; 4; 10]).
  { vm_compute. reflexivity. }
  assert (H2 : StronglySorted lt [0; 4; 10]).
  { repeat (constructor; try lia). }
  assert (H3 : In opRotateXYZ (GetOrderedXformOps primTranslateRotateScale)).
  { vm_compute. right. left. reflexivity. }
  assert (H4 : gOpNameToNdx_find (GetOpName opRotateXYZ) = Some NdxRotate).
  { vm_compute. reflexivity. }
  split; [exact H1|]. split; [exact H2|]. split; [exact H3|]. split; [exact H4|].
  exact (getOp_finds_canonical_ops primTranslateRotateScale [0; 4; 10] opRotateXYZ
           NdxRotate H1 H2 H3 H4).
Defined.

(** ** From the factory to the op *)

(** X14.  On a USD item whose prim has no rotate op, when the edit of
    xformOpOrder is allowed, the prim takes opinions, xformOpOrder does not
    list xformOp:rotateXYZ, every listed name resolves, and an attribute
    xformOp:rotateXYZ left on the prim, if there is one, is of float
    precision: rotateCmd returns a command converting with toXYZ, and its
    first createOpIfNeeded adds a float rotateXYZ op: the command caches it,
    hasOp and getOp find it at the rotate position, and the authored list is
    in canonical order; on a prim with an empty xformOpOrder the list is
    that op alone. *)
Theorem missing_rotate_op_is_created (env : Env) (x y z : double env)
    (s : Session (VtValue env)) :
  let op := mkXformOp "xformOp:rotateXYZ" false in
  sItemIsUsd s = true ->
  lastAt NdxRotate (GetOrderedXformOps (sPrim s)) = None ->
  Forall resolves (xformOpOrder (sPrim s)) ->
  fst (isAttributeEditAllowed (sPrim s) "" "") = true ->
  primAuthorable (sPrim s) = true ->
  existsb (op_eqb op) (xformOpOrder (sPrim s)) = false ->
  (forall a, GetAttribute (sPrim s) "xformOp:rotateXYZ" = Some a ->
             attrPrecision a = PrecisionFloat) ->
  exists base x2 positions,
    rotateCmd env x y z s
    = (Ok (Some (UsdRotateOpUndoableCmd base (Some (toXYZ env)))), s)
    /\ createOpIfNeeded (base, s)
       = (Ok tt, (mkCmdBase (cmdNewOpValue base) (Some op) (cmdOpFunc base),
                  mkSession true x2 (sPrim s :: sUndoable s) (x2 :: sNotified s)
                            (sDisplayed s)))
    /\ canonicalPositions (GetOrderedXformOps x2) = Some positions
    /\ StronglySorted lt positions
    /\ hasOp x2 NdxRotate = Ok true
    /\ getOp x2 NdxRotate = Ok op
    /\ (xformOpOrder (sPrim s) = [] -> GetOrderedXformOps x2 = [op]).
Proof.
  intros op Hitem Hlast Hres Hallowed Hauth Hex Hprec.
  assert (Hres' : Forall resolves (GetOrderedXformOps (sPrim s))).
  { apply Forall_filter_resolves. exact Hres. }
  assert (Hk : gOpNameToNdx_find (GetOpNameOf TypeRotateXYZ getTRSOpSuffix) = Some NdxRotate)
    by reflexivity.
  destruct (add_then_order_succeeds TypeRotateXYZ PrecisionFloat getTRSOpSuffix (sPrim s)
              NdxRotate Hauth Hex Hprec Hres Hk)
    as (x1 & x2 & positions & Hadd & Hset & Hin & Hpos & Hs & _).
  assert (Hcmd : rotateCmd env x y z s
                 = (Ok (Some (UsdRotateOpUndoableCmd
                                (mkCmdBase (vtVec3f env x y z) None
                                   (rotateOpFunc "" getTRSOpSuffix getXformOpOrderFn))
                                (Some (toXYZ env)))), s)).
  { unfold rotateCmd. rewrite (opAndAttrName_lastAt _ NdxRotate Hres').
    unfold slotAttrName. rewrite Hlast.
    destruct (isAttributeEditAllowed (sPrim s) "" "") as [allowed errMsg].
    simpl in Hallowed. subst allowed. reflexivity. }
  eexists. exists x2, positions. split; [exact Hcmd|].
  split.
  { unfold createOpIfNeeded. simpl.
    unfold rotateOpFunc, SceneItemHolder, getUsdPrimAttribute. rewrite Hitem. simpl.
    unfold inUndoBlockWithGuard, AddRotateXYZOp. rewrite Hadd.
    unfold thenSetOrder, getXformOpOrderFn. rewrite Hset, Hitem. reflexivity. }
  split; [exact Hpos|]. split; [exact Hs|].
  assert (Hop : gOpNameToNdx_find (GetOpName op) = Some NdxRotate) by reflexivity.
  pose proof (canonicalPositions_resolves _ _ Hpos) as Hres2.
  rewrite (hasOp_lastAt x2 NdxRotate Hres2), (getOp_lastAt x2 NdxRotate Hres2).
  rewrite (canonical_lastAt _ _ _ _ Hpos Hs Hin Hop).
  split; [reflexivity|]. split; [reflexivity|].
  intros Hempty.
  assert (Hx1 : xformOpOrder x1 = [op] /\ opHasAttr x1 op = true).
  { pose proof (AddXformOp_some _ _ _ _ _ _ _ Hadd) as (_ & Hd & Ho & _).
    rewrite Hempty in Ho. split; [exact Ho | exact Hd]. }
  destruct Hx1 as [Ho1 Hd1].
  pose proof (setXformOpOrder_attrs x1) as Hattrs. rewrite Hset in Hattrs. simpl in Hattrs.
  assert (Hx2 : xformOpOrder x2 = [op]).
  { revert Hset. unfold setXformOpOrder, GetOrderedXformOps. rewrite Ho1. simpl.
    rewrite Hd1. simpl. unfold SetXformOpOrder.
    destruct (primAuthorable x1); intros H; inversion H; reflexivity. }
  unfold GetOrderedXformOps. rewrite Hx2. simpl.
  rewrite (opHasAttr_same_attrs _ _ _ Hattrs), Hd1. reflexivity.
Qed.

Lemma missing_rotate_op_is_created_witness :
  sItemIsUsd (sessionOn primEmpty) = true
  /\ lastAt NdxRotate (GetOrderedXformOps (sPrim (sessionOn primEmpty))) = None
  /\ Forall resolves (xformOpOrder (sPrim (sessionOn primEmpty)))
  /\ fst (isAttributeEditAllowed (sPrim (sessionOn primEmpty)) "" "") = true
  /\ primAuthorable (sPrim (sessionOn primEmpty)) = true
  /\ exists base x2,
       rotateCmd exampleEnv 10 20 30 (sessionOn primEmpty)
       = (Ok (Some (UsdRotateOpUndoableCmd base (Some (toXYZ exampleEnv)))),
          sessionOn primEmpty)
       /\ createOpIfNeeded (base, sessionOn primEmpty)
          = (Ok tt, (mkCmdBase (cmdNewOpValue base) (Some opRotateXYZ) (cmdOpFunc base),
                     mkSession true x2 [primEmpty] [x2] []))
       /\ GetOrderedXformOps x2 = [opRotateXYZ].
Proof.
  assert (H1 : sItemIsUsd (sessionOn primEmpty) = true) by reflexivity.
  assert (H2 : lastAt NdxRotate (GetOrderedXformOps (sPrim (sessionOn primEmpty))) = None)
    by reflexivity.
  assert (H3 : Forall resolves (xformOpOrder (sPrim (sessionOn primEmpty))))
    by constructor.
  assert (H4 : fst (isAttributeEditAllowed (sPrim (sessionOn primEmpty)) "" "") = true)
    by reflexivity.
  assert (H5 : primAuthorable (sPrim (sessionOn primEmpty)) = true) by reflexivity.
  split; [exact H1|]. split; [exact H2|]. split; [exact H3|]. split; [exact H4|].
  split; [exact H5|].
  destruct (missing_rotate_op_is_created exampleEnv 10 20 30 (sessionOn primEmpty)
              H1 H2 H3 H4 H5) as (base & x2 & positions & Hc & Hcr & _ & _ & _ & _ & He).
  { reflexivity. }
  { intros a Ha. vm_compute in Ha. discriminate Ha. }
  exists base, x2. split; [exact Hc|]. split; [exact Hcr|]. apply He. reflexivity.
Defined.

(** ** Running an op function again *)

Lemma GetOpNameOf_not_empty (t : XformOpType) (opSuffix : string) :
  String.eqb (GetOpNameOf t opSuffix) "" = false.
Proof. unfold GetOpNameOf. destruct (String.eqb opSuffix ""); destruct t; reflexivity. Qed.

Lemma added_op_survives_order {V} (t : XformOpType) (precision : Precision)
    (opSuffix : string) (x x1 x2 : UsdPrim V) (op : UsdGeomXformOp) :
  AddXformOp t precision opSuffix false x = (Some op, x1) ->
  setXformOpOrder x1 = (Ok true, x2) ->
  In op (xformOpOrder x2) /\ In op (GetOrderedXformOps x2).
Proof.
  intros Hadd Hset.
  pose proof (AddXformOp_some _ _ _ _ _ _ _ Hadd) as (Hop & Hdef & Horder & _ & Hauth1 & _).
  assert (Hops : GetOrderedXformOps x1
                 = (List.filter (opHasAttr x1) (xformOpOrder x) ++ [op])%list).
  { unfold GetOrderedXformOps. rewrite Horder, List.filter_app. simpl.
    rewrite Hdef. reflexivity. }
  destruct (computedOrder x1) as [newOrder|e] eqn:Hc.
  2:{ rewrite setXformOpOrder_computed, Hc in Hset. discriminate Hset. }
  destruct (committed_order_read_back x1 newOrder Hc Hauth1) as [_ Hback].
  rewrite Hset in Hback. simpl in Hback.
  assert (Hin : In op (GetOrderedXformOps x2)).
  { rewrite Hback. unfold computedOrder in Hc.
    destruct (fillOrderedOps (GetOrderedXformOps x1) OpMap.empty) as [m|] eqn:Hfill;
      [|discriminate].
    inversion Hc; subst newOrder.
    pose proof (fill_ok_resolves _ _ _ Hfill) as Hres. rewrite Hops in Hres.
    apply Forall_app in Hres. destruct Hres as [_ Hres].
    apply List.Forall_inv in Hres. unfold resolves in Hres.
    destruct (gOpNameToNdx_find (GetOpName op)) as [k|] eqn:Hk; [|congruence].
    apply (find_in_values k). rewrite (fill_find _ _ _ _ Hfill), Hops, lastAt_app.
    simpl. rewrite Hk, (proj2 (ndx_eqb_eq k k) eq_refl). reflexivity. }
  split; [|exact Hin].
  unfold GetOrderedXformOps in Hin. apply List.filter_In in Hin. tauto.
Qed.

(** X15.  The op functions that are given the name of their attribute, those of
    setVector3dCmd and pivotCmd, can be run again after they have returned:
    the second run finds the attribute, returns the same op and changes
    nothing. *)
Theorem named_op_functions_rerun {V} (opSuffix : string) (s s1 : Session V)
    (op : UsdGeomXformOp) :
  let attrName := GetOpNameOf TypeTranslate opSuffix in
  (forall precisionOfV,
     vector3dOpFunc precisionOfV attrName opSuffix getXformOpOrderFn s = (Ok op, s1) ->
     vector3dOpFunc precisionOfV attrName opSuffix getXformOpOrderFn s1 = (Ok op, s1))
  /\ (pivotOpFunc attrName opSuffix getXformOpOrderFn s = (Ok op, s1) ->
      pivotOpFunc attrName opSuffix getXformOpOrderFn s1 = (Ok op, s1)).
Proof.
  intros attrName. split.
  - intros precisionOfV Hrun.
    pose proof (vector3dOpFunc_defined precisionOfV attrName opSuffix s op s1 Hrun) as Hdef.
    assert (H : op = mkXformOp attrName false /\ sItemIsUsd s1 = true).
    { revert Hrun. unfold vector3dOpFunc, SceneItemHolder.
      destruct (sItemIsUsd s) eqn:Hitem; [|discriminate].
      destruct (getUsdPrimAttribute (sPrim s) attrName).
      - intros H. inversion H; subst. auto.
      - intros H. apply inUndoBlockWithGuard_ok in H. destruct H as (x' & Hbody & ->).
        destruct (AddTranslateOp precisionOfV opSuffix false (sPrim s)) as [[o|] x1] eqn:Hadd;
          [|discriminate].
        apply thenSetOrder_ok in Hbody. destruct Hbody as (-> & _).
        apply AddXformOp_some in Hadd. destruct Hadd as (-> & _). auto. }
    destruct H as [-> Hitem1]. simpl in Hdef. unfold opHasAttr in Hdef. simpl in Hdef.
    unfold vector3dOpFunc, SceneItemHolder, getUsdPrimAttribute.
    subst attrName. rewrite Hitem1, GetOpNameOf_not_empty. simpl.
    destruct (GetAttribute (sPrim s1) (GetOpNameOf TypeTranslate opSuffix));
      [reflexivity | discriminate].
  - intros Hrun.
    pose proof (pivotOpFunc_defined opSuffix s op s1 Hrun) as Hdef.
    assert (H : op = mkXformOp attrName false /\ sItemIsUsd s1 = true).
    { revert Hrun. unfold pivotOpFunc, SceneItemHolder.
      destruct (sItemIsUsd s) eqn:Hitem; [|discriminate].
      destruct (GetAttribute (sPrim s) attrName).
      - intros H. inversion H; subst. auto.
      - intros H. apply inUndoBlockWithGuard_ok in H. destruct H as (x' & Hbody & ->).
        apply pivotCreate_ok in Hbody. destruct Hbody as (_ & _ & _ & _ & _ & ->). auto. }
    destruct H as [-> Hitem1]. simpl in Hdef. unfold opHasAttr in Hdef. simpl in Hdef.
    unfold pivotOpFunc, SceneItemHolder. rewrite Hitem1.
    destruct (GetAttribute (sPrim s1) attrName); [reflexivity | discriminate].
Qed.

Lemma named_op_functions_rerun_witness :
  exists s1,
    pivotOpFunc (GetOpNameOf TypeTranslate "rotatePivot") "rotatePivot" getXformOpOrderFn
      (sessionOn primEmpty) = (Ok (pivotOp "rotatePivot"), s1)
    /\ pivotOpFunc (GetOpNameOf TypeTranslate "rotatePivot") "rotatePivot" getXformOpOrderFn s1
       = (Ok (pivotOp "rotatePivot"), s1).
Proof.
  destruct (pivotOpFunc (GetOpNameOf TypeTranslate "rotatePivot") "rotatePivot"
              getXformOpOrderFn (sessionOn primEmpty)) as [r s1] eqn:Hrun.
  assert (Hr : r = Ok (pivotOp "rotatePivot")).
  { vm_compute in Hrun. inversion Hrun. reflexivity. }
  subst r. exists s1. split; [reflexivity|].
  exact (proj2 (named_op_functions_rerun "rotatePivot" (sessionOn primEmpty) s1
                  (pivotOp "rotatePivot")) Hrun).
Defined.

(** X16.  The op functions of rotateCmd and scaleCmd built for a prim without
    such an op, hence with the empty attribute name, cannot be run again
    after they have returned: the op they added stands in xformOpOrder, the
    second AddXformOp is refused and the function throws "Cannot add ...".
    The cache of createOpIfNeeded is what keeps a command from doing so. *)
Theorem unnamed_op_functions_throw_on_rerun {V} (opSuffix : string) (s s1 : Session V)
    (op : UsdGeomXformOp) :
  (rotateOpFunc "" opSuffix getXformOpOrderFn s = (Ok op, s1) ->
   rotateOpFunc "" opSuffix getXformOpOrderFn s1
   = (Throw (RuntimeError "Cannot add rotation transform operation"), s1))
  /\ (scaleOpFunc "" opSuffix getXformOpOrderFn s = (Ok op, s1) ->
      scaleOpFunc "" opSuffix getXformOpOrderFn s1
      = (Throw (RuntimeError "Cannot add scaling transform operation"), s1)).
Proof.
  split.
  - unfold rotateOpFunc, SceneItemHolder, getUsdPrimAttribute. simpl.
    destruct (sItemIsUsd s) eqn:Hitem; [|discriminate].
    intros H. apply inUndoBlockWithGuard_ok in H. destruct H as (x2 & Hbody & ->).
    unfold AddRotateXYZOp in *.
    destruct (AddXformOp TypeRotateXYZ PrecisionFloat opSuffix false (sPrim s))
      as [[o|] x1] eqn:Hadd; [|discriminate].
    apply thenSetOrder_ok in Hbody. destruct Hbody as (-> & Hset & _).
    destruct (added_op_survives_order _ _ _ _ _ _ _ Hadd Hset) as [Hin _].
    pose proof (AddXformOp_some _ _ _ _ _ _ _ Hadd) as (-> & _).
    simpl. rewrite Hitem. unfold inUndoBlockWithGuard. simpl.
    unfold AddXformOp.
    assert (Hex : existsb (op_eqb (mkXformOp (GetOpNameOf TypeRotateXYZ opSuffix) false))
                          (xformOpOrder x2) = true).
    { apply existsb_exists. eexists. split; [exact Hin | apply op_eqb_eq; reflexivity]. }
    rewrite Hex. reflexivity.
  - unfold scaleOpFunc, SceneItemHolder, getUsdPrimAttribute. simpl.
    destruct (sItemIsUsd s) eqn:Hitem; [|discriminate].
    intros H. apply inUndoBlockWithGuard_ok in H. destruct H as (x2 & Hbody & ->).
    unfold AddScaleOp in *.
    destruct (AddXformOp TypeScale PrecisionFloat opSuffix false (sPrim s))
      as [[o|] x1] eqn:Hadd; [|discriminate].
    apply thenSetOrder_ok in Hbody. destruct Hbody as (-> & Hset & _).
    destruct (added_op_survives_order _ _ _ _ _ _ _ Hadd Hset) as [Hin _].
    pose proof (AddXformOp_some _ _ _ _ _ _ _ Hadd) as (-> & _).
    simpl. rewrite Hitem. unfold inUndoBlockWithGuard. simpl.
    unfold AddXformOp.
    assert (Hex : existsb (op_eqb (mkXformOp (GetOpNameOf TypeScale opSuffix) false))
                          (xformOpOrder x2) = true).
    { apply existsb_exists. eexists. split; [exact Hin | apply op_eqb_eq; reflexivity]. }
    rewrite Hex. reflexivity.
Qed.

Lemma unnamed_op_functions_throw_on_rerun_witness :
  exists s1,
    rotateOpFunc "" "" getXformOpOrderFn (sessionOn primEmpty) = (Ok opRotateXYZ, s1)
    /\ rotateOpFunc "" "" getXformOpOrderFn s1
       = (Throw (RuntimeError "Cannot add rotation transform operation"), s1).
Proof.
  destruct (rotateOpFunc "" "" getXformOpOrderFn (sessionOn primEmpty)) as [r s1] eqn:Hrun.
  assert (Hr : r = Ok opRotateXYZ).
  { vm_compute in Hrun. inversion Hrun. reflexivity. }
  subst r. exists s1. split; [reflexivity|].
  exact (proj1 (unnamed_op_functions_throw_on_rerun "" (sessionOn primEmpty) s1 opRotateXYZ)
           Hrun).
Defined.

(** ** The value a command writes *)

Lemma filter_ext_in {A} (f g : A -> bool) (l : list A) :
  (forall a, In a l -> f a = g a) -> List.filter f l = List.filter g l.
Proof.
  induction l as [|a l IH]; intros H; simpl; [reflexivity|].
  rewrite (H a (or_introl eq_refl)), IH; [reflexivity|]. intros; apply H; now right.
Qed.

Lemma attributeSet_written {V} (attrName : string) (v : V) (prim : UsdPrim V)
    (a : UsdAttribute V) :
  GetAttribute prim attrName = Some a -> primAuthorable prim = true ->
  let prim' := snd (attributeSet attrName v prim) in
  GetAttribute prim' attrName = Some (mkAttr (attrPrecision a) (Some v) (attrEditError a))
  /\ (forall name, name <> attrName -> GetAttribute prim' name = GetAttribute prim name)
  /\ xformOpOrder prim' = xformOpOrder prim
  /\ (forall op, opHasAttr prim' op = opHasAttr prim op)
  /\ GetOrderedXformOps prim' = GetOrderedXformOps prim.
Proof.
  intros Ha Hauth prim'. subst prim'. unfold attributeSet. rewrite Ha, Hauth. simpl.
  assert (Hsame : forall name, name <> attrName ->
            GetAttribute (mkPrim (<[attrName := mkAttr (attrPrecision a) (Some v)
                                                       (attrEditError a)]> (primAttrs prim))
                                 (xformOpOrder prim) (resetsXformStack prim)
                                 (xformOpOrderEditError prim) true) name
            = GetAttribute prim name).
  { intros name Hne. unfold GetAttribute. simpl. apply lookup_insert_ne. congruence. }
  assert (Hhas : forall op,
            opHasAttr (mkPrim (<[attrName := mkAttr (attrPrecision a) (Some v)
                                                    (attrEditError a)]> (primAttrs prim))
                              (xformOpOrder prim) (resetsXformStack prim)
                              (xformOpOrderEditError prim) true) op
            = opHasAttr prim op).
  { intros op. unfold opHasAttr.
    destruct (String.eqb_spec (opAttrName op) attrName) as [->|Hne].
    - unfold GetAttribute in *. simpl. rewrite lookup_insert_eq, Ha. reflexivity.
    - rewrite (Hsame _ Hne). reflexivity. }
  split; [unfold GetAttribute; simpl; apply lookup_insert_eq|].
  split; [exact Hsame|]. split; [reflexivity|]. split; [exact Hhas|].
  unfold GetOrderedXformOps. simpl. apply filter_ext_in. intros op _. apply Hhas.
Qed.

(** X17.  setValue does nothing when the command holds no defined op, when the
    value is empty, or when the store takes no opinion.  Otherwise getValue
    reads back the value just set, and setValue has changed nothing else:
    the op stays defined, xformOpOrder and the authored list are as before,
    and so is every other attribute. *)
Theorem setValue_then_getValue {env : Env} (vtIsEmpty : VtValue env -> bool)
    (cmd : UsdTRSUndoableCmdBase env) (v : VtValue env) (prim : UsdPrim (VtValue env)) :
  let prim' := cmdSetValue vtIsEmpty cmd v prim in
  (opIsDefined prim (cmdOp cmd) = false \/ vtIsEmpty v = true
   \/ primAuthorable prim = false -> prim' = prim)
  /\ (opIsDefined prim (cmdOp cmd) = false -> cmdGetValue cmd prim = vtEmpty env)
  /\ (opIsDefined prim (cmdOp cmd) = true -> vtIsEmpty v = false ->
      primAuthorable prim = true ->
      cmdGetValue cmd prim' = v
      /\ opIsDefined prim' (cmdOp cmd) = true
      /\ xformOpOrder prim' = xformOpOrder prim
      /\ GetOrderedXformOps prim' = GetOrderedXformOps prim
      /\ forall op name, cmdOp cmd = Some op -> name <> opAttrName op ->
           GetAttribute prim' name = GetAttribute prim name).
Proof.
  intros prim'. subst prim'. unfold cmdSetValue, cmdGetValue.
  split; [|split].
  - intros [H|[H|H]].
    + rewrite H. reflexivity.
    + rewrite H. destruct (negb (opIsDefined prim (cmdOp cmd))); reflexivity.
    + destruct (negb (opIsDefined prim (cmdOp cmd))); [reflexivity|].
      destruct (vtIsEmpty v); [reflexivity|].
      destruct (cmdOp cmd) as [op|]; [|reflexivity].
      unfold attributeSet. rewrite H.
      destruct (GetAttribute prim (opAttrName op)); reflexivity.
  - intros H. rewrite H. reflexivity.
  - intros Hdef Hne Hauth. rewrite Hdef, Hne. simpl.
    destruct (cmdOp cmd) as [op|] eqn:Hop; [|discriminate].
    simpl in Hdef. unfold opHasAttr in Hdef.
    destruct (GetAttribute prim (opAttrName op)) as [a|] eqn:Ha; [|discriminate].
    destruct (attributeSet_written (opAttrName op) v prim a Ha Hauth)
      as (Hnew & Hother & Horder & Hhas & Hops).
    simpl. rewrite Hhas. unfold opHasAttr. rewrite Ha, Hnew. simpl.
    split; [reflexivity|]. split; [reflexivity|]. split; [exact Horder|].
    split; [exact Hops|].
    intros op0 name Hop0 Hname. inversion Hop0; subst op0. apply Hother. exact Hname.
Qed.

Lemma setValue_then_getValue_witness :
  opIsDefined primRotated (cmdOp rotatedCmdBase) = true
  /\ exampleIsEmpty (Some (7, 8, 9)) = false
  /\ primAuthorable primRotated = true
  /\ cmdGetValue rotatedCmdBase
       (cmdSetValue exampleIsEmpty rotatedCmdBase (Some (7, 8, 9)) primRotated)
     = Some (7, 8, 9)
  /\ cmdSetValue exampleIsEmpty rotatedCmdBase None primRotated = primRotated.
Proof.
  assert (H1 : opIsDefined primRotated (cmdOp rotatedCmdBase) = true).
  { vm_compute. reflexivity. }
  assert (H2 : exampleIsEmpty (Some (7, 8, 9)) = false) by reflexivity.
  assert (H3 : primAuthorable primRotated = true) by reflexivity.
  split; [exact H1|]. split; [exact H2|]. split; [exact H3|].
  split.
  - exact (proj1 (proj2 (proj2 (setValue_then_getValue exampleIsEmpty rotatedCmdBase
                                  (Some (7, 8, 9)) primRotated)) H1 H2 H3)).
  - apply (proj1 (setValue_then_getValue exampleIsEmpty rotatedCmdBase None primRotated)).
    right. left. reflexivity.
Defined.

(** ** set on the commands *)

(** X19.  On a prim whose rotate op is an xformOp:orient the factory does
    not fail: when the edit is allowed rotateCmd returns a command, whose
    converter is null, and it is set on that command that ends in the call
    of the null converter, before the new value is taken. *)
Theorem set_on_orient_command_fails {env : Env}
    (updateNewValue : UsdTRSUndoableCmdBase env -> VtValue env -> UsdTRSUndoableCmdBase env)
    (x y z x' y' z' : double env) (s : Session (VtValue env)) (r : UsdGeomXformOp) :
  Forall resolves (GetOrderedXformOps (sPrim s)) ->
  lastAt NdxRotate (GetOrderedXformOps (sPrim s)) = Some r ->
  GetOpName r = "xformOp:orient" ->
  fst (isAttributeEditAllowed (sPrim s) "xformOp:orient" "") = true ->
  exists base,
    rotateCmd env x y z s = (Ok (Some (UsdRotateOpUndoableCmd base None)), s)
    /\ UndoableCommand_set updateNewValue (UsdRotateOpUndoableCmd base None) x' y' z'
       = Throw UnsupportedEncoding.
Proof.
  intros Hres Hlast Hname Hallowed.
  unfold rotateCmd. rewrite (opAndAttrName_lastAt _ NdxRotate Hres).
  unfold slotAttrName. rewrite Hlast, Hname.
  destruct (isAttributeEditAllowed (sPrim s) "xformOp:orient" "") as [allowed errMsg].
  simpl in Hallowed. subst allowed. simpl.
  eexists. split; reflexivity.
Qed.

Lemma set_on_orient_command_fails_witness :
  Forall resolves (GetOrderedXformOps (sPrim (sessionOn primOrient)))
  /\ lastAt NdxRotate (GetOrderedXformOps (sPrim (sessionOn primOrient))) = Some opOrient
  /\ GetOpName opOrient = "xformOp:orient"
  /\ fst (isAttributeEditAllowed (sPrim (sessionOn primOrient)) "xformOp:orient" "") = true
  /\ exists base,
       rotateCmd exampleEnv 1 2 3 (sessionOn primOrient)
       = (Ok (Some (UsdRotateOpUndoableCmd base None)), sessionOn primOrient)
       /\ UndoableCommand_set (env := exampleEnv)
            (fun b v => mkCmdBase v (cmdOp b) (cmdOpFunc b))
            (UsdRotateOpUndoableCmd base None) 4 5 6
          = Throw UnsupportedEncoding.
Proof.
  assert (H1 : Forall resolves (GetOrderedXformOps (sPrim (sessionOn primOrient)))).
  { apply resolvesb_Forall. vm_compute. reflexivity. }
  assert (H2 : lastAt NdxRotate (GetOrderedXformOps (sPrim (sessionOn primOrient)))
               = Some opOrient) by (vm_compute; reflexivity).
  assert (H3 : GetOpName opOrient = "xformOp:orient") by reflexivity.
  assert (H4 : fst (isAttributeEditAllowed (sPrim (sessionOn primOrient))
                      "xformOp:orient" "") = true) by (vm_compute; reflexivity).
  split; [exact H1|]. split; [exact H2|]. split; [exact H3|]. split; [exact H4|].
  exact (set_on_orient_command_fails (env := exampleEnv)
           (fun b v => mkCmdBase v (cmdOp b) (cmdOpFunc b))
           1 2 3 4 5 6 (sessionOn primOrient) opOrient H1 H2 H3 H4).
Defined.
